(** * Spark-Todo: the SQLite-backed store ([internal/todo]) in Rocq

    A shallow embedding of the store of the Spark-Todo desktop application:
    the validation and CRUD operations over groups, tasks and settings, the
    defaults bootstrap, and the reminder timestamp.

    Layout:
    - the Go library functions the store calls ([utf8], [unicode], [strings],
      [strconv], [errors]) over Go strings, which are byte sequences;
    - the data model of [models.go];
    - the database handle as an interface ([SqlDB]) with the relational model
      of the SQLite schema as its instance;
    - the store operations, written against the interface;
    - the properties of the store. *)

From Stdlib Require Import ZArith Lia Bool List.
From Stdlib Require Import Ascii String.
From stdpp Require Import gmap strings sorting.

Local Open Scope Z_scope.

(** ** Go strings

    A Go [string] is an immutable sequence of bytes; text is UTF-8 by
    convention only.  Rocq's [string] is a sequence of 8-bit [ascii] values,
    so a Go string is modelled as a [string] whose characters are its bytes. *)

Definition byte_of (c : ascii) : Z := Z.of_N (N_of_ascii c).
Definition ascii_of (b : Z) : ascii := ascii_of_N (Z.to_N b).

(** [len(s)] *)
Definition len (s : string) : Z := Z.of_nat (String.length s).

(** [s[i]]; Go panics when [i] is out of range, every use below is guarded. *)
Definition index (s : string) (i : Z) : Z :=
  match String.get (Z.to_nat i) s with
  | Some c => byte_of c
  | None => 0
  end.

(** [s[lo:hi]] *)
Definition slice (s : string) (lo hi : Z) : string :=
  String.substring (Z.to_nat lo) (Z.to_nat (hi - lo)) s.

(** [s[lo:]] *)
Definition slice_from (s : string) (lo : Z) : string := slice s lo (len s).

Definition string_eqb (a b : string) : bool := bool_decide (a = b).

(** ** Package [unicode/utf8] *)
Module utf8.

Definition RuneError : Z := 0xFFFD.
Definition RuneSelf : Z := 0x80.
Definition MaxRune : Z := 0x10FFFF.
Definition UTFMax : Z := 4.
Definition surrogateMin : Z := 0xD800.
Definition surrogateMax : Z := 0xDFFF.

Definition locb : Z := 0x80.
Definition hicb : Z := 0xBF.
Definition maskx : Z := 0x3F.
Definition mask2 : Z := 0x1F.
Definition mask3 : Z := 0x0F.
Definition mask4 : Z := 0x07.

(** The entries of the table [first]: information about the first byte of a
    UTF-8 sequence (low 3 bits: size; high 4 bits: index into
    [acceptRanges]). *)
Definition xx : Z := 0xF1.
Definition as_ : Z := 0xF0.
Definition s1 : Z := 0x02.
Definition s2 : Z := 0x13.
Definition s3 : Z := 0x03.
Definition s4 : Z := 0x23.
Definition s5 : Z := 0x34.
Definition s6 : Z := 0x04.
Definition s7 : Z := 0x44.

Definition first (b : Z) : Z :=
  if b <? 0x80 then as_
  else if b <? 0xC2 then xx
  else if b <? 0xE0 then s1
  else if b =? 0xE0 then s2
  else if b <? 0xED then s3
  else if b =? 0xED then s4
  else if b <? 0xF0 then s3
  else if b =? 0xF0 then s5
  else if b <? 0xF4 then s6
  else if b =? 0xF4 then s7
  else xx.

(** [acceptRanges[i]]: the range [(lo, hi)] of valid second bytes. *)
Definition acceptRanges (i : Z) : Z * Z :=
  match i with
  | 0 => (locb, hicb)
  | 1 => (0xA0, hicb)
  | 2 => (locb, 0x9F)
  | 3 => (0x90, hicb)
  | 4 => (locb, 0x8F)
  | _ => (0, 0)
  end.

(** [utf8.DecodeRuneInString(s)]: the first rune of [s] and its width in
    bytes; [(RuneError, 0)] on the empty string and [(RuneError, 1)] on an
    invalid encoding. *)
Definition DecodeRuneInString (s : string) : Z * Z :=
  let n := len s in
  if n <? 1 then (RuneError, 0) else
  let s0 := index s 0 in
  let x := first s0 in
  if x >=? as_ then
    ((if x =? xx then RuneError else s0), 1)
  else
    let sz := Z.land x 7 in
    let '(lo, hi) := acceptRanges (Z.shiftr x 4) in
    if n <? sz then (RuneError, 1) else
    let b1 := index s 1 in
    if (b1 <? lo) || (hi <? b1) then (RuneError, 1) else
    if sz <=? 2 then
      (Z.lor (Z.shiftl (Z.land s0 mask2) 6) (Z.land b1 maskx), 2)
    else
    let b2 := index s 2 in
    if (b2 <? locb) || (hicb <? b2) then (RuneError, 1) else
    if sz <=? 3 then
      (Z.lor (Z.lor (Z.shiftl (Z.land s0 mask3) 12)
                    (Z.shiftl (Z.land b1 maskx) 6))
             (Z.land b2 maskx), 3)
    else
    let b3 := index s 3 in
    if (b3 <? locb) || (hicb <? b3) then (RuneError, 1) else
      (Z.lor (Z.lor (Z.lor (Z.shiftl (Z.land s0 mask4) 18)
                           (Z.shiftl (Z.land b1 maskx) 12))
                    (Z.shiftl (Z.land b2 maskx) 6))
             (Z.land b3 maskx), 4).

(** [utf8.RuneStart(b)]: [b] is not a continuation byte. *)
Definition RuneStart (b : Z) : bool := negb (Z.land b 0xC0 =? 0x80).

(** [utf8.DecodeLastRuneInString(s)] *)
Definition DecodeLastRuneInString (s : string) : Z * Z :=
  let end_ := len s in
  if end_ =? 0 then (RuneError, 0) else
  let start := end_ - 1 in
  let r := index s start in
  if r <? RuneSelf then (r, 1) else
  let lim := Z.max 0 (end_ - UTFMax) in
  (* for start--; start >= lim; start-- { if RuneStart(s[start]) { break } } *)
  let start :=
    (fix back (fuel : nat) (start : Z) : Z :=
       match fuel with
       | O => start
       | S fuel' =>
           if start >=? lim then
             if RuneStart (index s start) then start else back fuel' (start - 1)
           else start
       end) 4%nat (start - 1) in
  let start := Z.max 0 start in
  let '(r, size) := DecodeRuneInString (slice s start end_) in
  if negb (start + size =? end_) then (RuneError, 1) else (r, size).

(** The runes that [for _, r := range s] yields, with the byte offset and
    the width of each: an invalid byte yields [RuneError] with width 1.
    [skip] counts the bytes still to pass that belong to the rune decoded
    last. *)
Fixpoint range_from (skip : nat) (i : Z) (s : string) : list (Z * Z * Z) :=
  match s with
  | EmptyString => []
  | String _ s' =>
      match skip with
      | S k => range_from k (i + 1) s'
      | O =>
          let '(r, size) := DecodeRuneInString s in
          (i, r, size) :: range_from (Z.to_nat size - 1) (i + 1) s'
      end
  end.

Definition range (s : string) : list (Z * Z * Z) := range_from 0 0 s.

(** [utf8.RuneCountInString(s)]: the number of runes in [s], every invalid
    byte counting as one rune of width 1. *)
Definition RuneCountInString (s : string) : Z :=
  Z.of_nat (length (range s)).

(** [utf8.AppendRune(nil, r)] as a string: the UTF-8 encoding of [r], the
    encoding of [RuneError] when [r] is out of range or a surrogate. *)
Definition EncodeRune (r : Z) : string :=
  let enc3 (r : Z) :=
    String (ascii_of (Z.lor 0xE0 (Z.shiftr r 12)))
   (String (ascii_of (Z.lor 0x80 (Z.land (Z.shiftr r 6) maskx)))
   (String (ascii_of (Z.lor 0x80 (Z.land r maskx))) EmptyString)) in
  if (0 <=? r) && (r <=? 0x7F) then String (ascii_of r) EmptyString
  else if (0 <=? r) && (r <=? 0x7FF) then
    String (ascii_of (Z.lor 0xC0 (Z.shiftr r 6)))
   (String (ascii_of (Z.lor 0x80 (Z.land r maskx))) EmptyString)
  else if (r <? 0) || (MaxRune <? r) || ((surrogateMin <=? r) && (r <=? surrogateMax))
  then enc3 RuneError
  else if r <=? 0xFFFF then enc3 r
  else
    String (ascii_of (Z.lor 0xF0 (Z.shiftr r 18)))
   (String (ascii_of (Z.lor 0x80 (Z.land (Z.shiftr r 12) maskx)))
   (String (ascii_of (Z.lor 0x80 (Z.land (Z.shiftr r 6) maskx)))
   (String (ascii_of (Z.lor 0x80 (Z.land r maskx))) EmptyString))).

End utf8.

(** ** Package [unicode] *)

(** The case tables of package [unicode] for runes above [MaxASCII]
    ([CaseRanges] and [caseOrbit]).  They are data of the Go distribution,
    not of this repository, and are taken as a parameter; every property
    below holds for any tables. *)
Class CaseTables := {
  (** [unicode.To(unicode.LowerCase, r)] for [r > MaxASCII] *)
  caseRanges_lower : Z -> Z;
  (** [unicode.To(unicode.UpperCase, r)] for [r > MaxASCII] *)
  caseRanges_upper : Z -> Z;
  (** the entry of [caseOrbit] for [r], when there is one *)
  caseOrbit : Z -> option Z;
}.

(** Tables without any entry above ASCII: enough to run the store on text
    whose non-ASCII runes have no case (CJK text, digits, punctuation). *)
Definition caselessTables : CaseTables :=
  {| caseRanges_lower := fun r => r;
     caseRanges_upper := fun r => r;
     caseOrbit := fun _ => None |}.

Module unicode.

Definition MaxASCII : Z := 0x7F.
Definition MaxLatin1 : Z := 0xFF.

(** [unicode.IsSpace(r)]: the Latin-1 spaces, and the [White_Space] property
    above Latin-1. *)
Definition IsSpace (r : Z) : bool :=
  if (0 <=? r) && (r <=? MaxLatin1) then
    (r =? 0x09) || (r =? 0x0A) || (r =? 0x0B) || (r =? 0x0C) || (r =? 0x0D)
    || (r =? 0x20) || (r =? 0x85) || (r =? 0xA0)
  else
    (r =? 0x1680) || ((0x2000 <=? r) && (r <=? 0x200A))
    || (r =? 0x2028) || (r =? 0x2029) || (r =? 0x202F) || (r =? 0x205F)
    || (r =? 0x3000).

(** [asciiFold[r]] for [0 <= r <= MaxASCII]: the next rune of the case
    orbit; [k] and [s] continue to the Kelvin sign and the long s. *)
Definition asciiFold (r : Z) : Z :=
  if r =? 0x6B then 0x212A
  else if r =? 0x73 then 0x017F
  else if (0x41 <=? r) && (r <=? 0x5A) then r + 0x20
  else if (0x61 <=? r) && (r <=? 0x7A) then r - 0x20
  else r.

Section Tables.
Context {tables : CaseTables}.

(** [unicode.ToLower(r)] *)
Definition ToLower (r : Z) : Z :=
  if r <=? MaxASCII then
    if (0x41 <=? r) && (r <=? 0x5A) then r + 0x20 else r
  else caseRanges_lower r.

(** [unicode.ToUpper(r)] *)
Definition ToUpper (r : Z) : Z :=
  if r <=? MaxASCII then
    if (0x61 <=? r) && (r <=? 0x7A) then r - 0x20 else r
  else caseRanges_upper r.

(** [unicode.SimpleFold(r)] *)
Definition SimpleFold (r : Z) : Z :=
  if (r <? 0) || (utf8.MaxRune <? r) then r
  else if r <=? MaxASCII then asciiFold r
  else
    match caseOrbit r with
    | Some to => to
    | None =>
        let l := ToLower r in
        if negb (l =? r) then l else ToUpper r
    end.

End Tables.
End unicode.

(** ** Package [strings] *)
Module strings.

(** [asciiSpace[c] != 0] *)
Definition asciiSpace (c : Z) : bool :=
  (c =? 0x09) || (c =? 0x0A) || (c =? 0x0B) || (c =? 0x0C) || (c =? 0x0D)
  || (c =? 0x20).

(** [indexFunc(s, f, truth)]: the byte offset of the first rune [r] of [s]
    with [f(r) == truth], or [-1]. *)
Definition indexFunc (s : string) (f : Z -> bool) (truth : bool) : Z :=
  match find (fun e => Bool.eqb (f (e.1.2)) truth) (utf8.range s) with
  | Some e => e.1.1
  | None => -1
  end.

(** The loop of [lastIndexFunc(s, f, truth)], from offset [i] backwards;
    every turn moves [i] back by at least one byte. *)
Fixpoint lastIndexFunc_loop (fuel : nat) (s : string) (f : Z -> bool)
    (truth : bool) (i : Z) : Z :=
  match fuel with
  | O => -1
  | S fuel' =>
      if 0 <? i then
        let '(r, size) := utf8.DecodeLastRuneInString (slice s 0 i) in
        let i := i - size in
        if Bool.eqb (f r) truth then i
        else lastIndexFunc_loop fuel' s f truth i
      else -1
  end.

Definition lastIndexFunc (s : string) (f : Z -> bool) (truth : bool) : Z :=
  lastIndexFunc_loop (String.length s) s f truth (len s).

(** [strings.TrimLeftFunc(s, f)] *)
Definition TrimLeftFunc (s : string) (f : Z -> bool) : string :=
  let i := indexFunc s f false in
  if i =? -1 then EmptyString else slice_from s i.

(** [strings.TrimRightFunc(s, f)] *)
Definition TrimRightFunc (s : string) (f : Z -> bool) : string :=
  let i := lastIndexFunc s f false in
  let i :=
    if (0 <=? i) && (utf8.RuneSelf <=? index s i) then
      i + (utf8.DecodeRuneInString (slice_from s i)).2
    else i + 1 in
  slice s 0 i.

(** [strings.TrimFunc(s, f)] *)
Definition TrimFunc (s : string) (f : Z -> bool) : string :=
  TrimRightFunc (TrimLeftFunc s f) f.

(** The first loop of [TrimSpace]: the offset [start] of the first byte
    that is not an ASCII space, or the offset of a non-ASCII byte met
    before it ([inr]), where [TrimSpace] falls back to [TrimFunc]. *)
Fixpoint trimSpace_start (s : string) (start : Z) : Z + Z :=
  match s with
  | EmptyString => inl start
  | String c s' =>
      if utf8.RuneSelf <=? byte_of c then inr start
      else if asciiSpace (byte_of c) then trimSpace_start s' (start + 1)
      else inl start
  end.

(** The second loop of [TrimSpace], from [stop] down to [start]. *)
Fixpoint trimSpace_stop (fuel : nat) (s : string) (start stop : Z) : Z + Z :=
  match fuel with
  | O => inl stop
  | S fuel' =>
      if start <? stop then
        let c := index s (stop - 1) in
        if utf8.RuneSelf <=? c then inr stop
        else if asciiSpace c then trimSpace_stop fuel' s start (stop - 1)
        else inl stop
      else inl stop
  end.

(** [strings.TrimSpace(s)]: [s] without leading and trailing white space,
    as defined by Unicode. *)
Definition TrimSpace (s : string) : string :=
  match trimSpace_start s 0 with
  | inr start => TrimFunc (slice_from s start) unicode.IsSpace
  | inl start =>
      match trimSpace_stop (String.length s) s start (len s) with
      | inr stop => TrimRightFunc (slice s start stop) unicode.IsSpace
      | inl stop => slice s start stop
      end
  end.

(** [strings.Map(mapping, s)]: the runes of [s] mapped and encoded again; a
    negative result drops the rune. *)
Definition Map (mapping : Z -> Z) (s : string) : string :=
  fold_right
    (fun e out =>
       let r := mapping (e.1.2) in
       if 0 <=? r then String.append (utf8.EncodeRune r) out else out)
    EmptyString (utf8.range s).

Definition isASCII (s : string) : bool :=
  forallb (fun c => byte_of c <? utf8.RuneSelf) (list_ascii_of_string s).

(** The ASCII branch of [ToLower]: every byte in [A-Z] lowered. *)
Fixpoint lowerASCII (s : string) : string :=
  match s with
  | EmptyString => EmptyString
  | String c s' =>
      let b := byte_of c in
      String (if (0x41 <=? b) && (b <=? 0x5A) then ascii_of (b + 0x20) else c)
             (lowerASCII s')
  end.

Section Tables.
Context {tables : CaseTables}.

(** [strings.ToLower(s)] *)
Definition ToLower (s : string) : string :=
  if isASCII s then lowerASCII s else Map unicode.ToLower s.

(** The loop [for r != sr && r < tr { r = unicode.SimpleFold(r) }] of
    [EqualFold].  A case orbit of Unicode has at most four runes, so the
    loop of the Go tables ends within four turns. *)
Fixpoint foldOrbit (fuel : nat) (sr tr r : Z) : Z :=
  match fuel with
  | O => r
  | S fuel' =>
      if negb (r =? sr) && (r <? tr) then
        foldOrbit fuel' sr tr (unicode.SimpleFold r)
      else r
  end.

(** One turn of the loops of [EqualFold] on the runes [sr] and [tr]:
    whether they are equal under simple case folding. *)
Definition foldEq (ascii_only : bool) (sr tr : Z) : bool :=
  if tr =? sr then true else
  let '(sr, tr) := if tr <? sr then (tr, sr) else (sr, tr) in
  if ascii_only || (tr <? utf8.RuneSelf) then
    (0x41 <=? sr) && (sr <=? 0x5A) && (tr =? sr + 0x20)
  else
    foldOrbit 8 sr tr (unicode.SimpleFold sr) =? tr.

(** The part of [EqualFold] after the label [hasUnicode]: [s] is ranged
    over by runes, [t] is decoded one rune at a time. *)
Fixpoint equalFold_unicode (rs : list (Z * Z * Z)) (t : string) : bool :=
  match rs with
  | [] => len t =? 0
  | e :: rs' =>
      if len t =? 0 then false else
      let '(tr, size) :=
        if index t 0 <? utf8.RuneSelf then (index t 0, 1)
        else utf8.DecodeRuneInString t in
      if foldEq false (e.1.2) tr then equalFold_unicode rs' (slice_from t size)
      else false
  end.

(** [strings.EqualFold(s, t)]: the ASCII fast path byte by byte, the general
    path from the first position where either byte is not ASCII. *)
Fixpoint EqualFold (s t : string) : bool :=
  match s, t with
  | String cs s', String ct t' =>
      let sr := byte_of cs in
      let tr := byte_of ct in
      if utf8.RuneSelf <=? Z.lor sr tr then equalFold_unicode (utf8.range s) t
      else if foldEq true sr tr then EqualFold s' t'
      else false
  | _, _ => len s =? len t
  end.

End Tables.
End strings.

(** ** Package [strconv] *)
Module strconv.

Inductive NumError := ErrSyntax | ErrRange.

Definition maxUint64 : Z := 2 ^ 64 - 1.

(** The digit loop of [ParseUint(s, 10, 64)] with the accumulator [n], a
    [uint64]: the products and sums wrap around as in Go, and the two
    overflow tests are those of the source. *)
Fixpoint parseUint_loop (s : string) (n : Z) : Z * option NumError :=
  match s with
  | EmptyString => (n, None)
  | String ch s' =>
      let c := byte_of ch in
      let lower := Z.lor c 0x20 in
      let d :=
        if (0x30 <=? c) && (c <=? 0x39) then Some (c - 0x30)
        else if (0x61 <=? lower) && (lower <=? 0x7A) then Some (lower - 0x61 + 10)
        else None in
      match d with
      | None => (0, Some ErrSyntax)
      | Some d =>
          if d >=? 10 then (0, Some ErrSyntax)
          else
            let cutoff := maxUint64 / 10 + 1 in
            if n >=? cutoff then (maxUint64, Some ErrRange)
            else
              let n := (n * 10) mod 2 ^ 64 in
              let n1 := (n + d) mod 2 ^ 64 in
              if (n1 <? n) || (maxUint64 <? n1) then (maxUint64, Some ErrRange)
              else parseUint_loop s' n1
      end
  end.

(** [strconv.ParseUint(s, 10, 64)] *)
Definition ParseUint (s : string) : Z * option NumError :=
  if string_eqb s EmptyString then (0, Some ErrSyntax)
  else parseUint_loop s 0.

(** [strconv.ParseInt(s, 10, 64)] *)
Definition ParseInt (s : string) : Z * option NumError :=
  match s with
  | EmptyString => (0, Some ErrSyntax)
  | String c0 rest =>
      let '(neg, s') :=
        if byte_of c0 =? 0x2B then (false, rest)
        else if byte_of c0 =? 0x2D then (true, rest)
        else (false, s) in
      let '(un, err) := ParseUint s' in
      match err with
      | Some ErrSyntax => (0, Some ErrSyntax)
      | _ =>
          let cutoff := 2 ^ 63 in
          if negb neg && (un >=? cutoff) then (cutoff - 1, Some ErrRange)
          else if neg && (cutoff <? un) then (- cutoff, Some ErrRange)
          else (if neg then - un else un, None)
      end
  end.

(** The digit loop of [formatBits] in base 10: the decimal digits of [u],
    least significant first, written in front of [acc].  A [uint64] has at
    most 20 digits. *)
Fixpoint formatBits (fuel : nat) (u : Z) (acc : string) : string :=
  match fuel with
  | O => acc
  | S fuel' =>
      if u >=? 10 then
        formatBits fuel' (u / 10) (String (ascii_of (u mod 10 + 0x30)) acc)
      else String (ascii_of (u + 0x30)) acc
  end.

(** [strconv.FormatInt(i, 10)] for an [int64] [i] *)
Definition FormatInt (i : Z) : string :=
  if i <? 0 then String "-"%char (formatBits 20 (- i) EmptyString)
  else formatBits 20 i EmptyString.

End strconv.

(** ** Errors

    The error values of the store.  A message built by [errors.New] or by
    [fmt.Errorf] without [%w] is a constructor of its own, named after the
    text; [fmt.Errorf("op: %w", err)] wraps [err] under the operation's
    name. *)
Inductive error :=
  (** [*sqlite.Error] of the driver, with its extended result code *)
  | SqliteError (code : Z)
  (** any other failure of the driver (I/O, a closed handle) *)
  | DriverError (text : string)
  (** [sql.ErrNoRows] *)
  | ErrNoRows
  (** [*strconv.NumError] *)
  | NumError (e : strconv.NumError)
  (** [fmt.Errorf(op + ": %w", err)] *)
  | Wrapped (op : string) (err : error)
  (** "group name must not be empty" *)
  | ErrGroupNameEmpty
  (** "group name too long (at most %d characters)" *)
  | ErrGroupNameTooLong (max : Z)
  (** "group name already exists" *)
  | ErrGroupNameExists
  (** "group does not exist (id=%d)" *)
  | ErrGroupNotFound (id : Z)
  (** "invalid group ID" *)
  | ErrInvalidGroupID
  (** "please select a group" *)
  | ErrSelectGroup
  (** "task title must not be empty" *)
  | ErrTaskTitleEmpty
  (** "task title too long (at most %d characters)" *)
  | ErrTaskTitleTooLong (max : Z)
  (** "task content too long (at most %d characters)" *)
  | ErrTaskContentTooLong (max : Z)
  (** "invalid task status: %q" *)
  | ErrInvalidStatus (s : string)
  (** "task does not exist (id=%d)" *)
  | ErrTaskNotFound (id : Z)
  (** "invalid task ID" *)
  | ErrInvalidTaskID.

(** The result of a Go function returning [(A, error)]. *)
Inductive result (A : Type) :=
  | Ok (a : A)
  | Err (e : error).
Arguments Ok {A} a.
Arguments Err {A} e.

Module errors.

(** [errors.As(err, &se)] for [se *sqlite.Error]: the first SQLite error in
    the chain of [err], as its result code. *)
Fixpoint As_sqlite (err : error) : option Z :=
  match err with
  | SqliteError code => Some code
  | Wrapped _ inner => As_sqlite inner
  | _ => None
  end.

End errors.

(** Result codes of [modernc.org/sqlite/lib]. *)
Module sqlitelib.
Definition SQLITE_CONSTRAINT : Z := 19.
Definition SQLITE_CONSTRAINT_CHECK : Z := 275.
Definition SQLITE_CONSTRAINT_FOREIGNKEY : Z := 787.
Definition SQLITE_CONSTRAINT_NOTNULL : Z := 1299.
Definition SQLITE_CONSTRAINT_PRIMARYKEY : Z := 1555.
Definition SQLITE_CONSTRAINT_UNIQUE : Z := 2067.
End sqlitelib.

(** ** Data model ([models.go]) *)

(** [type Status string] *)
Definition Status := string.
Definition StatusTodo : Status := "todo".
Definition StatusDoing : Status := "doing".
Definition StatusDone : Status := "done".

(** [ParseStatus(s)] *)
Definition ParseStatus (s : string) : result Status :=
  if string_eqb s StatusTodo || string_eqb s StatusDoing || string_eqb s StatusDone
  then Ok s
  else Err (ErrInvalidStatus s).

Module Group.
Record t := mk {
  ID : Z;
  Name : string;
  CreatedAt : Z;
  UpdatedAt : Z;
}.
(** [Group{}] *)
Definition zero : t := mk 0 "" 0 0.
End Group.

Module Task.
Record t := mk {
  ID : Z;
  GroupID : Z;
  Title : string;
  Content : string;
  Status : Status;
  Important : bool;
  Urgent : bool;
  CreatedAt : Z;
  UpdatedAt : Z;
}.
(** [Task{}] *)
Definition zero : t := mk 0 0 "" "" "" false false 0 0.
End Task.

Module Settings.
Record t := mk {
  HideDone : bool;
  AlwaysOnTop : bool;
  ViewMode : string;
  ConciseMode : bool;
  Theme : string;
}.
(** [Settings{}] *)
Definition zero : t := mk false false "" false "".
End Settings.

(** ** The database handle

    The store reaches the database through [*sql.DB] only: [ExecContext] for
    the writes, [QueryContext] and [QueryRowContext] for the reads.  The
    statements are those of [store.go], with their bound arguments. *)

(** A row of [groups] and of [tasks] without its [id] column. *)
Record GroupRow := {
  gr_name : string;
  gr_created_at : Z;
  gr_updated_at : Z;
}.

Record TaskRow := {
  tr_group_id : Z;
  tr_title : string;
  tr_content : string;
  tr_status : string;
  tr_important : Z;
  tr_urgent : Z;
  tr_created_at : Z;
  tr_updated_at : Z;
}.

Inductive Stmt :=
  (** [INSERT INTO groups(name, created_at, updated_at) VALUES(?, ?, ?)] *)
  | InsertGroup (name : string) (created_at updated_at : Z)
  (** [UPDATE groups SET name = ?, updated_at = ? WHERE id = ?] *)
  | UpdateGroup (name : string) (updated_at id : Z)
  (** [DELETE FROM groups WHERE id = ?] *)
  | DeleteGroupWhere (id : Z)
  (** [INSERT INTO tasks(group_id, title, content, status, important,
      urgent, created_at, updated_at) VALUES(?, ?, ?, ?, ?, ?, ?, ?)] *)
  | InsertTask (row : TaskRow)
  (** [UPDATE tasks SET group_id = ?, title = ?, content = ?, status = ?,
      important = ?, urgent = ?, updated_at = ? WHERE id = ?]; the
      [tr_created_at] of [row] is not bound *)
  | UpdateTask (row : TaskRow) (id : Z)
  (** [DELETE FROM tasks WHERE id = ?] *)
  | DeleteTaskWhere (id : Z)
  (** [INSERT OR IGNORE INTO settings(key, value) VALUES(?, ?)] *)
  | InsertOrIgnoreSetting (key value : string)
  (** [INSERT INTO settings(key, value) VALUES(?, ?)
      ON CONFLICT(key) DO UPDATE SET value = excluded.value] *)
  | UpsertSetting (key value : string).

(** A query, indexed by what its rows scan into.  A single-row query
    ([QueryRowContext(...).Scan]) fails with [sql.ErrNoRows] on no row. *)
Inductive Query : Type -> Type :=
  (** [SELECT COUNT(1) FROM groups] *)
  | CountGroups : Query Z
  (** [SELECT id, name, created_at, updated_at FROM groups ORDER BY id] *)
  | SelectGroups : Query (list (Z * GroupRow))
  (** [SELECT id, name, created_at, updated_at FROM groups WHERE id = ?] *)
  | SelectGroupWhere (id : Z) : Query (Z * GroupRow)
  (** [SELECT id FROM groups WHERE id = ?] *)
  | SelectGroupIdWhere (id : Z) : Query Z
  (** [SELECT id, group_id, ..., updated_at FROM tasks
      ORDER BY updated_at DESC, id DESC] *)
  | SelectTasks : Query (list (Z * TaskRow))
  (** [SELECT id, group_id, ..., updated_at FROM tasks WHERE id = ?] *)
  | SelectTaskWhere (id : Z) : Query (Z * TaskRow)
  (** [SELECT key, value FROM settings] *)
  | SelectSettings : Query (list (string * string))
  (** [SELECT value FROM settings WHERE key = ?] *)
  | SelectSettingValue (key : string) : Query string.

(** [sql.Result]: for this driver neither accessor fails. *)
Record ExecResult := {
  LastInsertId : Z;
  RowsAffected : Z;
}.

Class SqlDB (D : Type) := {
  ExecContext : Stmt -> D -> result ExecResult * D;
  QueryContext : forall {R : Type}, Query R -> D -> result R;
}.

(** ** The relational model of the SQLite database

    The three tables of [migrate], keyed by their primary keys, and the
    [sqlite_sequence] counters of the two AUTOINCREMENT tables.  The
    connection has [foreign_keys = ON] ([applyPragmas]).  Row ids are
    unbounded integers: the model leaves out the exhaustion of the 63-bit
    id space, and failures of the file system. *)
Record DB := {
  groups : gmap Z GroupRow;
  groups_seq : Z;
  tasks : gmap Z TaskRow;
  tasks_seq : Z;
  settings : gmap string string;
}.

(** The database right after [migrate] on a new file: no rows. *)
Definition empty_db : DB :=
  {| groups := ∅; groups_seq := 0; tasks := ∅; tasks_seq := 0; settings := ∅ |}.

Module sqlite.

(** The largest row id of a table, [0] for the empty table. *)
Definition max_rowid {A} (m : gmap Z A) : Z :=
  map_fold (fun k _ acc => Z.max k acc) 0 m.

(** The row id AUTOINCREMENT gives the next row: one more than the largest
    id the table ever held. *)
Definition next_rowid {A} (m : gmap Z A) (seq : Z) : Z :=
  Z.max seq (max_rowid m) + 1.

(** UNIQUE(name): a row other than [self] holds [name]. *)
Definition name_taken (name : string) (self : option Z) (g : gmap Z GroupRow) : Prop :=
  map_Exists (fun k r => Some k ≠ self ∧ gr_name r = name) g.

(** The CHECK constraints of [tasks]. *)
Definition check_task (row : TaskRow) : bool :=
  (string_eqb (tr_status row) "todo" || string_eqb (tr_status row) "doing"
   || string_eqb (tr_status row) "done")
  && ((tr_important row =? 0) || (tr_important row =? 1))
  && ((tr_urgent row =? 0) || (tr_urgent row =? 1)).

Definition constraint_failed (code : Z) (db : DB) : result ExecResult * DB :=
  (Err (SqliteError code), db).

Definition done (last_id affected : Z) (db : DB) : result ExecResult * DB :=
  (Ok {| LastInsertId := last_id; RowsAffected := affected |}, db).

(** [LastInsertId] of a statement that inserts nothing is never read by the
    store; the model reports 0. *)
Definition exec (stmt : Stmt) (db : DB) : result ExecResult * DB :=
  match stmt with
  | InsertGroup name created updated =>
      if decide (name_taken name None (groups db)) then
        constraint_failed sqlitelib.SQLITE_CONSTRAINT_UNIQUE db
      else
        let id := next_rowid (groups db) (groups_seq db) in
        let row := {| gr_name := name; gr_created_at := created;
                      gr_updated_at := updated |} in
        done id 1 {| groups := <[id := row]> (groups db); groups_seq := id;
                     tasks := tasks db; tasks_seq := tasks_seq db;
                     settings := settings db |}
  | UpdateGroup name updated id =>
      match groups db !! id with
      | None => done 0 0 db
      | Some old =>
          if decide (name_taken name (Some id) (groups db)) then
            constraint_failed sqlitelib.SQLITE_CONSTRAINT_UNIQUE db
          else
            let row := {| gr_name := name; gr_created_at := gr_created_at old;
                          gr_updated_at := updated |} in
            done 0 1 {| groups := <[id := row]> (groups db);
                        groups_seq := groups_seq db;
                        tasks := tasks db; tasks_seq := tasks_seq db;
                        settings := settings db |}
      end
  | DeleteGroupWhere id =>
      match groups db !! id with
      | None => done 0 0 db
      | Some _ =>
          (* ON DELETE CASCADE: the tasks of the group go with it *)
          done 0 1 {| groups := delete id (groups db);
                      groups_seq := groups_seq db;
                      tasks := filter (fun kv => tr_group_id kv.2 ≠ id) (tasks db);
                      tasks_seq := tasks_seq db;
                      settings := settings db |}
      end
  | InsertTask row =>
      if negb (check_task row) then
        constraint_failed sqlitelib.SQLITE_CONSTRAINT_CHECK db
      else if decide (groups db !! tr_group_id row = None) then
        constraint_failed sqlitelib.SQLITE_CONSTRAINT_FOREIGNKEY db
      else
        let id := next_rowid (tasks db) (tasks_seq db) in
        done id 1 {| groups := groups db; groups_seq := groups_seq db;
                     tasks := <[id := row]> (tasks db); tasks_seq := id;
                     settings := settings db |}
  | UpdateTask row id =>
      match tasks db !! id with
      | None => done 0 0 db
      | Some old =>
          if negb (check_task row) then
            constraint_failed sqlitelib.SQLITE_CONSTRAINT_CHECK db
          else if decide (groups db !! tr_group_id row = None) then
            constraint_failed sqlitelib.SQLITE_CONSTRAINT_FOREIGNKEY db
          else
            let row :=
              {| tr_group_id := tr_group_id row; tr_title := tr_title row;
                 tr_content := tr_content row; tr_status := tr_status row;
                 tr_important := tr_important row; tr_urgent := tr_urgent row;
                 tr_created_at := tr_created_at old;
                 tr_updated_at := tr_updated_at row |} in
            done 0 1 {| groups := groups db; groups_seq := groups_seq db;
                        tasks := <[id := row]> (tasks db);
                        tasks_seq := tasks_seq db;
                        settings := settings db |}
      end
  | DeleteTaskWhere id =>
      match tasks db !! id with
      | None => done 0 0 db
      | Some _ =>
          done 0 1 {| groups := groups db; groups_seq := groups_seq db;
                      tasks := delete id (tasks db); tasks_seq := tasks_seq db;
                      settings := settings db |}
      end
  | InsertOrIgnoreSetting key value =>
      match settings db !! key with
      | Some _ => done 0 0 db
      | None =>
          done 0 1 {| groups := groups db; groups_seq := groups_seq db;
                      tasks := tasks db; tasks_seq := tasks_seq db;
                      settings := <[key := value]> (settings db) |}
      end
  | UpsertSetting key value =>
      done 0 1 {| groups := groups db; groups_seq := groups_seq db;
                  tasks := tasks db; tasks_seq := tasks_seq db;
                  settings := <[key := value]> (settings db) |}
  end.

(** [ORDER BY id] *)
Definition by_id {A} (a b : Z * A) : Prop := a.1 <= b.1.

(** [ORDER BY updated_at DESC, id DESC] *)
Definition by_updated_desc (a b : Z * TaskRow) : Prop :=
  tr_updated_at b.2 < tr_updated_at a.2
  ∨ (tr_updated_at a.2 = tr_updated_at b.2 ∧ b.1 <= a.1).

#[export] Instance by_id_dec {A} : RelDecision (@by_id A) :=
  fun a b => decide (a.1 <= b.1).

#[export] Instance by_updated_desc_dec : RelDecision by_updated_desc :=
  fun a b => decide (tr_updated_at b.2 < tr_updated_at a.2
                     ∨ (tr_updated_at a.2 = tr_updated_at b.2 ∧ b.1 <= a.1)).

Definition one_row {A} (row : option A) : result A :=
  match row with
  | Some r => Ok r
  | None => Err ErrNoRows
  end.

Definition query {R : Type} (q : Query R) (db : DB) : result R :=
  match q in Query R return result R with
  | CountGroups => Ok (Z.of_nat (size (groups db)))
  | SelectGroups => Ok (merge_sort by_id (map_to_list (groups db)))
  | SelectGroupWhere id => one_row ((fun r => (id, r)) <$> groups db !! id)
  | SelectGroupIdWhere id => one_row ((fun _ => id) <$> groups db !! id)
  | SelectTasks => Ok (merge_sort by_updated_desc (map_to_list (tasks db)))
  | SelectTaskWhere id => one_row ((fun r => (id, r)) <$> tasks db !! id)
  | SelectSettings => Ok (map_to_list (settings db))
  | SelectSettingValue key => one_row (settings db !! key)
  end.

End sqlite.

#[export] Instance sqlite_db : SqlDB DB :=
  {| ExecContext := sqlite.exec; QueryContext := @sqlite.query |}.

(** ** The store ([store.go]) *)

Definition string_of_bytes (l : list Z) : string :=
  fold_right (fun b s => String (ascii_of b) s) EmptyString l.

Module errors_Is.
(** [errors.Is(err, sql.ErrNoRows)] *)
Fixpoint ErrNoRows (err : error) : bool :=
  match err with
  | ErrNoRows => true
  | Wrapped _ inner => ErrNoRows inner
  | _ => false
  end.
End errors_Is.

(** The limits count runes, not bytes. *)
Definition maxGroupNameRunes : Z := 50.
Definition maxTaskTitleRunes : Z := 200.
Definition maxTaskContentRunes : Z := 1000.
Definition maxViewModeRunes : Z := 20.

(** [boolTo01(b)] *)
Definition boolTo01 (b : bool) : string := if b then "1" else "0".

(** [boolTo01Int(b)] *)
Definition boolTo01Int (b : bool) : Z := if b then 1 else 0.

(** [sqliteIsConstraint(err, code)] *)
Definition sqliteIsConstraint (err : error) (code : Z) : bool :=
  match errors.As_sqlite err with
  | Some c => c =? code
  | None => false
  end.

Section Store.
Context {tables : CaseTables}.

(** [normalizeViewMode(v)] *)
Definition normalizeViewMode (v : string) : string :=
  let v := strings.TrimSpace (strings.ToLower v) in
  if maxViewModeRunes <? utf8.RuneCountInString v then "cards"
  else if string_eqb v "list" || string_eqb v "cards" then v
  else "cards".

Context {D : Type} {db : SqlDB D}.

(** The name of the default group, two CJK runes in UTF-8. *)
Definition defaultName : string :=
  string_of_bytes [0xE9; 0xBB; 0x98; 0xE8; 0xAE; 0xA4].

(** [Store.ensureDefaultGroup]; [now] is the reading of
    [time.Now().UnixMilli()]. *)
Definition ensureDefaultGroup (now : Z) (s : D) : result unit * D :=
  match QueryContext CountGroups s with
  | Err err => (Err (Wrapped "count groups" err), s)
  | Ok count =>
      if 0 <? count then (Ok tt, s)
      else
        match ExecContext (InsertGroup defaultName now now) s with
        | (Err err, s) => (Err (Wrapped "create default group" err), s)
        | (Ok _, s) => (Ok tt, s)
        end
  end.

(** The map [defaults] of [ensureDefaultSettings]. *)
Definition defaults : list (string * string) :=
  [("alwaysOnTop", "1"); ("hideDone", "0"); ("viewMode", "cards");
   ("conciseMode", "0")].

(** The loop of [ensureDefaultSettings] over the entries [kvs] of the map,
    in the order the iteration visits them (Go leaves it unspecified). *)
Fixpoint ensureDefaultSettings_range (kvs : list (string * string)) (s : D)
    : result unit * D :=
  match kvs with
  | [] => (Ok tt, s)
  | (k, v) :: kvs' =>
      match ExecContext (InsertOrIgnoreSetting k v) s with
      | (Err err, s) => (Err (Wrapped ("init settings " +:+ k) err), s)
      | (Ok _, s) => ensureDefaultSettings_range kvs' s
      end
  end.

(** [Store.ensureDefaultSettings] *)
Definition ensureDefaultSettings (s : D) : result unit * D :=
  ensureDefaultSettings_range defaults s.

(** The two bootstrap steps of [Open], after [migrate]: the default
    settings, then the default group. *)
Definition ensureDefaults (now : Z) (s : D) : result unit * D :=
  match ensureDefaultSettings s with
  | (Err err, s) => (Err err, s)
  | (Ok _, s) => ensureDefaultGroup now s
  end.

Definition scanGroup (row : Z * GroupRow) : Group.t :=
  Group.mk row.1 (gr_name row.2) (gr_created_at row.2) (gr_updated_at row.2).

(** [Store.ListGroups] *)
Definition ListGroups (s : D) : result (list Group.t) :=
  match QueryContext SelectGroups s with
  | Err err => Err (Wrapped "list groups" err)
  | Ok rows => Ok (map scanGroup rows)
  end.

(** [Store.UpsertGroup] *)
Definition UpsertGroup (now : Z) (id : Z) (name : string) (s : D)
    : result Group.t * D :=
  let name := strings.TrimSpace name in
  if string_eqb name "" then (Err ErrGroupNameEmpty, s) else
  if maxGroupNameRunes <? utf8.RuneCountInString name then
    (Err (ErrGroupNameTooLong maxGroupNameRunes), s)
  else
  if id =? 0 then
    match ExecContext (InsertGroup name now now) s with
    | (Err err, s) =>
        if sqliteIsConstraint err sqlitelib.SQLITE_CONSTRAINT_UNIQUE then
          (Err ErrGroupNameExists, s)
        else (Err (Wrapped "create group" err), s)
    | (Ok res, s) => (Ok (Group.mk (LastInsertId res) name now now), s)
    end
  else
    match ExecContext (UpdateGroup name now id) s with
    | (Err err, s) =>
        if sqliteIsConstraint err sqlitelib.SQLITE_CONSTRAINT_UNIQUE then
          (Err ErrGroupNameExists, s)
        else (Err (Wrapped "update group" err), s)
    | (Ok res, s) =>
        if RowsAffected res =? 0 then (Err (ErrGroupNotFound id), s)
        else
          match QueryContext (SelectGroupWhere id) s with
          | Err err => (Err (Wrapped "reload group" err), s)
          | Ok row => (Ok (scanGroup row), s)
          end
    end.

(** [Store.DeleteGroup] *)
Definition DeleteGroup (id : Z) (s : D) : result unit * D :=
  if id <=? 0 then (Err ErrInvalidGroupID, s) else
  match ExecContext (DeleteGroupWhere id) s with
  | (Err err, s) => (Err (Wrapped "delete group" err), s)
  | (Ok res, s) =>
      if RowsAffected res =? 0 then (Err (ErrGroupNotFound id), s)
      else (Ok tt, s)
  end.

(** The body of the row loops of [ListTasks] and of the reload in
    [UpsertTask]: the scanned columns as a [Task]. *)
Definition scanTask (row : Z * TaskRow) : result Task.t :=
  match ParseStatus (tr_status row.2) with
  | Err err => Err (Wrapped "parse task status" err)
  | Ok parsed =>
      Ok (Task.mk row.1 (tr_group_id row.2) (tr_title row.2)
            (tr_content row.2) parsed
            (tr_important row.2 =? 1) (tr_urgent row.2 =? 1)
            (tr_created_at row.2) (tr_updated_at row.2))
  end.

Fixpoint scanTasks (rows : list (Z * TaskRow)) : result (list Task.t) :=
  match rows with
  | [] => Ok []
  | row :: rows' =>
      match scanTask row with
      | Err err => Err err
      | Ok t =>
          match scanTasks rows' with
          | Err err => Err err
          | Ok out => Ok (t :: out)
          end
      end
  end.

(** [Store.ListTasks] *)
Definition ListTasks (s : D) : result (list Task.t) :=
  match QueryContext SelectTasks s with
  | Err err => Err (Wrapped "list tasks" err)
  | Ok rows => scanTasks rows
  end.

(** [Store.groupExists] *)
Definition groupExists (groupID : Z) (s : D) : result bool :=
  match QueryContext (SelectGroupIdWhere groupID) s with
  | Err err =>
      if errors_Is.ErrNoRows err then Ok false
      else Err (Wrapped "check group exists" err)
  | Ok _ => Ok true
  end.

(** The bound arguments of the two task statements. *)
Definition taskArgs (req : Task.t) (now : Z) : TaskRow :=
  {| tr_group_id := Task.GroupID req; tr_title := Task.Title req;
     tr_content := Task.Content req; tr_status := Task.Status req;
     tr_important := boolTo01Int (Task.Important req);
     tr_urgent := boolTo01Int (Task.Urgent req);
     tr_created_at := now; tr_updated_at := now |}.

(** [Store.UpsertTask] *)
Definition UpsertTask (now : Z) (req : Task.t) (s : D) : result Task.t * D :=
  let req :=
    Task.mk (Task.ID req) (Task.GroupID req)
      (strings.TrimSpace (Task.Title req))
      (strings.TrimSpace (Task.Content req))
      (Task.Status req) (Task.Important req) (Task.Urgent req)
      (Task.CreatedAt req) (Task.UpdatedAt req) in
  if Task.GroupID req <=? 0 then (Err ErrSelectGroup, s) else
  match groupExists (Task.GroupID req) s with
  | Err err => (Err err, s)
  | Ok ok =>
  if negb ok then (Err (ErrGroupNotFound (Task.GroupID req)), s) else
  if string_eqb (Task.Title req) "" then (Err ErrTaskTitleEmpty, s) else
  if maxTaskTitleRunes <? utf8.RuneCountInString (Task.Title req) then
    (Err (ErrTaskTitleTooLong maxTaskTitleRunes), s)
  else
  if maxTaskContentRunes <? utf8.RuneCountInString (Task.Content req) then
    (Err (ErrTaskContentTooLong maxTaskContentRunes), s)
  else
  match ParseStatus (Task.Status req) with
  | Err err => (Err err, s)
  | Ok _ =>
  if Task.ID req =? 0 then
    match ExecContext (InsertTask (taskArgs req now)) s with
    | (Err err, s) => (Err (Wrapped "create task" err), s)
    | (Ok res, s) =>
        (Ok (Task.mk (LastInsertId res) (Task.GroupID req) (Task.Title req)
               (Task.Content req) (Task.Status req) (Task.Important req)
               (Task.Urgent req) now now), s)
    end
  else
    match ExecContext (UpdateTask (taskArgs req now) (Task.ID req)) s with
    | (Err err, s) => (Err (Wrapped "update task" err), s)
    | (Ok res, s) =>
        if RowsAffected res =? 0 then (Err (ErrTaskNotFound (Task.ID req)), s)
        else
          match QueryContext (SelectTaskWhere (Task.ID req)) s with
          | Err err => (Err (Wrapped "reload task" err), s)
          | Ok row =>
              match scanTask row with
              | Err err => (Err err, s)
              | Ok t => (Ok t, s)
              end
          end
    end
  end
  end.

(** [Store.DeleteTask] *)
Definition DeleteTask (id : Z) (s : D) : result unit * D :=
  if id <=? 0 then (Err ErrInvalidTaskID, s) else
  match ExecContext (DeleteTaskWhere id) s with
  | (Err err, s) => (Err (Wrapped "delete task" err), s)
  | (Ok res, s) =>
      if RowsAffected res =? 0 then (Err (ErrTaskNotFound id), s)
      else (Ok tt, s)
  end.

(** The [value == "1" || strings.EqualFold(value, "true")] of [GetSettings]. *)
Definition settingIsTrue (value : string) : bool :=
  string_eqb value "1" || strings.EqualFold value "true".

(** The body of the row loop of [GetSettings]: the [switch key]. *)
Definition scanSetting (settings : Settings.t) (row : string * string)
    : Settings.t :=
  let '(key, value) := row in
  if string_eqb key "alwaysOnTop" then
    Settings.mk (Settings.HideDone settings) (settingIsTrue value)
      (Settings.ViewMode settings) (Settings.ConciseMode settings)
      (Settings.Theme settings)
  else if string_eqb key "hideDone" then
    Settings.mk (settingIsTrue value) (Settings.AlwaysOnTop settings)
      (Settings.ViewMode settings) (Settings.ConciseMode settings)
      (Settings.Theme settings)
  else if string_eqb key "viewMode" then
    Settings.mk (Settings.HideDone settings) (Settings.AlwaysOnTop settings)
      (normalizeViewMode value) (Settings.ConciseMode settings)
      (Settings.Theme settings)
  else if string_eqb key "conciseMode" then
    Settings.mk (Settings.HideDone settings) (Settings.AlwaysOnTop settings)
      (Settings.ViewMode settings) (settingIsTrue value)
      (Settings.Theme settings)
  else settings.

(** [Store.GetSettings] *)
Definition GetSettings (s : D) : result Settings.t :=
  let settings := Settings.mk false true "cards" false "" in
  match QueryContext SelectSettings s with
  | Err err => Err (Wrapped "list settings" err)
  | Ok rows => Ok (fold_left scanSetting rows settings)
  end.

(** [Store.setSetting] *)
Definition setSetting (key value : string) (s : D) : result unit * D :=
  match ExecContext (UpsertSetting key value) s with
  | (Err err, s) => (Err (Wrapped ("set setting " +:+ key) err), s)
  | (Ok _, s) => (Ok tt, s)
  end.

(** [Store.SetSettings] *)
Definition SetSettings (settings : Settings.t) (s : D) : result unit * D :=
  match setSetting "alwaysOnTop" (boolTo01 (Settings.AlwaysOnTop settings)) s with
  | (Err err, s) => (Err err, s)
  | (Ok _, s) =>
  match setSetting "hideDone" (boolTo01 (Settings.HideDone settings)) s with
  | (Err err, s) => (Err err, s)
  | (Ok _, s) =>
  match setSetting "viewMode" (normalizeViewMode (Settings.ViewMode settings)) s with
  | (Err err, s) => (Err err, s)
  | (Ok _, s) =>
  match setSetting "conciseMode" (boolTo01 (Settings.ConciseMode settings)) s with
  | (Err err, s) => (Err err, s)
  | (Ok _, s) => (Ok tt, s)
  end end end end.

(** [Store.GetLastWaterReminderAt] *)
Definition GetLastWaterReminderAt (s : D) : result Z :=
  match QueryContext (SelectSettingValue "lastWaterReminderAt") s with
  | Err err =>
      if errors_Is.ErrNoRows err then Ok 0
      else Err (Wrapped "get lastWaterReminderAt" err)
  | Ok value =>
      let value := strings.TrimSpace value in
      if string_eqb value "" then Ok 0 else
      match strconv.ParseInt value with
      | (_, Some e) => Err (Wrapped "parse lastWaterReminderAt" (NumError e))
      | (ts, None) => if ts <=? 0 then Ok 0 else Ok ts
      end
  end.

(** [Store.SetLastWaterReminderAt] *)
Definition SetLastWaterReminderAt (unixMilli : Z) (s : D) : result unit * D :=
  let unixMilli := if unixMilli <=? 0 then 0 else unixMilli in
  setSetting "lastWaterReminderAt" (strconv.FormatInt unixMilli) s.

End Store.

(** ** The schema of the database file ([Store.migrate])

    [migrate] and [ensureTasksColumns] reach the file through data
    definition statements and [PRAGMA table_info].  The statements are
    those of [store.go], by the name of what they define and the names of
    the columns: the types and constraints of the columns play no part in
    whether a statement of [migrate] succeeds. *)

Inductive DDL :=
  (** [CREATE TABLE IF NOT EXISTS table (columns...)] *)
  | CreateTableIfNotExists (table : string) (columns : list string)
  (** [CREATE INDEX IF NOT EXISTS name ON table(columns...)] *)
  | CreateIndexIfNotExists (name table : string) (columns : list string)
  (** [ALTER TABLE table ADD COLUMN column ...] *)
  | AlterTableAddColumn (table column : string).

Class SchemaDB (S : Type) := {
  ExecDDL : DDL -> S -> result unit * S;
  (** [PRAGMA table_info(table)], scanned: the [name] of every row *)
  TableInfo : string -> S -> result (list string);
}.

(** The tables and indexes of a file, by name.  SQLite compares the names
    of tables, indexes and columns without regard to the case of ASCII
    letters: the maps are keyed by the lower-cased name, and a table keeps
    the names of its columns as they were written.  The model leaves out
    views, triggers and the columns [table_info] hides, and failures of
    the file system. *)
Record Schema := {
  schema_tables : gmap string (list string);
  schema_indexes : gmap string (string * list string);
}.

(** The schema of a new file. *)
Definition empty_schema : Schema := {| schema_tables := ∅; schema_indexes := ∅ |}.

Module sqlite_schema.

(** [SQLITE_ERROR], the result code of a statement that cannot be
    prepared. *)
Definition SQLITE_ERROR : Z := 1.

(** The name as SQLite compares it. *)
Definition fold (name : string) : string := strings.lowerASCII name.

(** The table has a column of this name. *)
Definition has_column (columns : list string) (column : string) : bool :=
  existsb (fun c => string_eqb (fold c) (fold column)) columns.

Definition failed (s : Schema) : result unit * Schema :=
  (Err (SqliteError SQLITE_ERROR), s).

Definition set_table (s : Schema) (table : string) (columns : list string)
    : Schema :=
  {| schema_tables := <[fold table := columns]> (schema_tables s);
     schema_indexes := schema_indexes s |}.

Definition set_index (s : Schema) (name table : string)
    (columns : list string) : Schema :=
  {| schema_tables := schema_tables s;
     schema_indexes := <[fold name := (fold table, columns)]>
                         (schema_indexes s) |}.

Definition exec (stmt : DDL) (s : Schema) : result unit * Schema :=
  match stmt with
  | CreateTableIfNotExists table columns =>
      match schema_tables s !! fold table with
      | Some _ => (Ok tt, s)
      | None =>
          match schema_indexes s !! fold table with
          (* there is already an index named ... *)
          | Some _ => failed s
          | None => (Ok tt, set_table s table columns)
          end
      end
  | CreateIndexIfNotExists name table columns =>
      match schema_tables s !! fold table with
      (* no such table *)
      | None => failed s
      | Some has =>
          match schema_tables s !! fold name with
          (* there is already a table named ... *)
          | Some _ => failed s
          | None =>
              match schema_indexes s !! fold name with
              | Some _ => (Ok tt, s)
              | None =>
                  if forallb (has_column has) columns
                  then (Ok tt, set_index s name table columns)
                  (* table ... has no column named ... *)
                  else failed s
              end
          end
      end
  | AlterTableAddColumn table column =>
      match schema_tables s !! fold table with
      (* no such table *)
      | None => failed s
      | Some has =>
          (* duplicate column name *)
          if has_column has column then failed s
          else (Ok tt, set_table s table (has ++ [column]))
      end
  end.

(** No row for a table that does not exist. *)
Definition table_info (table : string) (s : Schema) : result (list string) :=
  Ok (default [] (schema_tables s !! fold table)).

End sqlite_schema.

#[export] Instance sqlite_schema_db : SchemaDB Schema :=
  {| ExecDDL := sqlite_schema.exec; TableInfo := sqlite_schema.table_info |}.

Section Migrate.
Context {S : Type} {schema : SchemaDB S}.

(** The slice [stmts] of [migrate]. *)
Definition stmts : list DDL :=
  [CreateTableIfNotExists "groups"
     ["id"; "name"; "created_at"; "updated_at"];
   CreateTableIfNotExists "tasks"
     ["id"; "group_id"; "title"; "content"; "status"; "important"; "urgent";
      "created_at"; "updated_at"];
   CreateIndexIfNotExists "idx_tasks_group_status" "tasks"
     ["group_id"; "status"];
   CreateTableIfNotExists "settings" ["key"; "value"]].

(** The loop of [migrate] over [stmts]. *)
Fixpoint migrate_range (stmts : list DDL) (s : S) : result unit * S :=
  match stmts with
  | [] => (Ok tt, s)
  | stmt :: stmts' =>
      match ExecDDL stmt s with
      | (Err err, s) => (Err (Wrapped "migrate" err), s)
      | (Ok _, s) => migrate_range stmts' s
      end
  end.

(** [Store.ensureTasksColumns]; [cols[name]] of the Go map is whether
    [name] is the name of a row of [table_info]. *)
Definition ensureTasksColumns (s : S) : result unit * S :=
  match TableInfo "tasks" s with
  | Err err => (Err (Wrapped "read tasks schema" err), s)
  | Ok names =>
      let cols := fun name => existsb (string_eqb name) names in
      match
        if negb (cols "important") then
          match ExecDDL (AlterTableAddColumn "tasks" "important") s with
          | (Err err, s) => (Err (Wrapped "add tasks.important" err), s)
          | (Ok _, s) => (Ok tt, s)
          end
        else (Ok tt, s)
      with
      | (Err err, s) => (Err err, s)
      | (Ok _, s) =>
          if negb (cols "urgent") then
            match ExecDDL (AlterTableAddColumn "tasks" "urgent") s with
            | (Err err, s) => (Err (Wrapped "add tasks.urgent" err), s)
            | (Ok _, s) => (Ok tt, s)
            end
          else (Ok tt, s)
      end
  end.

(** [Store.migrate] *)
Definition migrate (s : S) : result unit * S :=
  match migrate_range stmts s with
  | (Err err, s) => (Err err, s)
  | (Ok _, s) =>
      match ensureTasksColumns s with
      | (Err err, s) => (Err err, s)
      | (Ok _, s) =>
          match
            ExecDDL
              (CreateIndexIfNotExists "idx_tasks_important_urgent" "tasks"
                 ["important"; "urgent"]) s
          with
          | (Err err, s) =>
              (Err (Wrapped "create tasks important/urgent index" err), s)
          | (Ok _, s) => (Ok tt, s)
          end
      end
  end.

End Migrate.

(** ** Package [version] *)
Module version.

(** The version of this build. *)
Definition Version : string := "1.1.0".
Definition Name : string := "Spark-Todo".

Module ReleaseInfo.
Record t := mk {
  Version : string;
  Name : string;
  Description : string;
  PublishedAt : string;
  DownloadURL : string;
  PageURL : string;
  Required : bool;
}.
End ReleaseInfo.

Module UpdateCheckResult.
Record t := mk {
  HasUpdate : bool;
  CurrentVersion : string;
  (** [nil] when there is no update *)
  LatestRelease : option ReleaseInfo.t;
}.
End UpdateCheckResult.

(** The struct [githubRelease] that the body of the response is decoded
    into, and the struct of its [Assets]. *)
Module Asset.
Record t := mk {
  Name : string;
  BrowserDownloadURL : string;
}.
End Asset.

Module GithubRelease.
Record t := mk {
  TagName : string;
  Name : string;
  Body : string;
  PublishedAt : string;
  HTMLURL : string;
  Assets : list Asset.t;
}.
End GithubRelease.

(** What the HTTP exchange of [CheckUpdate] gives: no request
    ([http.NewRequestWithContext] fails), no response ([client.Do] fails),
    or a response with its status code and what [json.Decode] makes of its
    body. *)
Inductive Response :=
  | NoRequest (err : error)
  | NoResponse (err : error)
  | Answer (StatusCode : Z) (body : result GithubRelease.t).

(** The errors of [CheckUpdate]. *)
Inductive CheckError :=
  (** "create request: %w" *)
  | ErrCreateRequest (err : error)
  (** "fetch update info: %w" *)
  | ErrFetch (err : error)
  (** "update server returned status %d" *)
  | ErrStatus (code : Z)
  (** "parse response: %w" *)
  | ErrParse (err : error).

Definition StatusOK : Z := 200.

(** [isInstallerAsset(name)] *)
Definition isInstallerAsset (name : string) : bool :=
  (13 <? len name)
  && string_eqb (slice_from name (len name - 13)) "-installer.exe".

(** The loop of [CheckUpdate] over the assets of the release, from
    [downloadURL]; [goos] is [runtime.GOOS]. *)
Definition downloadURL_range (goos : string) (assets : list Asset.t)
    (downloadURL : string) : string :=
  fold_left
    (fun downloadURL asset =>
       if string_eqb goos "windows" then
         if (len downloadURL =? 0) || isInstallerAsset (Asset.Name asset)
         then Asset.BrowserDownloadURL asset
         else downloadURL
       else downloadURL)
    assets downloadURL.

Section Scan.
(** [fmt.Sscanf(v, "%d.%d.%d", &major, &minor, &patch)] on three [int]s
    that are zero: what the three hold afterwards. *)
Variable Sscanf : string -> Z * Z * Z.

(** [compareVersion(v1, v2)] *)
Definition compareVersion (v1 v2 : string) : Z :=
  let '(major1, minor1, patch1) := Sscanf v1 in
  let '(major2, minor2, patch2) := Sscanf v2 in
  if negb (major1 =? major2) then
    if major2 <? major1 then 1 else -1
  else if negb (minor1 =? minor2) then
    if minor2 <? minor1 then 1 else -1
  else if negb (patch1 =? patch2) then
    if patch2 <? patch1 then 1 else -1
  else 0.

(** [UpdateChecker.CheckUpdate]: the result and the error, both returned
    in every case. *)
Definition CheckUpdate (goos : string) (resp : Response)
    : UpdateCheckResult.t * option CheckError :=
  let result := UpdateCheckResult.mk false Version None in
  match resp with
  | NoRequest err => (result, Some (ErrCreateRequest err))
  | NoResponse err => (result, Some (ErrFetch err))
  | Answer StatusCode body =>
      if negb (StatusCode =? StatusOK) then (result, Some (ErrStatus StatusCode))
      else
        match body with
        | Err err => (result, Some (ErrParse err))
        | Ok githubRelease =>
            let latestVersion := GithubRelease.TagName githubRelease in
            let latestVersion :=
              if (0 <? len latestVersion) && (index latestVersion 0 =? 0x76)
              then slice_from latestVersion 1
              else latestVersion in
            if 0 <? compareVersion latestVersion Version then
              let downloadURL :=
                downloadURL_range goos (GithubRelease.Assets githubRelease)
                  "" in
              (UpdateCheckResult.mk true Version
                 (Some (ReleaseInfo.mk latestVersion
                          (GithubRelease.Name githubRelease)
                          (GithubRelease.Body githubRelease)
                          (GithubRelease.PublishedAt githubRelease)
                          downloadURL
                          (GithubRelease.HTMLURL githubRelease)
                          false)),
               None)
            else (result, None)
        end
  end.

End Scan.

End version.

(** ** The application ([app.go]) *)

Module Board.
Record t := mk {
  Groups : list Group.t;
  Tasks : list Task.t;
  Settings : Settings.t;
  Statuses : list Status;
}.
End Board.

Module App.

(** The errors the methods of [App] return. *)
Inductive AppError :=
  (** [errors.New] of "the application is not initialized yet" *)
  | ErrNotInitialized
  (** "initialization failed: the database path cannot be determined:
      %w" *)
  | ErrNoDBPath (err : error)
  (** "initialization failed: the database cannot be opened: %w" *)
  | ErrOpenDB (err : error)
  (** an error of the store, returned as it is *)
  | ErrStore (err : error)
  (** the error of the system dialog *)
  | ErrDialog (err : error)
  (** "update check failed: %w" *)
  | ErrCheckUpdate (err : version.CheckError).

(** The result of a method returning [(A, error)]. *)
Inductive outcome (A : Type) :=
  | Done (a : A)
  | Failed (e : AppError).
Arguments Done {A} a.
Arguments Failed {A} e.

(** [type App struct]: [ctx] is whether the context is set, [store] the
    handle of the open store. *)
Record t (D : Type) := mk {
  ctx : bool;
  store : option D;
  startupErr : option AppError;
  waterReminderShowing : bool;
}.
Arguments mk {D}.
Arguments ctx {D}.
Arguments store {D}.
Arguments startupErr {D}.
Arguments waterReminderShowing {D}.

(** [time.Hour], a [Duration] in nanoseconds, and the ends of the range of
    a [Duration]. *)
Definition Hour : Z := 3600 * 1000000000.
Definition minDuration : Z := - 2 ^ 63.
Definition maxDuration : Z := 2 ^ 63 - 1.

(** [time.Since(time.UnixMilli(msec))] when the clock reads [nowNano]
    nanoseconds since the Unix epoch: the difference, or the end of the
    range of a [Duration] it falls beyond. *)
Definition Since_UnixMilli (nowNano msec : Z) : Z :=
  let d := nowNano - msec * 1000000 in
  if d <? minDuration then minDuration
  else if maxDuration <? d then maxDuration
  else d.

Section Methods.
Context {tables : CaseTables} {D : Type} {db : SqlDB D}.

(** The store of [a] after a call that left it as [s]. *)
Definition with_store (a : t D) (s : D) : t D :=
  mk (ctx a) (Some s) (startupErr a) (waterReminderShowing a).

(** [NewApp()] *)
Definition NewApp : t D := mk false None None false.

(** [App.startup].  [dbPath] is the result of [todo.DefaultDBPath], [Open]
    is [todo.Open], and [window] is the always-on-top flag of the window,
    which [runtime.WindowSetAlwaysOnTop] sets.  Returns the application
    and the flag of the window. *)
Definition startup (dbPath : result string) (Open : string -> result D)
    (a : t D) (window : bool) : t D * bool :=
  let a := mk true (store a) (startupErr a) (waterReminderShowing a) in
  match dbPath with
  | Err err =>
      (mk (ctx a) (store a) (Some (ErrNoDBPath err)) (waterReminderShowing a),
       window)
  | Ok dbPath =>
      match Open dbPath with
      | Err err =>
          (mk (ctx a) (store a) (Some (ErrOpenDB err))
             (waterReminderShowing a),
           window)
      | Ok s =>
          let a := mk (ctx a) (Some s) None (waterReminderShowing a) in
          match GetSettings s with
          | Ok settings => (a, Settings.AlwaysOnTop settings)
          | Err _ => (a, window)
          end
      end
  end.

(** [App.ensureStoreReady]: no error exactly when [a.store] is set, and the
    method that asked goes on with this store. *)
Definition ensureStoreReady (a : t D) : AppError + D :=
  match store a with
  | Some s => inr s
  | None =>
      match startupErr a with
      | Some err => inl err
      | None => inl ErrNotInitialized
      end
  end.

(** [App.GetBoard] *)
Definition GetBoard (a : t D) : outcome Board.t :=
  match ensureStoreReady a with
  | inl err => Failed err
  | inr s =>
      match ListGroups s with
      | Err err => Failed (ErrStore err)
      | Ok groups =>
          match ListTasks s with
          | Err err => Failed (ErrStore err)
          | Ok tasks =>
              match GetSettings s with
              | Err err => Failed (ErrStore err)
              | Ok settings =>
                  Done (Board.mk groups tasks settings
                          [StatusTodo; StatusDoing; StatusDone])
              end
          end
      end
  end.

(** What a method makes of the result of the store's call. *)
Definition returned {A} (a : t D) (r : result A * D) : outcome A * t D :=
  match r with
  | (Ok v, s) => (Done v, with_store a s)
  | (Err err, s) => (Failed (ErrStore err), with_store a s)
  end.

(** [App.UpsertGroup] *)
Definition UpsertGroup (now : Z) (id : Z) (name : string) (a : t D)
    : outcome Group.t * t D :=
  match ensureStoreReady a with
  | inl err => (Failed err, a)
  | inr s => returned a (UpsertGroup now id name s)
  end.

(** [App.DeleteGroup] *)
Definition DeleteGroup (id : Z) (a : t D) : outcome unit * t D :=
  match ensureStoreReady a with
  | inl err => (Failed err, a)
  | inr s => returned a (DeleteGroup id s)
  end.

(** [App.UpsertTask] *)
Definition UpsertTask (now : Z) (task : Task.t) (a : t D)
    : outcome Task.t * t D :=
  match ensureStoreReady a with
  | inl err => (Failed err, a)
  | inr s => returned a (UpsertTask now task s)
  end.

(** [App.DeleteTask] *)
Definition DeleteTask (id : Z) (a : t D) : outcome unit * t D :=
  match ensureStoreReady a with
  | inl err => (Failed err, a)
  | inr s => returned a (DeleteTask id s)
  end.

(** [App.SetHideDone] *)
Definition SetHideDone (hide : bool) (a : t D) : outcome Settings.t * t D :=
  match ensureStoreReady a with
  | inl err => (Failed err, a)
  | inr s =>
      match GetSettings s with
      | Err err => (Failed (ErrStore err), a)
      | Ok settings =>
          let settings :=
            Settings.mk hide (Settings.AlwaysOnTop settings)
              (Settings.ViewMode settings) (Settings.ConciseMode settings)
              (Settings.Theme settings) in
          match SetSettings settings s with
          | (Err err, s) => (Failed (ErrStore err), with_store a s)
          | (Ok _, s) => (Done settings, with_store a s)
          end
      end
  end.

(** [App.SetAlwaysOnTop]; [window] is the always-on-top flag of the window,
    which [runtime.WindowSetAlwaysOnTop] sets once the settings are
    written. *)
Definition SetAlwaysOnTop (on : bool) (a : t D) (window : bool)
    : outcome Settings.t * t D * bool :=
  match ensureStoreReady a with
  | inl err => (Failed err, a, window)
  | inr s =>
      match GetSettings s with
      | Err err => (Failed (ErrStore err), a, window)
      | Ok settings =>
          let settings :=
            Settings.mk (Settings.HideDone settings) on
              (Settings.ViewMode settings) (Settings.ConciseMode settings)
              (Settings.Theme settings) in
          match SetSettings settings s with
          | (Err err, s) => (Failed (ErrStore err), with_store a s, window)
          | (Ok _, s) => (Done settings, with_store a s, on)
          end
      end
  end.

(** [App.SetViewMode] *)
Definition SetViewMode (mode : string) (a : t D) : outcome Settings.t * t D :=
  match ensureStoreReady a with
  | inl err => (Failed err, a)
  | inr s =>
      match GetSettings s with
      | Err err => (Failed (ErrStore err), a)
      | Ok settings =>
          let settings :=
            Settings.mk (Settings.HideDone settings) (Settings.AlwaysOnTop settings)
              mode (Settings.ConciseMode settings)
              (Settings.Theme settings) in
          match SetSettings settings s with
          | (Err err, s) => (Failed (ErrStore err), with_store a s)
          | (Ok _, s) => (Done settings, with_store a s)
          end
      end
  end.

(** [App.SetTheme] *)
Definition SetTheme (theme : string) (a : t D) : outcome Settings.t * t D :=
  match ensureStoreReady a with
  | inl err => (Failed err, a)
  | inr s =>
      match GetSettings s with
      | Err err => (Failed (ErrStore err), a)
      | Ok settings =>
          let settings :=
            Settings.mk (Settings.HideDone settings) (Settings.AlwaysOnTop settings)
              (Settings.ViewMode settings) (Settings.ConciseMode settings)
              theme in
          match SetSettings settings s with
          | (Err err, s) => (Failed (ErrStore err), with_store a s)
          | (Ok _, s) => (Done settings, with_store a s)
          end
      end
  end.

(** [App.SetConciseMode] *)
Definition SetConciseMode (on : bool) (a : t D) : outcome Settings.t * t D :=
  match ensureStoreReady a with
  | inl err => (Failed err, a)
  | inr s =>
      match GetSettings s with
      | Err err => (Failed (ErrStore err), a)
      | Ok settings =>
          let settings :=
            Settings.mk (Settings.HideDone settings) (Settings.AlwaysOnTop settings)
              (Settings.ViewMode settings) on
              (Settings.Theme settings) in
          match SetSettings settings s with
          | (Err err, s) => (Failed (ErrStore err), with_store a s)
          | (Ok _, s) => (Done settings, with_store a s)
          end
      end
  end.

(** [App.ShowWaterReminder].  [nowNano] is the clock, in nanoseconds since
    the Unix epoch, when the time since the last reminder is taken,
    [nowMilli] is [time.Now().UnixMilli()] when the reminder is recorded,
    and [dialog] is the error of the system dialog, if any.  Returns the
    error, whether the dialog was opened, and the application after the
    call; the flag [waterReminderShowing] is set during the call and
    cleared when it returns. *)
Definition ShowWaterReminder (nowNano nowMilli : Z) (dialog : option error)
    (a : t D) : option AppError * bool * t D :=
  if negb (ctx a) then (Some ErrNotInitialized, false, a) else
  if waterReminderShowing a then (None, false, a) else
  let recent :=
    match store a with
    | Some s =>
        match GetLastWaterReminderAt s with
        | Err _ => false
        | Ok lastAt =>
            (0 <? lastAt) && (Since_UnixMilli nowNano lastAt <? Hour)
        end
    | None => false
    end in
  if recent then (None, false, a) else
  match dialog with
  | Some err => (Some (ErrDialog err), true, a)
  | None =>
      match store a with
      | Some s =>
          (None, true, with_store a (SetLastWaterReminderAt nowMilli s).2)
      | None => (None, true, a)
      end
  end.

(** [App.GetVersion] *)
Definition GetVersion (a : t D) : string := version.Version.

(** [App.CheckUpdate]; the arguments before [a] are those of
    [version.CheckUpdate]. *)
Definition CheckUpdate (Sscanf : string -> Z * Z * Z) (goos : string)
    (resp : version.Response) (a : t D)
    : outcome version.UpdateCheckResult.t :=
  if negb (ctx a) then Failed ErrNotInitialized else
  match version.CheckUpdate Sscanf goos resp with
  | (_, Some err) => Failed (ErrCheckUpdate err)
  | (result, None) => Done result
  end.

End Methods.

End App.

(** ** The board of the frontend ([frontend/src/App.vue]) *)

Module frontend.

(** [type QuadrantKey = 'iu' | 'in' | 'nu' | 'nn'] *)
Inductive QuadrantKey := IU | IN | NU | NN.

#[export] Instance QuadrantKey_eq_dec : EqDecision QuadrantKey.
Proof. solve_decision. Defined.

(** The key as the string it is. *)
Definition key_text (k : QuadrantKey) : string :=
  match k with
  | IU => "iu"
  | IN => "in"
  | NU => "nu"
  | NN => "nn"
  end.

(** An entry of [quadrants], without its title. *)
Record Quadrant := {
  key : QuadrantKey;
  important : bool;
  urgent : bool;
}.

Definition quadrants : list Quadrant :=
  [ {| key := IU; important := true; urgent := true |};
    {| key := IN; important := true; urgent := false |};
    {| key := NU; important := false; urgent := true |};
    {| key := NN; important := false; urgent := false |} ].

Definition defaultSettings : Settings.t :=
  Settings.mk false true "cards" false "light".

(** A JavaScript [Set], as the list of its members in the order they were
    added. *)
Definition Set_has (keys : list QuadrantKey) (k : QuadrantKey) : bool :=
  existsb (fun k' => bool_decide (k' = k)) keys.

Definition Set_add (keys : list QuadrantKey) (k : QuadrantKey)
    : list QuadrantKey :=
  if Set_has keys k then keys else keys ++ [k].

(** [new Set(array)] *)
Definition new_Set (array : list QuadrantKey) : list QuadrantKey :=
  fold_left Set_add array [].

Definition Set_size (keys : list QuadrantKey) : Z := Z.of_nat (length keys).

(** [quadrantKey(task)] *)
Definition quadrantKey (task : Task.t) : QuadrantKey :=
  let important := Task.Important task in
  let urgent := Task.Urgent task in
  if important && urgent then IU
  else if important && negb urgent then IN
  else if negb important && urgent then NU
  else NN.

(** [computeMatrixTemplateAreas(keys)]; [None] is [null] or [undefined],
    and [innerWidth] and [innerHeight] are those of the window. *)
Definition computeMatrixTemplateAreas (innerWidth innerHeight : Z)
    (keys : option (list QuadrantKey)) : string :=
  match keys with
  | None => ""
  | Some keys =>
      if Set_size keys <=? 0 then "" else
      let hasIU := Set_has keys IU in
      let hasIN := Set_has keys IN in
      let hasNU := Set_has keys NU in
      let hasNN := Set_has keys NN in
      let count := Set_size keys in
      let all := "'iu in' 'nu nn'" in
      if count =? 1 then
        (* keys.values().next().value *)
        let only :=
          match keys with
          | k :: _ => key_text k
          | [] => "undefined"
          end in
        "'" +:+ only +:+ " " +:+ only +:+ "' '" +:+ only +:+ " " +:+ only
        +:+ "'"
      else if count =? 3 then
        if negb hasIU then "'in in' 'nu nn'"
        else if negb hasIN then "'iu iu' 'nu nn'"
        else if negb hasNU then "'iu in' 'nn nn'"
        else "'iu in' 'nu nu'"
      else if count =? 2 then
        let preferStack := innerWidth <=? innerHeight in
        if hasIU && hasIN then
          if preferStack then "'iu iu' 'in in'" else "'iu in' 'iu in'"
        else if hasNU && hasNN then
          if preferStack then "'nu nu' 'nn nn'" else "'nu nn' 'nu nn'"
        else if hasIU && hasNU then "'iu iu' 'nu nu'"
        else if hasIN && hasNN then "'in in' 'nn nn'"
        else if hasIU && hasNN then "'iu iu' 'nn nn'"
        else if hasIN && hasNU then "'in in' 'nu nu'"
        else all
      else all
  end.

(** The computed [settings] of the board [board.value], [None] while there
    is none. *)
Definition settings (board : option Board.t) : Settings.t :=
  match board with
  | Some b => Board.Settings b
  | None => defaultSettings
  end.

(** The computed [tasks] *)
Definition tasks (board : option Board.t) : list Task.t :=
  let all :=
    match board with
    | Some b => Board.Tasks b
    | None => []
    end in
  if Settings.HideDone (settings board)
  then List.filter (fun t => negb (string_eqb (Task.Status t) "done")) all
  else all.

(** [map[k].push(t)] on a [Record<QuadrantKey, Task[]>] *)
Definition push (map : QuadrantKey -> list Task.t) (k : QuadrantKey)
    (t : Task.t) : QuadrantKey -> list Task.t :=
  fun k' => if bool_decide (k' = k) then map k' ++ [t] else map k'.

(** The computed [quadrantTasksMap] *)
Definition quadrantTasksMap (board : option Board.t)
    : QuadrantKey -> list Task.t :=
  fold_left (fun map t => push map (quadrantKey t) t) (tasks board)
    (fun _ => []).

(** The computed [visibleQuadrants] *)
Definition visibleQuadrants (board : option Board.t) : list Quadrant :=
  List.filter
    (fun q => 0 <? Z.of_nat (length (quadrantTasksMap board (key q))))
    quadrants.

(** The computed [matrixAreas] *)
Definition matrixAreas (innerWidth innerHeight : Z) (board : option Board.t)
    : string :=
  let keys := new_Set (map key (visibleQuadrants board)) in
  computeMatrixTemplateAreas innerWidth innerHeight (Some keys).

End frontend.

(** ** Properties of the library functions *)

Lemma string_eqb_eq (a b : string) : string_eqb a b = true <-> a = b.
Proof. unfold string_eqb. apply bool_decide_eq_true. Qed.

Lemma string_eqb_refl (a : string) : string_eqb a a = true.
Proof. by apply string_eqb_eq. Qed.

Lemma string_eqb_neq (a b : string) : a ≠ b -> string_eqb a b = false.
Proof. unfold string_eqb. apply bool_decide_eq_false_2. Qed.

Lemma byte_of_range (c : ascii) : 0 <= byte_of c < 256.
Proof.
  unfold byte_of. pose proof (N_ascii_bounded c). lia.
Qed.

Lemma ascii_of_byte_of (c : ascii) : ascii_of (byte_of c) = c.
Proof.
  unfold ascii_of, byte_of. rewrite N2Z.id. apply ascii_N_embedding.
Qed.

Lemma byte_of_ascii_of (b : Z) : 0 <= b < 256 -> byte_of (ascii_of b) = b.
Proof.
  intros Hb. unfold ascii_of, byte_of.
  rewrite N_ascii_embedding by lia. lia.
Qed.

Lemma byte_of_inj (c d : ascii) : byte_of c = byte_of d -> c = d.
Proof.
  intros H. rewrite <- (ascii_of_byte_of c), <- (ascii_of_byte_of d).
  by rewrite H.
Qed.

Section SettingsRead.
Context {tables : CaseTables}.

(** What [GetSettings] reads off the settings table: every field from its
    own key, the default where the key is absent. *)
Definition readSettings (m : gmap string string) : Settings.t :=
  Settings.mk
    (from_option settingIsTrue false (m !! "hideDone"))
    (from_option settingIsTrue true (m !! "alwaysOnTop"))
    (from_option normalizeViewMode "cards" (m !! "viewMode"))
    (from_option settingIsTrue false (m !! "conciseMode"))
    "".

Lemma scanSetting_fold (rows : list (string * string)) :
  NoDup rows.*1 ->
  forall init,
    fold_left scanSetting rows init =
    let m : gmap string string := list_to_map rows in
    Settings.mk
      (from_option settingIsTrue (Settings.HideDone init) (m !! "hideDone"))
      (from_option settingIsTrue (Settings.AlwaysOnTop init) (m !! "alwaysOnTop"))
      (from_option normalizeViewMode (Settings.ViewMode init) (m !! "viewMode"))
      (from_option settingIsTrue (Settings.ConciseMode init) (m !! "conciseMode"))
      (Settings.Theme init).
Proof.
  induction rows as [|[k v] rows IH]; intros Hnd init.
  - by destruct init.
  - apply NoDup_cons in Hnd as [Hk Hnd].
    cbn [fold_left]. rewrite (IH Hnd). cbn zeta.
    apply (not_elem_of_list_to_map_1 (M := gmap string) (A := string)) in Hk.
    cbn [fst] in Hk.
    cbn [list_to_map foldr uncurry fst snd curry].
    unfold scanSetting, string_eqb.
    repeat case_bool_decide; subst; cbn.
    all: rewrite ?lookup_insert_eq, ?Hk; cbn.
    all: rewrite ?lookup_insert_ne by done.
    all: done.
Qed.

Lemma GetSettings_sqlite (db : DB) :
  GetSettings db = Ok (readSettings (settings db)).
Proof.
  unfold GetSettings. cbn [QueryContext sqlite_db sqlite.query].
  rewrite scanSetting_fold by apply NoDup_fst_map_to_list.
  cbn zeta. by rewrite list_to_map_to_list.
Qed.

End SettingsRead.

(** *** Bitwise bounds *)

Lemma lor_ge_l (a b : Z) : 0 <= a -> 0 <= b -> a <= Z.lor a b.
Proof.
  intros Ha Hb.
  assert (Z.lor a (Z.ldiff b a) = Z.lor a b) as Hd.
  { apply Z.bits_inj'. intros n Hn.
    rewrite !Z.lor_spec, Z.ldiff_spec.
    destruct (Z.testbit a n), (Z.testbit b n); reflexivity. }
  pose proof (Z.add_lor_land a (Z.ldiff b a)) as Hadd.
  rewrite Z.land_comm, Z.land_ldiff, Hd in Hadd.
  assert (0 <= Z.ldiff b a) by (apply Z.ldiff_nonneg; lia).
  lia.
Qed.

Lemma lor_ge_r (a b : Z) : 0 <= a -> 0 <= b -> b <= Z.lor a b.
Proof. intros. rewrite Z.lor_comm. by apply lor_ge_l. Qed.

Lemma lor_lt_128 (a b : Z) :
  0 <= a < 128 -> 0 <= b < 128 -> 0 <= Z.lor a b < 128.
Proof.
  intros Ha Hb. split; [apply Z.lor_nonneg; lia|].
  assert (forall x, 0 <= x < 128 -> Z.land x (Z.ones 7) = x) as Hm.
  { intros x Hx. rewrite Z.land_ones by lia. apply Z.mod_small.
    change (2 ^ 7) with 128. lia. }
  rewrite <- (Hm a Ha), <- (Hm b Hb), <- Z.land_lor_distr_l.
  rewrite Z.land_ones by lia. change (2 ^ 7) with 128.
  apply Z.mod_pos_bound. lia.
Qed.

Lemma land_mask (a : Z) (n : Z) :
  0 <= n -> Z.land a (Z.ones n) = a mod 2 ^ n.
Proof. apply Z.land_ones. Qed.

(** *** The UTF-8 decoder *)

Lemma len_String (c : ascii) (s : string) : len (String c s) = 1 + len s.
Proof. unfold len. cbn [String.length]. lia. Qed.

Lemma len_nonneg (s : string) : 0 <= len s.
Proof. unfold len. lia. Qed.

Lemma index_0 (c : ascii) (s : string) : index (String c s) 0 = byte_of c.
Proof. reflexivity. Qed.

Lemma index_range (s : string) (i : Z) : 0 <= index s i < 256.
Proof.
  unfold index. destruct (String.get _ s); [apply byte_of_range | lia].
Qed.

Lemma first_cases (b : Z) :
  0x80 <= b ->
  utf8.first b = utf8.xx
  \/ (utf8.first b = utf8.s1 /\ 0xC2 <= b <= 0xDF)
  \/ (utf8.first b = utf8.s2 /\ b = 0xE0)
  \/ (utf8.first b = utf8.s3 /\ 0xE1 <= b <= 0xEF)
  \/ (utf8.first b = utf8.s4 /\ b = 0xED)
  \/ (utf8.first b = utf8.s5 /\ b = 0xF0)
  \/ (utf8.first b = utf8.s6 /\ 0xF1 <= b <= 0xF3)
  \/ (utf8.first b = utf8.s7 /\ b = 0xF4).
Proof.
  intros Hb. unfold utf8.first.
  repeat match goal with
         | |- context [if ?c then _ else _] => destruct c eqn:?
         end; lia || (intuition lia).
Qed.

Ltac first_consts :=
  match goal with
  | |- context [Z.land ?x 7] =>
      let sz := eval vm_compute in (Z.land x 7) in
      let ar := eval vm_compute in (utf8.acceptRanges (Z.shiftr x 4)) in
      let ge := eval vm_compute in (x >=? utf8.as_) in
      let eq := eval vm_compute in (x =? utf8.xx) in
      change (Z.land x 7) with sz;
      change (utf8.acceptRanges (Z.shiftr x 4)) with ar;
      change (x >=? utf8.as_) with ge;
      change (x =? utf8.xx) with eq;
      cbv iota beta
  end.

(** A byte that is not ASCII never decodes to an ASCII rune. *)
Lemma DecodeRune_nonascii (c : ascii) (s : string) :
  0x80 <= byte_of c ->
  0x80 <= (utf8.DecodeRuneInString (String c s)).1.
Proof.
  intros Hc. unfold utf8.DecodeRuneInString.
  rewrite len_String, index_0.
  pose proof (len_nonneg s) as Hlen.
  destruct (1 + len s <? 1) eqn:Hn; [lia|]. clear Hn.
  pose proof (index_range (String c s) 1) as H1.
  pose proof (index_range (String c s) 2) as H2.
  pose proof (index_range (String c s) 3) as H3.
  pose proof (byte_of_range c) as H0.
  set (b1 := index (String c s) 1) in *.
  set (b2 := index (String c s) 2) in *.
  set (b3 := index (String c s) 3) in *.
  set (s0 := byte_of c) in *.
  assert (forall x m, 0 <= x -> 0 <= Z.land x m) as Hland.
  { intros x m Hx. apply Z.land_nonneg. by left. }
  assert (forall x n, 0 <= x -> 0 <= n -> 0 <= Z.shiftl x n) as Hshl.
  { intros x n Hx Hn. by apply Z.shiftl_nonneg. }
  assert (forall x y, 0 <= x -> 0 <= y -> 0 <= Z.lor x y) as Hlor.
  { intros x y Hx Hy. by apply Z.lor_nonneg. }
  destruct (first_cases s0 Hc) as [E|[[E R]|[[E R]|[[E R]|[[E R]|[[E R]|[[E R]|[E R]]]]]]]];
    rewrite E; first_consts;
    repeat match goal with
           | |- context [if ?c then _ else _] => destruct c eqn:?
           end;
    cbn [fst]; try (unfold utf8.RuneError; lia).
  - (* two bytes *)
    etransitivity; [|apply lor_ge_l; auto with lia].
    rewrite Z.shiftl_mul_pow2 by lia.
    change utf8.mask2 with (Z.ones 5). rewrite Z.land_ones by lia.
    change (2 ^ 5) with 32. change (2 ^ 6) with 64.
    Z.div_mod_to_equations. lia.
  - (* three bytes, first byte E0 *)
    etransitivity; [|apply lor_ge_l; auto with lia].
    etransitivity; [|apply lor_ge_r; auto with lia].
    rewrite Z.shiftl_mul_pow2 by lia.
    change utf8.maskx with (Z.ones 6). rewrite Z.land_ones by lia.
    change (2 ^ 6) with 64.
    unfold utf8.hicb in *.
    Z.div_mod_to_equations. lia.
  - (* three bytes *)
    etransitivity; [|apply lor_ge_l; auto with lia].
    etransitivity; [|apply lor_ge_l; auto with lia].
    rewrite Z.shiftl_mul_pow2 by lia.
    change utf8.mask3 with (Z.ones 4). rewrite Z.land_ones by lia.
    change (2 ^ 4) with 16. change (2 ^ 12) with 4096.
    Z.div_mod_to_equations. lia.
  - (* three bytes, first byte ED *)
    etransitivity; [|apply lor_ge_l; auto with lia].
    etransitivity; [|apply lor_ge_l; auto with lia].
    subst s0. rewrite R. vm_compute. discriminate.
  - (* four bytes, first byte F0 *)
    etransitivity; [|apply lor_ge_l; auto 6 with lia].
    etransitivity; [|apply lor_ge_l; auto 6 with lia].
    etransitivity; [|apply lor_ge_r; auto with lia].
    rewrite Z.shiftl_mul_pow2 by lia.
    change utf8.maskx with (Z.ones 6). rewrite Z.land_ones by lia.
    change (2 ^ 6) with 64. change (2 ^ 12) with 4096.
    unfold utf8.hicb in *.
    Z.div_mod_to_equations. lia.
  - (* four bytes *)
    etransitivity; [|apply lor_ge_l; auto 6 with lia].
    etransitivity; [|apply lor_ge_l; auto 6 with lia].
    etransitivity; [|apply lor_ge_l; auto with lia].
    rewrite Z.shiftl_mul_pow2 by lia.
    change utf8.mask4 with (Z.ones 3). rewrite Z.land_ones by lia.
    change (2 ^ 3) with 8. change (2 ^ 18) with 262144.
    Z.div_mod_to_equations. lia.
  - (* four bytes, first byte F4 *)
    etransitivity; [|apply lor_ge_l; auto 6 with lia].
    etransitivity; [|apply lor_ge_l; auto 6 with lia].
    etransitivity; [|apply lor_ge_l; auto with lia].
    subst s0. rewrite R. vm_compute. discriminate.
Qed.

(** *** Case folding against a plain lower-case word *)

(** A lower-case ASCII letter whose case orbit is the letter and its
    capital: every letter but [k] and [s]. *)
Definition plain_lower_byte (b : Z) : Prop :=
  0x61 <= b <= 0x7A /\ b <> 0x6B /\ b <> 0x73.

Fixpoint plain_lower (t : string) : Prop :=
  match t with
  | EmptyString => True
  | String c t' => plain_lower_byte (byte_of c) /\ plain_lower t'
  end.

Ltac zbool :=
  repeat first
    [ progress cbn [negb andb orb fst snd]
    | match goal with
      | |- context [?a <? ?b] => destruct (Z.ltb_spec a b); try lia
      | |- context [?a <=? ?b] => destruct (Z.leb_spec a b); try lia
      | |- context [?a =? ?b] => destruct (Z.eqb_spec a b); try lia
      end ].

Section Fold.
Context {tables : CaseTables}.

Lemma foldOrbit_S (n : nat) (sr tr r : Z) :
  strings.foldOrbit (S n) sr tr r =
  if negb (r =? sr) && (r <? tr)
  then strings.foldOrbit n sr tr (unicode.SimpleFold r) else r.
Proof. reflexivity. Qed.

Lemma foldEq_ascii (sr tr : Z) :
  0 <= sr < 0x80 -> plain_lower_byte tr ->
  strings.foldEq true sr tr = true <->
  (sr = tr \/ (0x41 <= sr <= 0x5A /\ tr = sr + 0x20)).
Proof.
  intros Hs (Ht & _ & _). unfold strings.foldEq.
  zbool; intuition (try discriminate; lia).
Qed.

Lemma foldEq_nonascii (r tr : Z) :
  0x80 <= r -> plain_lower_byte tr -> strings.foldEq false r tr = false.
Proof.
  intros Hr (Ht & Hk & Hs).
  assert (strings.foldOrbit 8 tr r (unicode.SimpleFold tr) = tr) as Ho.
  { assert (unicode.SimpleFold tr = tr - 0x20) as ->.
    { unfold unicode.SimpleFold, unicode.asciiFold, utf8.MaxRune, unicode.MaxASCII.
      zbool; try reflexivity. }
    assert (unicode.SimpleFold (tr - 0x20) = tr) as Hup.
    { unfold unicode.SimpleFold, unicode.asciiFold, utf8.MaxRune, unicode.MaxASCII.
      zbool; try lia. }
    change 8%nat with (S 7). rewrite foldOrbit_S. zbool.
    rewrite Hup. change 7%nat with (S 6). rewrite foldOrbit_S. zbool.
    all: try reflexivity. }
  unfold strings.foldEq, utf8.RuneSelf.
  destruct (Z.eqb_spec tr r); [lia|].
  destruct (Z.ltb_spec tr r); [|lia].
  destruct (Z.ltb_spec r 128); [lia|].
  cbn [orb]. rewrite Ho. by apply Z.eqb_neq.
Qed.

Lemma lowerASCII_String (c : ascii) (s : string) :
  strings.lowerASCII (String c s) =
  String (if (0x41 <=? byte_of c) && (byte_of c <=? 0x5A)
          then ascii_of (byte_of c + 0x20) else c)
         (strings.lowerASCII s).
Proof. reflexivity. Qed.

(** [EqualFold] against a plain lower-case word holds exactly of the
    strings whose ASCII lower-casing is the word. *)
Lemma EqualFold_plain_lower (t : string) :
  plain_lower t ->
  forall s, strings.EqualFold s t = true <-> strings.lowerASCII s = t.
Proof.
  induction t as [|ct t IH]; intros Ht s.
  - destruct s as [|cs s]; cbn [strings.EqualFold].
    + by split.
    + rewrite len_String. pose proof (len_nonneg s). change (len "") with 0.
      zbool. split; [discriminate|]. rewrite lowerASCII_String. discriminate.
  - destruct Ht as [Hct Ht]. specialize (IH Ht).
    destruct s as [|cs s]; cbn [strings.EqualFold].
    + rewrite len_String. pose proof (len_nonneg t). change (len "") with 0.
      zbool. split; discriminate.
    + pose proof (byte_of_range cs) as Hcs.
      pose proof Hct as (Hr & _ & _).
      rewrite lowerASCII_String.
      destruct (Z_lt_le_dec (byte_of cs) 0x80) as [Hlo|Hhi].
      * pose proof (lor_lt_128 (byte_of cs) (byte_of ct)) as Hl.
        unfold utf8.RuneSelf.
        destruct (Z.leb_spec 128 (Z.lor (byte_of cs) (byte_of ct))); [lia|].
        destruct (strings.foldEq true (byte_of cs) (byte_of ct)) eqn:Hf.
        -- apply foldEq_ascii in Hf; [|lia|done].
           rewrite IH. split.
           ++ intros ->. f_equal. destruct Hf as [Hf|[Hu Hf]].
              ** apply byte_of_inj in Hf. subst. zbool. reflexivity.
              ** zbool. rewrite <- Hf. apply ascii_of_byte_of.
           ++ by intros [= _ ->].
        -- split; [discriminate|]. intros [= Hc Hs].
           assert (strings.foldEq true (byte_of cs) (byte_of ct) = true) as Hf';
             [|congruence].
           apply foldEq_ascii; [lia|done|]. revert Hc. zbool.
           ++ intros <-. right. rewrite byte_of_ascii_of by lia. lia.
           ++ intros ->. by left.
           ++ intros ->. by left.
      * pose proof (lor_ge_l (byte_of cs) (byte_of ct)) as Hl.
        unfold utf8.RuneSelf.
        destruct (Z.leb_spec 128 (Z.lor (byte_of cs) (byte_of ct))); [|lia].
        unfold utf8.range. cbn [utf8.range_from].
        pose proof (DecodeRune_nonascii cs s Hhi) as Hd.
        destruct (utf8.DecodeRuneInString (String cs s)) as [r size].
        cbn [fst] in Hd. cbn [strings.equalFold_unicode fst snd].
        rewrite len_String, index_0. pose proof (len_nonneg t).
        unfold utf8.RuneSelf. zbool.
        rewrite foldEq_nonascii by done.
        split; [discriminate|]. intros [= Hc _]. revert Hc. zbool.
        intros ->. lia.
Qed.

End Fold.

Lemma plain_lower_true : plain_lower "true".
Proof. vm_compute. intuition discriminate. Qed.

(** *** Decimal numerals *)

Definition is_digit (b : Z) : Prop := 0x30 <= b <= 0x39.

Fixpoint digits_only (s : string) : Prop :=
  match s with
  | EmptyString => True
  | String c s' => is_digit (byte_of c) /\ digits_only s'
  end.

(** The number a string of digits denotes, continuing from [n]. *)
Fixpoint decimal (s : string) (n : Z) : Z :=
  match s with
  | EmptyString => n
  | String c s' => decimal s' (n * 10 + (byte_of c - 0x30))
  end.

Lemma get_digits (s : string) (n : nat) :
  digits_only s -> (n < String.length s)%nat ->
  exists c, String.get n s = Some c /\ is_digit (byte_of c).
Proof.
  revert n. induction s as [|c s IH]; intros n Hd Hn; cbn in Hn; [lia|].
  destruct Hd as [Hc Hd]. destruct n as [|n]; cbn.
  - eauto.
  - apply IH; [done|lia].
Qed.

Lemma index_digits (s : string) (i : Z) :
  digits_only s -> 0 <= i < len s -> is_digit (index s i).
Proof.
  intros Hd Hi. unfold index, len in *.
  destruct (get_digits s (Z.to_nat i) Hd) as (c & -> & Hc); [lia|done].
Qed.

Lemma substring_all (s : string) : String.substring 0 (String.length s) s = s.
Proof. induction s as [|c s IH]; cbn; [done|by rewrite IH]. Qed.

Lemma slice_all (s : string) : slice s 0 (len s) = s.
Proof.
  unfold slice, len. rewrite Z.sub_0_r, Nat2Z.id. apply substring_all.
Qed.

(** A string of digits has no white space to trim. *)
Lemma TrimSpace_digits (s : string) :
  digits_only s -> strings.TrimSpace s = s.
Proof.
  intros Hd. unfold strings.TrimSpace. destruct s as [|c s']; [done|].
  set (s := String c s') in *.
  assert (strings.trimSpace_start s 0 = inl 0) as ->.
  { subst s. destruct Hd as [Hc _]. unfold is_digit in Hc.
    cbn [strings.trimSpace_start]. unfold utf8.RuneSelf, strings.asciiSpace.
    zbool. reflexivity. }
  assert (0 < len s) as Hlen.
  { subst s. rewrite len_String. pose proof (len_nonneg s'). lia. }
  assert (strings.trimSpace_stop (String.length s) s 0 (len s) = inl (len s)) as ->.
  { pose proof (index_digits s (len s - 1) Hd) as Hl. unfold is_digit in Hl.
    subst s. cbn [String.length strings.trimSpace_stop].
    destruct (Z.ltb_spec 0 (len (String c s'))); [|lia].
    unfold utf8.RuneSelf, strings.asciiSpace.
    specialize (Hl ltac:(lia)).
    zbool. reflexivity. }
  apply slice_all.
Qed.

Lemma formatBits_digits (fuel : nat) (u : Z) (acc : string) :
  0 <= u -> digits_only acc -> digits_only (strconv.formatBits fuel u acc).
Proof.
  revert u acc. induction fuel as [|fuel IH]; intros u acc Hu Hacc; [done|].
  cbn [strconv.formatBits]. destruct (Z.geb_spec u 10).
  - apply IH; [apply Z.div_pos; lia|]. split; [|done].
    unfold is_digit. rewrite byte_of_ascii_of; Z.div_mod_to_equations; lia.
  - split; [|done]. unfold is_digit. rewrite byte_of_ascii_of; lia.
Qed.

Lemma formatBits_nonempty (fuel : nat) (u : Z) :
  exists c s, strconv.formatBits (S fuel) u EmptyString = String c s.
Proof.
  assert (forall f u acc, acc <> EmptyString ->
                          strconv.formatBits f u acc <> EmptyString) as Hne.
  { induction f as [|f IH]; intros v acc Hacc; [done|].
    cbn [strconv.formatBits]. destruct (v >=? 10); [by apply IH|done]. }
  cbn [strconv.formatBits]. destruct (u >=? 10); [|by eauto].
  match goal with |- context [strconv.formatBits fuel ?v ?a] =>
    specialize (Hne fuel v a ltac:(done));
    destruct (strconv.formatBits fuel v a); [done|by eauto]
  end.
Qed.

Lemma decimal_formatBits (fuel : nat) (u : Z) (acc : string) :
  0 <= u < 10 ^ Z.of_nat fuel ->
  decimal (strconv.formatBits fuel u acc) 0 = decimal acc u.
Proof.
  revert u acc. induction fuel as [|fuel IH]; intros u acc Hu.
  - cbn in *. by replace u with 0 by lia.
  - rewrite Nat2Z.inj_succ, Z.pow_succ_r in Hu by lia.
    cbn [strconv.formatBits]. destruct (Z.geb_spec u 10).
    + rewrite IH by (Z.div_mod_to_equations; lia).
      cbn [decimal]. f_equal.
      rewrite byte_of_ascii_of; Z.div_mod_to_equations; lia.
    + cbn [decimal]. f_equal. rewrite byte_of_ascii_of; lia.
Qed.

Lemma decimal_ge (s : string) (n : Z) :
  digits_only s -> 0 <= n -> n <= decimal s n.
Proof.
  revert n. induction s as [|c s IH]; intros n Hd Hn; cbn [decimal]; [lia|].
  destruct Hd as [Hc Hd]. unfold is_digit in Hc.
  etransitivity; [|apply IH; [done|lia]]. lia.
Qed.

(** On digits the loop of [ParseUint] computes the number denoted, as long
    as it fits 64 bits. *)
Lemma parseUint_loop_digits (s : string) (n : Z) :
  digits_only s -> 0 <= n -> decimal s n <= strconv.maxUint64 ->
  strconv.parseUint_loop s n = (decimal s n, None).
Proof.
  revert n. induction s as [|c s IH]; intros n Hd Hn Hmax; [done|].
  destruct Hd as [Hc Hd]. unfold is_digit in Hc.
  cbn [strconv.parseUint_loop decimal] in *.
  pose proof (decimal_ge s (n * 10 + (byte_of c - 48)) Hd ltac:(lia)) as Hge.
  unfold strconv.maxUint64 in *. change (2 ^ 64) with 18446744073709551616 in *.
  destruct (Z.leb_spec 48 (byte_of c)); [|lia].
  destruct (Z.leb_spec (byte_of c) 57); [|lia]. cbn [andb].
  destruct (Z.geb_spec (byte_of c - 48) 10); [lia|].
  change ((18446744073709551616 - 1) / 10 + 1) with 1844674407370955162.
  destruct (Z.geb_spec n 1844674407370955162); [lia|].
  rewrite (Z.mod_small (n * 10)) by lia.
  rewrite (Z.mod_small (n * 10 + _)) by lia.
  destruct (Z.ltb_spec (n * 10 + (byte_of c - 48)) (n * 10)); [lia|].
  destruct (Z.ltb_spec (18446744073709551616 - 1) (n * 10 + (byte_of c - 48)));
    [lia|].
  cbn [orb]. apply IH; [done|lia|lia].
Qed.

(** [ParseInt(FormatInt(t, 10), 10, 64)] is [t] for a non-negative
    [int64]. *)
Lemma ParseInt_FormatInt (t : Z) :
  0 <= t < 2 ^ 63 ->
  strconv.ParseInt (strconv.FormatInt t) = (t, None).
Proof.
  intros Ht. unfold strconv.FormatInt.
  destruct (Z.ltb_spec t 0); [lia|].
  pose proof (formatBits_digits 20 t EmptyString ltac:(lia) I) as Hd.
  pose proof (decimal_formatBits 20 t EmptyString) as Hv.
  cbn [decimal] in Hv.
  destruct (formatBits_nonempty 19 t) as (c & s & Hs).
  rewrite Hs in *. destruct Hd as [Hc Hd]. unfold is_digit in Hc.
  unfold strconv.ParseInt.
  destruct (Z.eqb_spec (byte_of c) 43); [lia|].
  destruct (Z.eqb_spec (byte_of c) 45); [lia|].
  unfold strconv.ParseUint. rewrite string_eqb_neq by done.
  assert (2 ^ 63 < 10 ^ Z.of_nat 20) by (vm_compute; reflexivity).
  rewrite parseUint_loop_digits; try (split; done); try lia.
  - rewrite Hv by lia. cbn [negb andb].
    destruct (Z.geb_spec t (2 ^ 63)); [lia|]. reflexivity.
  - rewrite Hv by lia. unfold strconv.maxUint64.
    assert (2 ^ 63 < 2 ^ 64 - 1) by (vm_compute; reflexivity). lia.
Qed.

Lemma FormatInt_digits (t : Z) : 0 <= t -> digits_only (strconv.FormatInt t).
Proof.
  intros Ht. unfold strconv.FormatInt. destruct (Z.ltb_spec t 0); [lia|].
  by apply formatBits_digits.
Qed.

Lemma FormatInt_nonempty (t : Z) : 0 <= t -> strconv.FormatInt t <> EmptyString.
Proof.
  intros Ht. unfold strconv.FormatInt. destruct (Z.ltb_spec t 0); [lia|].
  destruct (formatBits_nonempty 19 t) as (c & s & ->). done.
Qed.

(** ** Properties of the relational model *)

Lemma max_rowid_spec {A} (m : gmap Z A) :
  0 <= sqlite.max_rowid m /\
  forall k v, m !! k = Some v -> k <= sqlite.max_rowid m.
Proof.
  unfold sqlite.max_rowid.
  apply (map_fold_weak_ind (fun r (m : gmap Z A) =>
           0 <= r /\ forall k v, m !! k = Some v -> k <= r)).
  - split; [lia|]. intros k v. by rewrite lookup_empty.
  - intros i x m' r Hi [Hr Hle]. split; [lia|]. intros k v.
    destruct (decide (k = i)) as [->|Hne].
    + lia.
    + rewrite lookup_insert_ne by done. intros Hk. specialize (Hle k v Hk). lia.
Qed.

Lemma next_rowid_gt {A} (m : gmap Z A) (seq k : Z) (v : A) :
  m !! k = Some v -> k < sqlite.next_rowid m seq.
Proof.
  intros Hk. unfold sqlite.next_rowid.
  destruct (max_rowid_spec m) as [_ Hle]. specialize (Hle k v Hk). lia.
Qed.

Lemma next_rowid_pos {A} (m : gmap Z A) (seq : Z) : 0 < sqlite.next_rowid m seq.
Proof.
  unfold sqlite.next_rowid. destruct (max_rowid_spec m) as [Hr _]. lia.
Qed.

Lemma next_rowid_fresh {A} (m : gmap Z A) (seq : Z) :
  m !! sqlite.next_rowid m seq = None.
Proof.
  destruct (m !! sqlite.next_rowid m seq) as [v|] eqn:Hk; [|done].
  apply (next_rowid_gt m seq) in Hk. lia.
Qed.

Lemma name_taken_iff (name : string) (self : option Z) (g : gmap Z GroupRow) :
  sqlite.name_taken name self g <->
  exists k r, g !! k = Some r /\ Some k ≠ self /\ gr_name r = name.
Proof. unfold sqlite.name_taken. apply map_Exists_lookup. Qed.

(** The constraints of the schema, and the sign of the row ids. *)
Record consistent (db : DB) : Prop := {
  group_ids_positive : forall id r, groups db !! id = Some r -> 0 < id;
  task_ids_positive : forall id r, tasks db !! id = Some r -> 0 < id;
  names_unique :
    forall i j ri rj,
      groups db !! i = Some ri -> groups db !! j = Some rj ->
      gr_name ri = gr_name rj -> i = j;
  tasks_checked :
    forall id r, tasks db !! id = Some r -> sqlite.check_task r = true;
  foreign_keys :
    forall id r, tasks db !! id = Some r ->
                 is_Some (groups db !! tr_group_id r);
}.

Lemma empty_db_consistent : consistent empty_db.
Proof. split; cbn; intros *; by rewrite ?lookup_empty. Qed.

(** Every statement keeps the database consistent. *)
Lemma exec_consistent (stmt : Stmt) (db : DB) :
  consistent db -> consistent (sqlite.exec stmt db).2.
Proof.
  intros [Hg Ht Hu Hc Hf].
  destruct stmt as [name cr up|name up id|id|row|row id|id|k v|k v];
    cbn [sqlite.exec].
  - (* INSERT INTO groups *)
    case_decide as Htaken; [by split|].
    rewrite name_taken_iff in Htaken.
    pose proof (next_rowid_fresh (groups db) (groups_seq db)) as Hfresh.
    pose proof (next_rowid_pos (groups db) (groups_seq db)) as Hpos.
    set (new := sqlite.next_rowid _ _) in *.
    split; cbn; try done.
    + intros i r. destruct (decide (i = new)) as [->|]; [done|].
      rewrite lookup_insert_ne by done. apply Hg.
    + intros i j ri rj.
      destruct (decide (i = new)) as [->|]; destruct (decide (j = new)) as [->|];
        rewrite ?lookup_insert_eq, ?lookup_insert_ne by done; try done.
      * intros [= <-] Hj Hn. cbn in Hn. destruct Htaken. by exists j, rj.
      * intros Hi [= <-] Hn. cbn in Hn. destruct Htaken. by exists i, ri.
      * apply Hu.
    + intros i r Hi. destruct (Hf i r Hi) as [g Hgk].
      destruct (decide (tr_group_id r = new)) as [E|]; [congruence|].
      rewrite lookup_insert_ne by done. eauto.
  - (* UPDATE groups *)
    destruct (groups db !! id) as [old|] eqn:Hold; [|by split].
    case_decide as Htaken; [by split|].
    rewrite name_taken_iff in Htaken.
    split; cbn; try done.
    + intros i r. destruct (decide (i = id)) as [->|]; [eauto|].
      rewrite lookup_insert_ne by done. apply Hg.
    + intros i j ri rj.
      destruct (decide (i = id)) as [->|]; destruct (decide (j = id)) as [->|];
        rewrite ?lookup_insert_eq, ?lookup_insert_ne by done; try done.
      * intros [= <-] Hj Hn. cbn in Hn. destruct Htaken. exists j, rj.
        split_and!; [done|congruence|done].
      * intros Hi [= <-] Hn. cbn in Hn. destruct Htaken. exists i, ri.
        split_and!; [done|congruence|done].
      * apply Hu.
    + intros i r Hi. destruct (Hf i r Hi) as [g Hgk].
      destruct (decide (tr_group_id r = id)) as [->|];
        [rewrite lookup_insert_eq|rewrite lookup_insert_ne by done]; eauto.
  - (* DELETE FROM groups *)
    destruct (groups db !! id) as [old|] eqn:Hold; [|by split].
    split; cbn.
    + intros i r Hi. apply lookup_delete_Some in Hi as [_ Hi]. eauto.
    + intros i r Hi. apply map_lookup_filter_Some in Hi as [Hi _]. eauto.
    + intros i j ri rj Hi Hj. apply lookup_delete_Some in Hi as [_ Hi].
      apply lookup_delete_Some in Hj as [_ Hj]. eauto.
    + intros i r Hi. apply map_lookup_filter_Some in Hi as [Hi _]. eauto.
    + intros i r Hi. apply map_lookup_filter_Some in Hi as [Hi Hne].
      cbn in Hne. rewrite lookup_delete_ne by done. eauto.
  - (* INSERT INTO tasks *)
    destruct (sqlite.check_task row) eqn:Hcheck; cbn [negb]; [|by split].
    case_decide as Hfk; [by split|].
    pose proof (next_rowid_pos (tasks db) (tasks_seq db)) as Hpos.
    set (new := sqlite.next_rowid _ _) in *.
    split; cbn; try done.
    + intros i r. destruct (decide (i = new)) as [->|]; [done|].
      rewrite lookup_insert_ne by done. apply Ht.
    + intros i r. destruct (decide (i = new)) as [->|].
      * rewrite lookup_insert_eq. by intros [= <-].
      * rewrite lookup_insert_ne by done. apply Hc.
    + intros i r. destruct (decide (i = new)) as [->|].
      * rewrite lookup_insert_eq. intros [= <-].
        by destruct (groups db !! tr_group_id row).
      * rewrite lookup_insert_ne by done. apply Hf.
  - (* UPDATE tasks *)
    destruct (tasks db !! id) as [old|] eqn:Hold; [|by split].
    destruct (sqlite.check_task row) eqn:Hcheck; cbn [negb]; [|by split].
    case_decide as Hfk; [by split|].
    split; cbn; try done.
    + intros i r. destruct (decide (i = id)) as [->|]; [eauto|].
      rewrite lookup_insert_ne by done. apply Ht.
    + intros i r. destruct (decide (i = id)) as [->|].
      * rewrite lookup_insert_eq. by intros [= <-].
      * rewrite lookup_insert_ne by done. apply Hc.
    + intros i r. destruct (decide (i = id)) as [->|].
      * rewrite lookup_insert_eq. intros [= <-]. cbn.
        by destruct (groups db !! tr_group_id row).
      * rewrite lookup_insert_ne by done. apply Hf.
  - (* DELETE FROM tasks *)
    destruct (tasks db !! id) as [old|] eqn:Hold; [|by split].
    split; cbn; try done.
    + intros i r Hi. apply lookup_delete_Some in Hi as [_ Hi]. eauto.
    + intros i r Hi. apply lookup_delete_Some in Hi as [_ Hi]. eauto.
    + intros i r Hi. apply lookup_delete_Some in Hi as [_ Hi]. eauto.
  - (* INSERT OR IGNORE INTO settings *)
    destruct (settings db !! k); by split.
  - (* INSERT INTO settings ... ON CONFLICT DO UPDATE *)
    by split.
Qed.

(** ** The store over the relational model *)

(** The name passes the two checks of [UpsertGroup]. *)
Definition validName (name : string) : Prop :=
  strings.TrimSpace name <> EmptyString /\
  utf8.RuneCountInString (strings.TrimSpace name) <= maxGroupNameRunes.

Definition with_groups (db : DB) (g : gmap Z GroupRow) (seq : Z) : DB :=
  {| groups := g; groups_seq := seq; tasks := tasks db;
     tasks_seq := tasks_seq db; settings := settings db |}.

Definition with_tasks (db : DB) (t : gmap Z TaskRow) (seq : Z) : DB :=
  {| groups := groups db; groups_seq := groups_seq db; tasks := t;
     tasks_seq := seq; settings := settings db |}.

Definition with_settings (db : DB) (s : gmap string string) : DB :=
  {| groups := groups db; groups_seq := groups_seq db; tasks := tasks db;
     tasks_seq := tasks_seq db; settings := s |}.

Lemma sqliteIsConstraint_unique (code : Z) :
  sqliteIsConstraint (SqliteError code) sqlitelib.SQLITE_CONSTRAINT_UNIQUE
  = (code =? sqlitelib.SQLITE_CONSTRAINT_UNIQUE).
Proof. reflexivity. Qed.

Ltac valid_name H :=
  destruct H as [?Hne ?Hlen];
  unfold UpsertGroup;
  rewrite (string_eqb_neq _ _ Hne);
  match goal with
  | |- context [maxGroupNameRunes <? ?c] =>
      destruct (Z.ltb_spec maxGroupNameRunes c); [lia|]
  end.

Lemma UpsertGroup_insert_ok (now : Z) (name : string) (db : DB) :
  validName name ->
  ¬ sqlite.name_taken (strings.TrimSpace name) None (groups db) ->
  let id := sqlite.next_rowid (groups db) (groups_seq db) in
  let n := strings.TrimSpace name in
  UpsertGroup now 0 name db =
  (Ok (Group.mk id n now now),
   with_groups db
     (<[id := {| gr_name := n; gr_created_at := now; gr_updated_at := now |}]>
        (groups db)) id).
Proof.
  intros Hv Hfree. valid_name Hv.
  cbn [Z.eqb ExecContext sqlite_db sqlite.exec].
  by rewrite decide_False.
Qed.

Lemma UpsertGroup_insert_dup (now : Z) (name : string) (db : DB) :
  validName name ->
  sqlite.name_taken (strings.TrimSpace name) None (groups db) ->
  UpsertGroup now 0 name db = (Err ErrGroupNameExists, db).
Proof.
  intros Hv Htaken. valid_name Hv.
  cbn [Z.eqb ExecContext sqlite_db sqlite.exec].
  by rewrite decide_True.
Qed.

Lemma UpsertGroup_update_missing (now id : Z) (name : string) (db : DB) :
  validName name -> id <> 0 -> groups db !! id = None ->
  UpsertGroup now id name db = (Err (ErrGroupNotFound id), db).
Proof.
  intros Hv Hid Hnone. valid_name Hv.
  destruct (Z.eqb_spec id 0); [done|].
  cbn [ExecContext sqlite_db sqlite.exec]. by rewrite Hnone.
Qed.

Lemma UpsertGroup_update_dup (now id : Z) (name : string) (db : DB) (old : GroupRow) :
  validName name -> id <> 0 -> groups db !! id = Some old ->
  sqlite.name_taken (strings.TrimSpace name) (Some id) (groups db) ->
  UpsertGroup now id name db = (Err ErrGroupNameExists, db).
Proof.
  intros Hv Hid Hold Htaken. valid_name Hv.
  destruct (Z.eqb_spec id 0); [done|].
  cbn [ExecContext sqlite_db sqlite.exec]. rewrite Hold.
  by rewrite decide_True.
Qed.

Lemma UpsertGroup_update_ok (now id : Z) (name : string) (db : DB) (old : GroupRow) :
  validName name -> id <> 0 -> groups db !! id = Some old ->
  ¬ sqlite.name_taken (strings.TrimSpace name) (Some id) (groups db) ->
  let n := strings.TrimSpace name in
  UpsertGroup now id name db =
  (Ok (Group.mk id n (gr_created_at old) now),
   with_groups db
     (<[id := {| gr_name := n; gr_created_at := gr_created_at old;
                 gr_updated_at := now |}]> (groups db)) (groups_seq db)).
Proof.
  intros Hv Hid Hold Hfree. valid_name Hv.
  destruct (Z.eqb_spec id 0); [done|].
  cbn [ExecContext sqlite_db sqlite.exec]. rewrite Hold.
  rewrite decide_False by done.
  cbn [sqlite.done RowsAffected Z.eqb QueryContext sqlite_db sqlite.query
         groups with_groups].
  by rewrite lookup_insert_eq.
Qed.

(** The fields of the request pass the checks of [UpsertTask] that follow
    the checks of the group. *)
Record validFields (req : Task.t) : Prop := {
  vt_title_nonempty : strings.TrimSpace (Task.Title req) <> EmptyString;
  vt_title_length :
    utf8.RuneCountInString (strings.TrimSpace (Task.Title req))
    <= maxTaskTitleRunes;
  vt_content_length :
    utf8.RuneCountInString (strings.TrimSpace (Task.Content req))
    <= maxTaskContentRunes;
  vt_status :
    Task.Status req = StatusTodo \/ Task.Status req = StatusDoing
    \/ Task.Status req = StatusDone;
}.

(** The request passes every check of [UpsertTask]. *)
Record validTask (db : DB) (req : Task.t) : Prop := {
  vt_group_positive : 0 < Task.GroupID req;
  vt_group_exists : is_Some (groups db !! Task.GroupID req);
  vt_fields : validFields req;
}.

(** The request as [UpsertTask] stores it: title and content trimmed. *)
Definition trimmed (req : Task.t) : Task.t :=
  Task.mk (Task.ID req) (Task.GroupID req)
    (strings.TrimSpace (Task.Title req))
    (strings.TrimSpace (Task.Content req))
    (Task.Status req) (Task.Important req) (Task.Urgent req)
    (Task.CreatedAt req) (Task.UpdatedAt req).

Lemma ParseStatus_ok (s : string) :
  s = StatusTodo \/ s = StatusDoing \/ s = StatusDone -> ParseStatus s = Ok s.
Proof. intros [-> | [-> | ->]]; reflexivity. Qed.

Lemma ParseStatus_inv (s : string) (e : error) :
  ParseStatus s = Err e ->
  e = ErrInvalidStatus s /\ s <> StatusTodo /\ s <> StatusDoing /\ s <> StatusDone.
Proof.
  unfold ParseStatus, string_eqb.
  repeat case_bool_decide; cbn; try discriminate. by intros [= <-].
Qed.

Lemma check_taskArgs (req : Task.t) (now : Z) :
  Task.Status req = StatusTodo \/ Task.Status req = StatusDoing
  \/ Task.Status req = StatusDone ->
  sqlite.check_task (taskArgs req now) = true.
Proof.
  intros Hs. unfold sqlite.check_task, taskArgs. cbn.
  destruct (Task.Important req), (Task.Urgent req);
    destruct Hs as [-> | [-> | ->]]; reflexivity.
Qed.

Lemma groupExists_sqlite (id : Z) (db : DB) :
  groupExists id db = Ok (bool_decide (is_Some (groups db !! id))).
Proof.
  unfold groupExists. cbn [QueryContext sqlite_db sqlite.query].
  destruct (groups db !! id) as [r|] eqn:Hr;
    cbn [fmap option_fmap option_map sqlite.one_row errors_Is.ErrNoRows];
    f_equal; done.
Qed.

Ltac valid_task H :=
  destruct H as [?Hpos ?Hex [?Htne ?Htl ?Hcl ?Hst]];
  unfold UpsertTask; cbn [Task.GroupID Task.Title Task.Content Task.Status
                          Task.ID Task.Important Task.Urgent];
  match goal with
  | |- context [?g <=? 0] => destruct (Z.leb_spec g 0); [lia|]
  end;
  rewrite groupExists_sqlite, bool_decide_eq_true_2 by done;
  cbn [negb];
  rewrite string_eqb_neq by done;
  match goal with
  | |- context [maxTaskTitleRunes <? ?c] =>
      destruct (Z.ltb_spec maxTaskTitleRunes c); [lia|]
  end;
  match goal with
  | |- context [maxTaskContentRunes <? ?c] =>
      destruct (Z.ltb_spec maxTaskContentRunes c); [lia|]
  end;
  rewrite ParseStatus_ok by done.

Lemma UpsertTask_insert_ok (now : Z) (req : Task.t) (db : DB) :
  validTask db req -> Task.ID req = 0 ->
  let id := sqlite.next_rowid (tasks db) (tasks_seq db) in
  let r := trimmed req in
  UpsertTask now req db =
  (Ok (Task.mk id (Task.GroupID r) (Task.Title r) (Task.Content r)
         (Task.Status r) (Task.Important r) (Task.Urgent r) now now),
   with_tasks db (<[id := taskArgs r now]> (tasks db)) id).
Proof.
  intros Hv Hid. pose proof (vt_status _ (vt_fields _ _ Hv)) as Hs'.
  pose proof (vt_group_exists _ _ Hv) as Hg'. valid_task Hv.
  rewrite Hid. cbn [Z.eqb ExecContext sqlite_db sqlite.exec].
  match goal with
  | |- context [sqlite.check_task ?r] =>
      change r with (taskArgs (trimmed req) now)
  end.
  rewrite check_taskArgs by done. cbn [negb].
  rewrite decide_False; [done|].
  cbn. intros Hn. rewrite Hn in Hg'. by destruct Hg'.
Qed.

Lemma UpsertTask_update_missing (now : Z) (req : Task.t) (db : DB) :
  validTask db req -> Task.ID req <> 0 -> tasks db !! Task.ID req = None ->
  UpsertTask now req db = (Err (ErrTaskNotFound (Task.ID req)), db).
Proof.
  intros Hv Hid Hnone. valid_task Hv.
  destruct (Z.eqb_spec (Task.ID req) 0); [done|].
  cbn [ExecContext sqlite_db sqlite.exec]. by rewrite Hnone.
Qed.

(** The row an update of [old] by the request leaves, and its scan. *)
Definition updatedRow (req : Task.t) (now : Z) (old : TaskRow) : TaskRow :=
  {| tr_group_id := Task.GroupID req; tr_title := Task.Title req;
     tr_content := Task.Content req; tr_status := Task.Status req;
     tr_important := boolTo01Int (Task.Important req);
     tr_urgent := boolTo01Int (Task.Urgent req);
     tr_created_at := tr_created_at old; tr_updated_at := now |}.

Lemma UpsertTask_update_ok (now : Z) (req : Task.t) (db : DB) (old : TaskRow) :
  validTask db req -> Task.ID req <> 0 -> tasks db !! Task.ID req = Some old ->
  let r := trimmed req in
  UpsertTask now req db =
  (Ok (Task.mk (Task.ID r) (Task.GroupID r) (Task.Title r) (Task.Content r)
         (Task.Status r) (Task.Important r) (Task.Urgent r)
         (tr_created_at old) now),
   with_tasks db (<[Task.ID req := updatedRow r now old]> (tasks db))
     (tasks_seq db)).
Proof.
  intros Hv Hid Hold. pose proof (vt_status _ (vt_fields _ _ Hv)) as Hs'.
  pose proof (vt_group_exists _ _ Hv) as Hg'. valid_task Hv.
  destruct (Z.eqb_spec (Task.ID req) 0); [done|].
  cbn [ExecContext sqlite_db sqlite.exec]. rewrite Hold.
  match goal with
  | |- context [sqlite.check_task ?r] =>
      change r with (taskArgs (trimmed req) now)
  end.
  rewrite check_taskArgs by done. cbn [negb].
  rewrite decide_False; [|cbn; intros Hn; rewrite Hn in Hg'; by destruct Hg'].
  cbn [sqlite.done RowsAffected Z.eqb QueryContext sqlite_db sqlite.query
         tasks].
  rewrite lookup_insert_eq. cbn [fmap option_fmap option_map sqlite.one_row].
  unfold scanTask. cbn [fst snd tr_status taskArgs trimmed Task.Status].
  rewrite ParseStatus_ok by done. cbn.
  destruct req as [? ? ? ? ? [] [] ? ?]; reflexivity.
Qed.

(** *** Every operation keeps the database consistent *)

Ltac step_exec :=
  match goal with
  | |- context [sqlite.exec ?st ?d] =>
      let H := fresh "Hstep" in
      pose proof (exec_consistent st d) as H;
      destruct (sqlite.exec st d) as [[?|?] ?]; cbn [snd fst] in H |- *
  end.

Ltac run_store :=
  cbn [ExecContext QueryContext sqlite_db];
  repeat first
    [ step_exec
    | match goal with
      | |- context [if ?b then _ else _] => destruct b
      | |- context [match ?x with Ok _ => _ | Err _ => _ end] => destruct x
      end ];
  cbn [snd]; auto.

Lemma UpsertGroup_consistent (now id : Z) (name : string) (db : DB) :
  consistent db -> consistent (UpsertGroup now id name db).2.
Proof. intros Hc. unfold UpsertGroup. run_store. Qed.

Lemma DeleteGroup_consistent (id : Z) (db : DB) :
  consistent db -> consistent (DeleteGroup id db).2.
Proof. intros Hc. unfold DeleteGroup. run_store. Qed.

Lemma UpsertTask_consistent (now : Z) (req : Task.t) (db : DB) :
  consistent db -> consistent (UpsertTask now req db).2.
Proof. intros Hc. unfold UpsertTask. run_store. Qed.

Lemma DeleteTask_consistent (id : Z) (db : DB) :
  consistent db -> consistent (DeleteTask id db).2.
Proof. intros Hc. unfold DeleteTask. run_store. Qed.

Lemma setSetting_consistent (k v : string) (db : DB) :
  consistent db -> consistent (setSetting k v db).2.
Proof. intros Hc. unfold setSetting. run_store. Qed.

Lemma SetLastWaterReminderAt_consistent (t : Z) (db : DB) :
  consistent db -> consistent (SetLastWaterReminderAt t db).2.
Proof. intros Hc. by apply setSetting_consistent. Qed.

Lemma ensureDefaultGroup_consistent (now : Z) (db : DB) :
  consistent db -> consistent (ensureDefaultGroup now db).2.
Proof. intros Hc. unfold ensureDefaultGroup. run_store. Qed.

Lemma ensureDefaultSettings_range_consistent (kvs : list (string * string)) (db : DB) :
  consistent db -> consistent (ensureDefaultSettings_range kvs db).2.
Proof.
  revert db. induction kvs as [|[k v] kvs IH]; intros db Hc; [done|].
  cbn [ensureDefaultSettings_range ExecContext sqlite_db].
  step_exec; auto.
Qed.

Lemma ensureDefaults_consistent (now : Z) (db : DB) :
  consistent db -> consistent (ensureDefaults now db).2.
Proof.
  intros Hc. unfold ensureDefaults, ensureDefaultSettings.
  pose proof (ensureDefaultSettings_range_consistent defaults db Hc) as H.
  destruct (ensureDefaultSettings_range defaults db) as [[?|?] db']; cbn [snd] in *.
  - by apply ensureDefaultGroup_consistent.
  - done.
Qed.

Section Reachable.
Context {tables : CaseTables}.

Lemma SetSettings_consistent (st : Settings.t) (db : DB) :
  consistent db -> consistent (SetSettings st db).2.
Proof.
  intros Hc. unfold SetSettings.
  repeat match goal with
         | |- context [setSetting ?k ?v ?d] =>
             let H := fresh "Hs" in
             pose proof (setSetting_consistent k v d) as H;
             destruct (setSetting k v d) as [[?|?] ?]; cbn [snd] in H |- *
         end; auto.
Qed.

(** The databases the store can hold: the file [Open] creates, and what
    the operations of the store make of it. *)
Inductive reachable : DB -> Prop :=
  | reach_Open now :
      reachable (ensureDefaults now empty_db).2
  | reach_reopen now db :
      reachable db -> reachable (ensureDefaults now db).2
  | reach_UpsertGroup now id name db :
      reachable db -> reachable (UpsertGroup now id name db).2
  | reach_DeleteGroup id db :
      reachable db -> reachable (DeleteGroup id db).2
  | reach_UpsertTask now req db :
      reachable db -> reachable (UpsertTask now req db).2
  | reach_DeleteTask id db :
      reachable db -> reachable (DeleteTask id db).2
  | reach_SetSettings st db :
      reachable db -> reachable (SetSettings st db).2
  | reach_SetLastWaterReminderAt t db :
      reachable db -> reachable (SetLastWaterReminderAt t db).2.

Lemma reachable_consistent (db : DB) : reachable db -> consistent db.
Proof.
  induction 1;
    auto using ensureDefaults_consistent, empty_db_consistent,
      UpsertGroup_consistent, DeleteGroup_consistent, UpsertTask_consistent,
      DeleteTask_consistent, SetSettings_consistent,
      SetLastWaterReminderAt_consistent.
Qed.

End Reachable.

(** ** The claims *)

(** The database of a new file after [Open] at clock reading 1000. *)
Definition fresh_db : DB := (ensureDefaults 1000 empty_db).2.

Lemma validName_Work : validName "Work".
Proof. split; by vm_compute. Qed.

(** The errors that report a problem of the caller's input. *)
Definition validationError (e : error) : Prop :=
  match e with
  | ErrGroupNameEmpty | ErrGroupNameTooLong _ | ErrInvalidGroupID
  | ErrSelectGroup | ErrTaskTitleEmpty | ErrTaskTitleTooLong _
  | ErrTaskContentTooLong _ | ErrInvalidStatus _ | ErrInvalidTaskID => True
  | _ => False
  end.

Section Generic.
Context {D : Type} {E : SqlDB D}.

Lemma UpsertGroup_validated (now id : Z) (name : string) (s : D) :
  validName name ->
  UpsertGroup now id name s =
  let n := strings.TrimSpace name in
  if id =? 0 then
    match ExecContext (InsertGroup n now now) s with
    | (Err err, s) =>
        if sqliteIsConstraint err sqlitelib.SQLITE_CONSTRAINT_UNIQUE then
          (Err ErrGroupNameExists, s)
        else (Err (Wrapped "create group" err), s)
    | (Ok res, s) => (Ok (Group.mk (LastInsertId res) n now now), s)
    end
  else
    match ExecContext (UpdateGroup n now id) s with
    | (Err err, s) =>
        if sqliteIsConstraint err sqlitelib.SQLITE_CONSTRAINT_UNIQUE then
          (Err ErrGroupNameExists, s)
        else (Err (Wrapped "update group" err), s)
    | (Ok res, s) =>
        if RowsAffected res =? 0 then (Err (ErrGroupNotFound id), s)
        else
          match QueryContext (SelectGroupWhere id) s with
          | Err err => (Err (Wrapped "reload group" err), s)
          | Ok row => (Ok (scanGroup row), s)
          end
    end.
Proof. intros Hv. valid_name Hv. reflexivity. Qed.

(** The statements of [UpsertTask] once the request has passed the
    checks. *)
Definition UpsertTask_write (now : Z) (req : Task.t) (s : D)
    : result Task.t * D :=
  if Task.ID req =? 0 then
    match ExecContext (InsertTask (taskArgs req now)) s with
    | (Err err, s) => (Err (Wrapped "create task" err), s)
    | (Ok res, s) =>
        (Ok (Task.mk (LastInsertId res) (Task.GroupID req) (Task.Title req)
               (Task.Content req) (Task.Status req) (Task.Important req)
               (Task.Urgent req) now now), s)
    end
  else
    match ExecContext (UpdateTask (taskArgs req now) (Task.ID req)) s with
    | (Err err, s) => (Err (Wrapped "update task" err), s)
    | (Ok res, s) =>
        if RowsAffected res =? 0 then (Err (ErrTaskNotFound (Task.ID req)), s)
        else
          match QueryContext (SelectTaskWhere (Task.ID req)) s with
          | Err err => (Err (Wrapped "reload task" err), s)
          | Ok row =>
              match scanTask row with
              | Err err => (Err err, s)
              | Ok t => (Ok t, s)
              end
          end
    end.

Lemma UpsertTask_validated (now : Z) (req : Task.t) (s : D) :
  0 < Task.GroupID req ->
  groupExists (Task.GroupID req) s = Ok true ->
  validFields req ->
  UpsertTask now req s = UpsertTask_write now (trimmed req) s.
Proof.
  intros Hpos Hex [Htne Htl Hcl Hst]. unfold UpsertTask.
  cbn [Task.GroupID Task.Title Task.Content Task.Status Task.ID].
  destruct (Z.leb_spec (Task.GroupID req) 0); [lia|].
  rewrite Hex. cbn [negb]. rewrite string_eqb_neq by done.
  destruct (Z.ltb_spec maxTaskTitleRunes
              (utf8.RuneCountInString (strings.TrimSpace (Task.Title req))));
    [lia|].
  destruct (Z.ltb_spec maxTaskContentRunes
              (utf8.RuneCountInString (strings.TrimSpace (Task.Content req))));
    [lia|].
  rewrite ParseStatus_ok by done. reflexivity.
Qed.

(** The checks of [UpsertTask], in the order the source makes them: each
    line holds whatever the fields checked later are. *)
Lemma UpsertTask_checks (now : Z) (req : Task.t) (s : D) :
  let gid := Task.GroupID req in
  let title := strings.TrimSpace (Task.Title req) in
  let content := strings.TrimSpace (Task.Content req) in
  (gid <= 0 -> UpsertTask now req s = (Err ErrSelectGroup, s))
  /\ (0 < gid -> groupExists gid s = Ok false ->
      UpsertTask now req s = (Err (ErrGroupNotFound gid), s))
  /\ (0 < gid -> groupExists gid s = Ok true -> title = EmptyString ->
      UpsertTask now req s = (Err ErrTaskTitleEmpty, s))
  /\ (0 < gid -> groupExists gid s = Ok true -> title <> EmptyString ->
      maxTaskTitleRunes < utf8.RuneCountInString title ->
      UpsertTask now req s = (Err (ErrTaskTitleTooLong maxTaskTitleRunes), s))
  /\ (0 < gid -> groupExists gid s = Ok true -> title <> EmptyString ->
      utf8.RuneCountInString title <= maxTaskTitleRunes ->
      maxTaskContentRunes < utf8.RuneCountInString content ->
      UpsertTask now req s
      = (Err (ErrTaskContentTooLong maxTaskContentRunes), s))
  /\ (0 < gid -> groupExists gid s = Ok true -> title <> EmptyString ->
      utf8.RuneCountInString title <= maxTaskTitleRunes ->
      utf8.RuneCountInString content <= maxTaskContentRunes ->
      forall e, ParseStatus (Task.Status req) = Err e ->
      UpsertTask now req s = (Err (ErrInvalidStatus (Task.Status req)), s)).
Proof.
  cbn zeta. unfold UpsertTask.
  cbn [Task.GroupID Task.Title Task.Content Task.Status Task.ID].
  split_and!.
  - intros Hg. by destruct (Z.leb_spec (Task.GroupID req) 0); [|lia].
  - intros Hg ->. by destruct (Z.leb_spec (Task.GroupID req) 0); [lia|].
  - intros Hg -> ->. by destruct (Z.leb_spec (Task.GroupID req) 0); [lia|].
  - intros Hg -> Hne Hl. destruct (Z.leb_spec (Task.GroupID req) 0); [lia|].
    cbn [negb]. rewrite string_eqb_neq by done.
    by destruct (Z.ltb_spec maxTaskTitleRunes
                   (utf8.RuneCountInString (strings.TrimSpace (Task.Title req))));
      [|lia].
  - intros Hg -> Hne Hl Hc. destruct (Z.leb_spec (Task.GroupID req) 0); [lia|].
    cbn [negb]. rewrite string_eqb_neq by done.
    destruct (Z.ltb_spec maxTaskTitleRunes
                (utf8.RuneCountInString (strings.TrimSpace (Task.Title req))));
      [lia|].
    by destruct (Z.ltb_spec maxTaskContentRunes
                   (utf8.RuneCountInString (strings.TrimSpace (Task.Content req))));
      [|lia].
  - intros Hg -> Hne Hl Hc e He. destruct (Z.leb_spec (Task.GroupID req) 0); [lia|].
    cbn [negb]. rewrite string_eqb_neq by done.
    destruct (Z.ltb_spec maxTaskTitleRunes
                (utf8.RuneCountInString (strings.TrimSpace (Task.Title req))));
      [lia|].
    destruct (Z.ltb_spec maxTaskContentRunes
                (utf8.RuneCountInString (strings.TrimSpace (Task.Content req))));
      [lia|].
    rewrite He. by apply ParseStatus_inv in He as [-> _].
Qed.

Lemma groupExists_result (id : Z) (s : D) (e : error) :
  groupExists id s = Err e -> exists inner, e = Wrapped "check group exists" inner.
Proof.
  unfold groupExists. destruct (QueryContext _ s) as [|err]; [done|].
  destruct (errors_Is.ErrNoRows err); [done|]. intros [= <-]. eauto.
Qed.

Lemma scanTask_result (row : Z * TaskRow) (e : error) :
  scanTask row = Err e -> exists inner, e = Wrapped "parse task status" inner.
Proof.
  unfold scanTask. destruct (ParseStatus _); [done|]. intros [= <-]. eauto.
Qed.

(** Whatever the handle does, a validation error leaves its state as it
    was: no statement has run. *)
Lemma UpsertGroup_validation_pure (now id : Z) (name : string) (s : D) (e : error) :
  (UpsertGroup now id name s).1 = Err e -> validationError e ->
  (UpsertGroup now id name s).2 = s.
Proof.
  unfold UpsertGroup.
  repeat match goal with
         | |- context [if ?b then _ else _] => destruct b; cbn [fst snd]
         | |- context [ExecContext ?st ?d] => destruct (ExecContext st d) as [[?|?] ?]
         | |- context [QueryContext ?q ?d] => destruct (QueryContext q d)
         end;
    try done; intros [= <-]; try done.
Qed.

Lemma UpsertTask_validation_pure (now : Z) (req : Task.t) (s : D) (e : error) :
  (UpsertTask now req s).1 = Err e ->
  validationError e \/ (exists g, e = ErrGroupNotFound g) ->
  (UpsertTask now req s).2 = s.
Proof.
  unfold UpsertTask.
  cbn [Task.GroupID Task.Title Task.Content Task.Status Task.ID].
  destruct (_ <=? 0); [done|].
  destruct (groupExists _ s) as [ok|err] eqn:Hex; [|done].
  destruct ok; cbn [negb]; [|done].
  repeat match goal with
         | |- context [if ?b then _ else _] => destruct b; cbn [fst snd]
         end; try done.
  all: destruct (ParseStatus _); [|done].
  all: repeat match goal with
         | |- context [if ?b then _ else _] => destruct b; cbn [fst snd]
         | |- context [ExecContext ?st ?d] => destruct (ExecContext st d) as [[?|?] ?]
         | |- context [QueryContext ?q ?d] => destruct (QueryContext q d)
         | |- context [scanTask ?r] =>
             let H := fresh in
             destruct (scanTask r) eqn:H;
             [|apply scanTask_result in H as [? ->]]
         end; try done.
  all: intros [= <-]; intros [Hv|[g Hg]]; done.
Qed.

Lemma Delete_validation_pure (id : Z) (s : D) :
  (id <= 0 -> DeleteGroup id s = (Err ErrInvalidGroupID, s)
              /\ DeleteTask id s = (Err ErrInvalidTaskID, s))
  /\ (forall e, (DeleteGroup id s).1 = Err e -> validationError e ->
                (DeleteGroup id s).2 = s)
  /\ (forall e, (DeleteTask id s).1 = Err e -> validationError e ->
                (DeleteTask id s).2 = s).
Proof.
  unfold DeleteGroup, DeleteTask. split_and!.
  - intros Hid. by destruct (Z.leb_spec id 0); [|lia].
  - intros e. destruct (id <=? 0); [done|].
    destruct (ExecContext _ s) as [[res|err] s']; cbn [fst snd].
    + destruct (RowsAffected res =? 0); [|done]. by intros [= <-].
    + by intros [= <-].
  - intros e. destruct (id <=? 0); [done|].
    destruct (ExecContext _ s) as [[res|err] s']; cbn [fst snd].
    + destruct (RowsAffected res =? 0); [|done]. by intros [= <-].
    + by intros [= <-].
Qed.

End Generic.

Lemma sqliteIsConstraint_true (err : error) (code : Z) :
  sqliteIsConstraint err code = true <-> errors.As_sqlite err = Some code.
Proof.
  unfold sqliteIsConstraint. destruct (errors.As_sqlite err) as [c|].
  - rewrite Z.eqb_eq. split; congruence.
  - split; discriminate.
Qed.

(** C2: [UpsertGroup] reports a name that another group holds as the
    duplicate-name error, on insert and on update; renaming a group to the
    name it has succeeds; and over any database handle the duplicate-name
    error is returned exactly when the group's write fails with an SQLite
    error of code [SQLITE_CONSTRAINT_UNIQUE]. *)
Theorem UpsertGroup_duplicate_name :
  (* a second insert of the name of a group just inserted *)
  (forall now1 now2 name db g db1,
      UpsertGroup now1 0 name db = (Ok g, db1) ->
      UpsertGroup now2 0 name db1 = (Err ErrGroupNameExists, db1))
  (* an insert of a name some group holds *)
  /\ (forall now name db k r,
         validName name -> groups db !! k = Some r ->
         gr_name r = strings.TrimSpace name ->
         UpsertGroup now 0 name db = (Err ErrGroupNameExists, db))
  (* an update of a group to the name another group holds *)
  /\ (forall now id name db old other r,
         validName name -> id <> 0 -> groups db !! id = Some old ->
         other <> id -> groups db !! other = Some r ->
         gr_name r = strings.TrimSpace name ->
         UpsertGroup now id name db = (Err ErrGroupNameExists, db))
  (* an update of a group to its own name *)
  /\ (forall now id name db old,
         consistent db -> validName name -> groups db !! id = Some old ->
         gr_name old = strings.TrimSpace name ->
         UpsertGroup now id name db =
         (Ok (Group.mk id (gr_name old) (gr_created_at old) now),
          with_groups db
            (<[id := {| gr_name := gr_name old;
                        gr_created_at := gr_created_at old;
                        gr_updated_at := now |}]> (groups db))
            (groups_seq db)))
  (* the mapping of the write's error, over any database handle *)
  /\ (forall (D : Type) (E : SqlDB D) now id name (s : D),
         let n := strings.TrimSpace name in
         let stmt := if id =? 0 then InsertGroup n now now
                     else UpdateGroup n now id in
         (UpsertGroup now id name s).1 = Err ErrGroupNameExists <->
         validName name /\
         exists err, (ExecContext stmt s).1 = Err err /\
                     errors.As_sqlite err
                     = Some sqlitelib.SQLITE_CONSTRAINT_UNIQUE).
Proof.
  assert (forall now name db k r,
             validName name -> groups db !! k = Some r ->
             gr_name r = strings.TrimSpace name ->
             UpsertGroup now 0 name db = (Err ErrGroupNameExists, db)) as Hins.
  { intros now name db k r Hv Hk Hn. apply UpsertGroup_insert_dup; [done|].
    apply name_taken_iff. by exists k, r. }
  split_and!.
  - intros now1 now2 name db g db1 H1.
    assert (validName name) as Hv.
    { revert H1. unfold UpsertGroup, validName.
      destruct (string_eqb _ _) eqn:He; [done|].
      destruct (Z.ltb_spec maxGroupNameRunes
                  (utf8.RuneCountInString (strings.TrimSpace name))); [done|].
      intros _. split; [|done]. intros Hn. by rewrite Hn in He. }
    destruct (decide (sqlite.name_taken (strings.TrimSpace name) None (groups db)))
      as [Ht|Hf].
    + by rewrite UpsertGroup_insert_dup in H1.
    + rewrite UpsertGroup_insert_ok in H1 by done. injection H1 as _ <-.
      eapply (Hins now2 name _ (sqlite.next_rowid (groups db) (groups_seq db)));
        [done|cbn; apply lookup_insert_eq|done].
  - exact Hins.
  - intros now id name db old other r Hv Hid Hold Hne Hother Hn.
    eapply UpsertGroup_update_dup; [done..|].
    apply name_taken_iff. exists other, r. split_and!; [done|congruence|done].
  - intros now id name db old Hc Hv Hold Hn.
    assert (id <> 0) as Hid.
    { pose proof (group_ids_positive _ Hc id old Hold). lia. }
    rewrite (UpsertGroup_update_ok now id name db old); [by rewrite Hn|done..|].
    rewrite name_taken_iff. intros (k & r & Hk & Hne & Hkn).
    apply Hne. f_equal. apply (names_unique _ Hc k id r old); congruence.
  - intros D E now id name s n stmt. split.
    + intros Hr.
      assert (validName name) as Hv.
      { revert Hr. unfold UpsertGroup, validName.
        destruct (string_eqb _ _) eqn:He; [done|].
        destruct (Z.ltb_spec maxGroupNameRunes
                    (utf8.RuneCountInString (strings.TrimSpace name))); [done|].
        intros _. split; [|done]. intros Hn. by rewrite Hn in He. }
      split; [done|]. revert Hr. rewrite UpsertGroup_validated by done.
      cbn zeta. subst stmt n. destruct (id =? 0).
      * destruct (ExecContext _ s) as [[res|err] s']; [done|].
        destruct (sqliteIsConstraint _ _) eqn:Hcode; [|done].
        intros _. exists err. split; [done|]. by apply sqliteIsConstraint_true.
      * destruct (ExecContext _ s) as [[res|err] s'].
        -- destruct (_ =? 0); [done|]. by destruct (QueryContext _ s').
        -- destruct (sqliteIsConstraint _ _) eqn:Hcode; [|done].
           intros _. exists err. split; [done|]. by apply sqliteIsConstraint_true.
    + intros (Hv & err & Hexec & Hcode).
      apply sqliteIsConstraint_true in Hcode.
      rewrite UpsertGroup_validated by done. cbn zeta. subst stmt n.
      destruct (id =? 0);
        destruct (ExecContext _ s) as [[res|e] s']; cbn [fst] in Hexec;
        try done; injection Hexec as ->; by rewrite Hcode.
Qed.

Lemma UpsertGroup_duplicate_name_witness :
  UpsertGroup 2000 0 " Work " (UpsertGroup 1500 0 "Work" fresh_db).2
  = (Err ErrGroupNameExists, (UpsertGroup 1500 0 "Work" fresh_db).2).
Proof.
  apply (proj1 (proj2 UpsertGroup_duplicate_name) 2000 " Work "
           (UpsertGroup 1500 0 "Work" fresh_db).2 2
           {| gr_name := "Work"; gr_created_at := 1500; gr_updated_at := 1500 |}).
  - split; by vm_compute.
  - by vm_compute.
  - by vm_compute.
Defined.

(** C4: over any database handle, when [UpsertGroup], [UpsertTask],
    [DeleteGroup] or [DeleteTask] returns a validation error the state of
    the handle is the one it was called with, so no statement has run; and
    [UpsertTask] checks the group id, the group's existence, the title, the
    title's length, the content's length and the status, in this order. *)
Theorem validation_before_write :
  forall (D : Type) (E : SqlDB D) (s : D),
    (forall now id name e,
        (UpsertGroup now id name s).1 = Err e -> validationError e ->
        (UpsertGroup now id name s).2 = s)
    /\ (forall now req e,
           (UpsertTask now req s).1 = Err e ->
           validationError e \/ (exists g, e = ErrGroupNotFound g) ->
           (UpsertTask now req s).2 = s)
    /\ (forall id e,
           (DeleteGroup id s).1 = Err e -> validationError e ->
           (DeleteGroup id s).2 = s)
    /\ (forall id e,
           (DeleteTask id s).1 = Err e -> validationError e ->
           (DeleteTask id s).2 = s)
    /\ (forall now req,
           let gid := Task.GroupID req in
           let title := strings.TrimSpace (Task.Title req) in
           let content := strings.TrimSpace (Task.Content req) in
           (gid <= 0 -> UpsertTask now req s = (Err ErrSelectGroup, s))
           /\ (0 < gid -> groupExists gid s = Ok false ->
               UpsertTask now req s = (Err (ErrGroupNotFound gid), s))
           /\ (0 < gid -> groupExists gid s = Ok true ->
               title = EmptyString ->
               UpsertTask now req s = (Err ErrTaskTitleEmpty, s))
           /\ (0 < gid -> groupExists gid s = Ok true ->
               title <> EmptyString ->
               maxTaskTitleRunes < utf8.RuneCountInString title ->
               UpsertTask now req s
               = (Err (ErrTaskTitleTooLong maxTaskTitleRunes), s))
           /\ (0 < gid -> groupExists gid s = Ok true ->
               title <> EmptyString ->
               utf8.RuneCountInString title <= maxTaskTitleRunes ->
               maxTaskContentRunes < utf8.RuneCountInString content ->
               UpsertTask now req s
               = (Err (ErrTaskContentTooLong maxTaskContentRunes), s))
           /\ (0 < gid -> groupExists gid s = Ok true ->
               title <> EmptyString ->
               utf8.RuneCountInString title <= maxTaskTitleRunes ->
               utf8.RuneCountInString content <= maxTaskContentRunes ->
               forall e, ParseStatus (Task.Status req) = Err e ->
               UpsertTask now req s
               = (Err (ErrInvalidStatus (Task.Status req)), s))).
Proof.
  intros D E s. split_and!.
  - intros. by eapply UpsertGroup_validation_pure.
  - intros. by eapply UpsertTask_validation_pure.
  - intros. by eapply (proj1 (proj2 (Delete_validation_pure _ _))).
  - intros. by eapply (proj2 (proj2 (Delete_validation_pure _ _))).
  - intros now req. apply UpsertTask_checks.
Qed.

Lemma validation_before_write_witness :
  (UpsertTask 5 (Task.mk 0 1 "   " "" "archived" false false 0 0) fresh_db).2
  = fresh_db.
Proof.
  apply (proj1 (proj2 (validation_before_write DB sqlite_db fresh_db))
           5 (Task.mk 0 1 "   " "" "archived" false false 0 0)
           ErrTaskTitleEmpty).
  - by vm_compute.
  - by left.
Defined.

(** C7: an update or a delete whose id matches no row fails with the
    not-found error; over any database handle the error is read off the
    zero count of rows the write affected, with no read of the row before
    it; and the deletes reject an id that is not positive before any
    statement. *)
Theorem not_found_by_rows_affected :
  (forall now id name db,
      validName name -> 0 < id -> groups db !! id = None ->
      UpsertGroup now id name db = (Err (ErrGroupNotFound id), db))
  /\ (forall now req db,
         validTask db req -> 0 < Task.ID req ->
         tasks db !! Task.ID req = None ->
         UpsertTask now req db = (Err (ErrTaskNotFound (Task.ID req)), db))
  /\ (forall id db,
         0 < id -> groups db !! id = None ->
         DeleteGroup id db = (Err (ErrGroupNotFound id), db))
  /\ (forall id db,
         0 < id -> tasks db !! id = None ->
         DeleteTask id db = (Err (ErrTaskNotFound id), db))
  /\ (forall (D : Type) (E : SqlDB D) (s s' : D) (res : ExecResult),
         RowsAffected res = 0 ->
         (forall now id name,
             validName name -> id <> 0 ->
             ExecContext (UpdateGroup (strings.TrimSpace name) now id) s
             = (Ok res, s') ->
             UpsertGroup now id name s = (Err (ErrGroupNotFound id), s'))
         /\ (forall now req,
                0 < Task.GroupID req ->
                groupExists (Task.GroupID req) s = Ok true ->
                validFields req -> Task.ID req <> 0 ->
                ExecContext
                  (UpdateTask (taskArgs (trimmed req) now) (Task.ID req)) s
                = (Ok res, s') ->
                UpsertTask now req s = (Err (ErrTaskNotFound (Task.ID req)), s'))
         /\ (forall id,
                0 < id -> ExecContext (DeleteGroupWhere id) s = (Ok res, s') ->
                DeleteGroup id s = (Err (ErrGroupNotFound id), s'))
         /\ (forall id,
                0 < id -> ExecContext (DeleteTaskWhere id) s = (Ok res, s') ->
                DeleteTask id s = (Err (ErrTaskNotFound id), s')))
  /\ (forall (D : Type) (E : SqlDB D) (s : D) id,
         id <= 0 ->
         DeleteGroup id s = (Err ErrInvalidGroupID, s)
         /\ DeleteTask id s = (Err ErrInvalidTaskID, s)).
Proof.
  split_and!.
  - intros. apply UpsertGroup_update_missing; [done|lia|done].
  - intros. apply UpsertTask_update_missing; [done|lia|done].
  - intros id db Hid Hnone. unfold DeleteGroup.
    destruct (Z.leb_spec id 0); [lia|].
    cbn [ExecContext sqlite_db sqlite.exec]. by rewrite Hnone.
  - intros id db Hid Hnone. unfold DeleteTask.
    destruct (Z.leb_spec id 0); [lia|].
    cbn [ExecContext sqlite_db sqlite.exec]. by rewrite Hnone.
  - intros D E s s' res Hres. split_and!.
    + intros now id name Hv Hid Hexec. rewrite UpsertGroup_validated by done.
      cbn zeta. destruct (Z.eqb_spec id 0); [done|].
      by rewrite Hexec, Hres.
    + intros now req Hg Hex Hv Hid Hexec.
      rewrite UpsertTask_validated by done. unfold UpsertTask_write.
      cbn [trimmed Task.ID]. destruct (Z.eqb_spec (Task.ID req) 0); [done|].
      cbn [trimmed Task.ID] in Hexec. by rewrite Hexec, Hres.
    + intros id Hid Hexec. unfold DeleteGroup.
      destruct (Z.leb_spec id 0); [lia|]. by rewrite Hexec, Hres.
    + intros id Hid Hexec. unfold DeleteTask.
      destruct (Z.leb_spec id 0); [lia|]. by rewrite Hexec, Hres.
  - intros D E s id Hid. by apply Delete_validation_pure.
Qed.

Lemma not_found_by_rows_affected_witness :
  UpsertGroup 2000 7 "Work" fresh_db = (Err (ErrGroupNotFound 7), fresh_db).
Proof.
  apply (proj1 not_found_by_rows_affected 2000 7 "Work" fresh_db).
  - split; by vm_compute.
  - lia.
  - by vm_compute.
Defined.

Section NegativeIds.
Context {tables : CaseTables}.

(** C10: in every database the store can hold no row has a negative id, so
    [UpsertGroup] and [UpsertTask] with a negative id and input that is
    valid otherwise take the update path, fail with the not-found error
    and leave the database as it was. *)
Theorem negative_id_not_found (db : DB) (now id : Z) :
  reachable db -> id < 0 ->
  (forall name,
      validName name ->
      UpsertGroup now id name db = (Err (ErrGroupNotFound id), db))
  /\ (forall req,
         Task.ID req = id -> validTask db req ->
         UpsertTask now req db = (Err (ErrTaskNotFound id), db)).
Proof.
  intros Hr Hid. apply reachable_consistent in Hr as Hc. split.
  - intros name Hv. apply UpsertGroup_update_missing; [done|lia|].
    destruct (groups db !! id) as [r|] eqn:Hk; [|done].
    pose proof (group_ids_positive _ Hc id r Hk). lia.
  - intros req <- Hv. apply UpsertTask_update_missing; [done|lia|].
    destruct (tasks db !! Task.ID req) as [r|] eqn:Hk; [|done].
    pose proof (task_ids_positive _ Hc _ r Hk). lia.
Qed.

End NegativeIds.

Lemma negative_id_not_found_witness :
  UpsertGroup 2000 (-3) "Work" fresh_db = (Err (ErrGroupNotFound (-3)), fresh_db)
  /\ UpsertTask 2000 (Task.mk (-3) 1 "Buy milk" "" "todo" true false 0 0) fresh_db
     = (Err (ErrTaskNotFound (-3)), fresh_db).
Proof.
  pose proof (negative_id_not_found (tables := caselessTables) fresh_db 2000 (-3)
                (reach_Open 1000) ltac:(lia)) as [Hg Ht].
  split.
  - apply Hg. split; by vm_compute.
  - apply (Ht (Task.mk (-3) 1 "Buy milk" "" "todo" true false 0 0));
      [reflexivity|].
    split; [by vm_compute|eexists; by vm_compute|].
    split; [by vm_compute..|]. by left.
Defined.

(** *** Settings *)

Lemma with_settings_id (db : DB) : with_settings db (settings db) = db.
Proof. by destruct db. Qed.

Lemma setSetting_sqlite (k v : string) (db : DB) :
  setSetting k v db = (Ok tt, with_settings db (<[k := v]> (settings db))).
Proof. reflexivity. Qed.

Section ViewMode.
Context {tables : CaseTables}.

Lemma SetSettings_sqlite (st : Settings.t) (db : DB) :
  SetSettings st db =
  (Ok tt,
   with_settings db
     (<["conciseMode" := boolTo01 (Settings.ConciseMode st)]>
        (<["viewMode" := normalizeViewMode (Settings.ViewMode st)]>
           (<["hideDone" := boolTo01 (Settings.HideDone st)]>
              (<["alwaysOnTop" := boolTo01 (Settings.AlwaysOnTop st)]>
                 (settings db)))))).
Proof. reflexivity. Qed.

(** [normalizeViewMode] answers ["list"] for the values that are ["list"]
    once lower-cased and trimmed, and ["cards"] for every other value. *)
Lemma normalizeViewMode_spec (v : string) :
  normalizeViewMode v =
  if string_eqb (strings.TrimSpace (strings.ToLower v)) "list"
  then "list" else "cards".
Proof.
  unfold normalizeViewMode.
  set (w := strings.TrimSpace (strings.ToLower v)).
  destruct (string_eqb w "list") eqn:Hl.
  - apply string_eqb_eq in Hl. rewrite Hl. reflexivity.
  - cbn [orb]. destruct (_ <? _); [done|].
    destruct (string_eqb w "cards") eqn:Hc; [|done].
    by apply string_eqb_eq in Hc.
Qed.

Lemma normalizeViewMode_range (v : string) :
  normalizeViewMode v = "list" \/ normalizeViewMode v = "cards".
Proof. rewrite normalizeViewMode_spec. destruct (string_eqb _ _); auto. Qed.

(** C1: [GetSettings] reads the stored [viewMode] through
    [normalizeViewMode], which answers ["list"] when the value, lower-cased
    and trimmed of white space, is ["list"], and ["cards"] otherwise (so for
    every value longer than 20 runes once lower-cased and trimmed);
    ["list"] and ["cards"] are read unchanged, and [SetSettings] stores the
    same normalization of its [ViewMode] field. *)
Theorem viewMode_normalized (db : DB) :
  (exists st,
      GetSettings db = Ok st /\
      Settings.ViewMode st =
      match settings db !! "viewMode" with
      | Some v => normalizeViewMode v
      | None => "cards"
      end)
  /\ (forall v,
         normalizeViewMode v =
         if string_eqb (strings.TrimSpace (strings.ToLower v)) "list"
         then "list" else "cards")
  /\ normalizeViewMode "list" = "list"
  /\ normalizeViewMode "cards" = "cards"
  /\ (forall v,
         maxViewModeRunes
         < utf8.RuneCountInString (strings.TrimSpace (strings.ToLower v)) ->
         normalizeViewMode v = "cards")
  /\ (forall st,
         exists db',
           SetSettings st db = (Ok tt, db') /\
           settings db' !! "viewMode"
           = Some (normalizeViewMode (Settings.ViewMode st))).
Proof.
  split_and!.
  - eexists. split; [apply GetSettings_sqlite|].
    cbn. by destruct (settings db !! "viewMode").
  - apply normalizeViewMode_spec.
  - reflexivity.
  - reflexivity.
  - intros v Hlong. unfold normalizeViewMode.
    by destruct (Z.ltb_spec maxViewModeRunes
                   (utf8.RuneCountInString
                      (strings.TrimSpace (strings.ToLower v)))); [|lia].
  - intros st. eexists. split; [apply SetSettings_sqlite|].
    cbn [settings with_settings]. by rewrite lookup_insert_ne, lookup_insert_eq.
Qed.

End ViewMode.

Lemma viewMode_normalized_witness :
  normalizeViewMode (tables := caselessTables)
    "a view mode name of more than twenty runes" = "cards".
Proof.
  apply (proj1 (proj2 (proj2 (proj2 (proj2
           (viewMode_normalized (tables := caselessTables) fresh_db)))))).
  by vm_compute.
Defined.

(** A stored [viewMode] that is neither ["list"] nor ["cards"] and is not
    read as ["cards"]: the value ["LIST"] is read as ["list"], whatever the
    case tables. *)
Lemma viewMode_LIST_reads_list :
  let db := with_settings empty_db {[ "viewMode" := "LIST" ]} in
  settings db !! "viewMode" = Some "LIST"
  /\ "LIST" <> "list" /\ "LIST" <> "cards"
  /\ (forall tables : CaseTables,
         GetSettings db = Ok (Settings.mk false true "list" false "")).
Proof.
  cbn zeta. split_and!; [reflexivity|discriminate|discriminate|].
  intros tables. rewrite GetSettings_sqlite. reflexivity.
Qed.

Section BoolSettings.
Context {tables : CaseTables}.

Lemma settingIsTrue_spec (v : string) :
  settingIsTrue v = true <-> v = "1" \/ strings.lowerASCII v = "true".
Proof.
  unfold settingIsTrue. rewrite orb_true_iff, string_eqb_eq.
  by rewrite (EqualFold_plain_lower "true" plain_lower_true).
Qed.

(** C9: [GetSettings] reads a stored [alwaysOnTop], [hideDone] or
    [conciseMode] as true exactly when the value is ["1"] or is ["true"]
    up to the case of its ASCII letters; ["0"], ["yes"] and [" true"] read
    as false. *)
Theorem bool_setting_read (db : DB) :
  exists st,
    GetSettings db = Ok st
    /\ (forall v, settings db !! "alwaysOnTop" = Some v ->
                  Settings.AlwaysOnTop st = true
                  <-> v = "1" \/ strings.lowerASCII v = "true")
    /\ (forall v, settings db !! "hideDone" = Some v ->
                  Settings.HideDone st = true
                  <-> v = "1" \/ strings.lowerASCII v = "true")
    /\ (forall v, settings db !! "conciseMode" = Some v ->
                  Settings.ConciseMode st = true
                  <-> v = "1" \/ strings.lowerASCII v = "true")
    /\ settingIsTrue "0" = false /\ settingIsTrue "yes" = false
    /\ settingIsTrue " true" = false /\ settingIsTrue "TRUE" = true
    /\ settingIsTrue "1" = true.
Proof.
  eexists. split; [apply GetSettings_sqlite|].
  unfold readSettings. cbn [Settings.AlwaysOnTop Settings.HideDone Settings.ConciseMode].
  split_and!; try reflexivity.
  all: intros v ->; cbn [from_option]; apply settingIsTrue_spec.
Qed.

End BoolSettings.

Lemma bool_setting_read_witness :
  exists st,
    GetSettings (tables := caselessTables)
      (with_settings empty_db {[ "hideDone" := "True" ]}) = Ok st
    /\ Settings.HideDone st = true.
Proof.
  destruct (bool_setting_read (tables := caselessTables)
              (with_settings empty_db {[ "hideDone" := "True" ]}))
    as (st & Hget & _ & Hhide & _).
  exists st. split; [exact Hget|].
  apply (Hhide "True"); [by vm_compute|]. right. by vm_compute.
Defined.

(** *** The reminder timestamp *)

Definition lastWaterReminderAt : string := "lastWaterReminderAt".


Lemma GetLastWaterReminderAt_stored (db : DB) (v : string) :
  settings db !! lastWaterReminderAt = Some v ->
  GetLastWaterReminderAt db =
  let value := strings.TrimSpace v in
  if string_eqb value "" then Ok 0 else
  match strconv.ParseInt value with
  | (_, Some e) => Err (Wrapped "parse lastWaterReminderAt" (NumError e))
  | (ts, None) => if ts <=? 0 then Ok 0 else Ok ts
  end.
Proof.
  intros Hv. unfold GetLastWaterReminderAt.
  cbn [QueryContext sqlite_db sqlite.query]. fold lastWaterReminderAt.
  by rewrite Hv.
Qed.

Lemma SetLastWaterReminderAt_sqlite (t : Z) (db : DB) :
  SetLastWaterReminderAt t db =
  (Ok tt,
   with_settings db
     (<[lastWaterReminderAt := strconv.FormatInt (if t <=? 0 then 0 else t)]>
        (settings db))).
Proof. reflexivity. Qed.

Lemma reminder_round_trip (t : Z) (db : DB) :
  0 <= t < 2 ^ 63 ->
  GetLastWaterReminderAt (SetLastWaterReminderAt t db).2 = Ok t.
Proof.
  intros Ht. rewrite SetLastWaterReminderAt_sqlite. cbn [snd].
  erewrite GetLastWaterReminderAt_stored;
    [|cbn [settings with_settings]; apply lookup_insert_eq].
  cbn zeta.
  assert (0 <= (if t <=? 0 then 0 else t) < 2 ^ 63) as Hc
      by (destruct (Z.leb_spec t 0); lia).
  rewrite TrimSpace_digits by (apply FormatInt_digits; lia).
  rewrite string_eqb_neq by (apply FormatInt_nonempty; lia).
  rewrite ParseInt_FormatInt by done.
  destruct (Z.leb_spec t 0) as [H0|H0].
  - cbn. f_equal. lia.
  - destruct (Z.leb_spec t 0); [lia|done].
Qed.





(** *** The defaults bootstrap *)

Lemma ensureDefaultGroup_nonempty (now : Z) (db : DB) :
  groups db <> ∅ -> ensureDefaultGroup now db = (Ok tt, db).
Proof.
  intros Hne. unfold ensureDefaultGroup.
  cbn [QueryContext sqlite_db sqlite.query].
  apply map_size_non_empty_iff in Hne.
  by destruct (Z.ltb_spec 0 (Z.of_nat (size (groups db)))); [|lia].
Qed.

Lemma ensureDefaultGroup_empty (now : Z) (db : DB) :
  groups db = ∅ ->
  exists id,
    ensureDefaultGroup now db =
    (Ok tt,
     with_groups db
       {[ id := {| gr_name := defaultName; gr_created_at := now;
                   gr_updated_at := now |} ]} id).
Proof.
  intros He. unfold ensureDefaultGroup.
  cbn [QueryContext sqlite_db sqlite.query ExecContext sqlite.exec].
  rewrite He, map_size_empty. cbn [Z.of_nat Z.ltb Z.compare].
  rewrite decide_False.
  - eexists. cbn. rewrite insert_empty. reflexivity.
  - rewrite name_taken_iff. intros (k & r & Hk & _). by rewrite lookup_empty in Hk.
Qed.

Lemma ensureDefaultSettings_range_sqlite (kvs : list (string * string)) (db : DB) :
  ensureDefaultSettings_range kvs db =
  (Ok tt, with_settings db (settings db ∪ list_to_map kvs)).
Proof.
  revert db. induction kvs as [|[k v] kvs IH]; intros db.
  - cbn. by rewrite (right_id_L ∅ (∪)), with_settings_id.
  - cbn [ensureDefaultSettings_range ExecContext sqlite_db sqlite.exec].
    destruct (settings db !! k) as [old|] eqn:Hk; cbn [sqlite.done].
    + rewrite IH. do 2 f_equal. apply map_eq. intros j.
      cbn [list_to_map foldr uncurry fst snd curry].
      rewrite !lookup_union. destruct (decide (j = k)) as [->|Hne].
      * rewrite Hk. by destruct (list_to_map kvs !! k), (<[k:=v]> _ !! k).
      * by rewrite lookup_insert_ne.
    + rewrite IH. unfold with_settings. cbn [settings groups groups_seq tasks tasks_seq].
      do 2 f_equal. apply map_eq. intros j.
      cbn [list_to_map foldr uncurry fst snd curry].
      rewrite !lookup_union. destruct (decide (j = k)) as [->|Hne].
      * rewrite Hk, !lookup_insert_eq. by destruct (list_to_map kvs !! k).
      * by rewrite !lookup_insert_ne.
Qed.

Lemma defaults_NoDup : NoDup defaults.*1.
Proof. apply (bool_decide_unpack _). by vm_compute. Qed.

(** C6: the bootstrap is idempotent.  With a group present
    [ensureDefaultGroup] inserts nothing; [ensureDefaultSettings], in
    whatever order it visits its map, keeps every stored value (a stored
    ["0"] too) and stores the default of exactly the keys that are absent;
    and a second bootstrap changes nothing. *)
Theorem bootstrap_idempotent (db : DB) :
  (forall now, groups db <> ∅ -> ensureDefaultGroup now db = (Ok tt, db))
  /\ (forall kvs,
         kvs ≡ₚ defaults ->
         exists db',
           ensureDefaultSettings_range kvs db = (Ok tt, db')
           /\ ensureDefaultSettings db = (Ok tt, db')
           /\ groups db' = groups db /\ tasks db' = tasks db
           /\ (forall k v, settings db !! k = Some v ->
                           settings db' !! k = Some v)
           /\ (forall k, settings db !! k = None ->
                         settings db' !! k
                         = (list_to_map defaults : gmap string string) !! k))
  /\ (forall now k v,
         settings db !! k = Some v ->
         settings (ensureDefaults now db).2 !! k = Some v)
  /\ (forall now1 now2,
         exists db1,
           ensureDefaults now1 db = (Ok tt, db1)
           /\ ensureDefaults now2 db1 = (Ok tt, db1)).
Proof.
  assert (forall kvs, kvs ≡ₚ defaults ->
            (list_to_map kvs : gmap string string) = list_to_map defaults) as Hperm.
  { intros kvs Hp. apply list_to_map_proper; [|done].
    rewrite Hp. apply defaults_NoDup. }
  assert (forall now d, exists d',
             ensureDefaultGroup now d = (Ok tt, d')
             /\ settings d' = settings d /\ groups d' <> ∅) as Hgroup.
  { intros now d. destruct (decide (groups d = ∅)) as [He|Hne].
    - destruct (ensureDefaultGroup_empty now d He) as [id ->].
      eexists. split_and!; [done..|]. cbn. apply insert_non_empty.
    - rewrite ensureDefaultGroup_nonempty by done. eauto. }
  split_and!.
  - intros now. apply ensureDefaultGroup_nonempty.
  - intros kvs Hp. eexists. split_and!.
    + apply ensureDefaultSettings_range_sqlite.
    + unfold ensureDefaultSettings.
      rewrite ensureDefaultSettings_range_sqlite. by rewrite (Hperm kvs Hp).
    + done.
    + done.
    + intros k v Hk. cbn [settings with_settings]. rewrite lookup_union, Hk.
      by destruct (list_to_map kvs !! k).
    + intros k Hk. cbn [settings with_settings].
      rewrite lookup_union, Hk, (Hperm kvs Hp).
      by destruct (list_to_map defaults !! k).
  - intros now k v H0. unfold ensureDefaults, ensureDefaultSettings.
    rewrite ensureDefaultSettings_range_sqlite.
    destruct (Hgroup now (with_settings db (settings db ∪ list_to_map defaults)))
      as (d' & -> & Hs & _).
    cbn [snd]. rewrite Hs. cbn [settings with_settings].
    rewrite lookup_union, H0.
    by destruct (list_to_map defaults !! k).
  - intros now1 now2. unfold ensureDefaults, ensureDefaultSettings.
    rewrite ensureDefaultSettings_range_sqlite.
    destruct (Hgroup now1 (with_settings db (settings db ∪ list_to_map defaults)))
      as (d' & -> & Hs & Hne).
    exists d'. split; [done|].
    rewrite ensureDefaultSettings_range_sqlite.
    replace (with_settings d' (settings d' ∪ list_to_map defaults)) with d'.
    + by apply ensureDefaultGroup_nonempty.
    + rewrite <- (with_settings_id d') at 1. f_equal.
      rewrite Hs. cbn [settings with_settings]. apply map_eq. intros k.
      rewrite !lookup_union.
      by destruct (settings db !! k), (list_to_map defaults !! k).
Qed.

Lemma bootstrap_idempotent_witness :
  settings
    (ensureDefaults 0
       (with_settings fresh_db (<["alwaysOnTop" := "0"]> (settings fresh_db)))).2
  !! "alwaysOnTop" = Some "0".
Proof.
  apply (proj1 (proj2 (proj2 (bootstrap_idempotent
           (with_settings fresh_db
              (<["alwaysOnTop" := "0"]> (settings fresh_db))))))
           0 "alwaysOnTop" "0").
  by vm_compute.
Defined.

(** *** The order of [ListTasks] *)

(** [a] is listed before [b]: updated later, or at the same time with the
    larger id. *)
Definition task_order (a b : Task.t) : Prop :=
  Task.UpdatedAt b < Task.UpdatedAt a
  \/ (Task.UpdatedAt a = Task.UpdatedAt b /\ Task.ID b <= Task.ID a).

(** What a row of [tasks] scans into when its status is one of the three. *)
Definition rowTask (row : Z * TaskRow) : Task.t :=
  Task.mk row.1 (tr_group_id row.2) (tr_title row.2) (tr_content row.2)
    (tr_status row.2) (tr_important row.2 =? 1) (tr_urgent row.2 =? 1)
    (tr_created_at row.2) (tr_updated_at row.2).

#[export] Instance by_updated_desc_total : Total sqlite.by_updated_desc.
Proof. intros a b. unfold sqlite.by_updated_desc. lia. Qed.

#[export] Instance by_updated_desc_trans : Transitive sqlite.by_updated_desc.
Proof. intros a b c. unfold sqlite.by_updated_desc. lia. Qed.

Lemma scanTask_checked (row : Z * TaskRow) :
  sqlite.check_task row.2 = true -> scanTask row = Ok (rowTask row).
Proof.
  intros Hc. unfold scanTask, ParseStatus.
  unfold sqlite.check_task in Hc.
  apply andb_true_iff in Hc as [Hc _]. apply andb_true_iff in Hc as [Hc _].
  unfold StatusTodo, StatusDoing, StatusDone. by rewrite Hc.
Qed.

Lemma scanTasks_checked (rows : list (Z * TaskRow)) :
  Forall (fun row => sqlite.check_task row.2 = true) rows ->
  scanTasks rows = Ok (rowTask <$> rows).
Proof.
  induction 1 as [|row rows Hrow _ IH]; [done|].
  cbn [scanTasks]. by rewrite scanTask_checked, IH.
Qed.

Lemma ListTasks_sqlite (db : DB) :
  (forall id r, tasks db !! id = Some r -> sqlite.check_task r = true) ->
  ListTasks db
  = Ok (rowTask <$> merge_sort sqlite.by_updated_desc (map_to_list (tasks db))).
Proof.
  intros Hc. unfold ListTasks. cbn [QueryContext sqlite_db sqlite.query].
  apply scanTasks_checked.
  rewrite merge_sort_Permutation. apply Forall_forall.
  intros [id r] Hin. apply elem_of_map_to_list in Hin. cbn. eauto.
Qed.

Lemma boolTo01Int_eqb (b : bool) : (boolTo01Int b =? 1) = b.
Proof. by destruct b. Qed.

(** A successful [UpsertTask] had a valid request. *)
Lemma UpsertTask_Ok_valid (now : Z) (req t : Task.t) (db db' : DB) :
  UpsertTask now req db = (Ok t, db') -> validTask db req.
Proof.
  unfold UpsertTask.
  cbn [Task.GroupID Task.Title Task.Content Task.Status Task.ID].
  destruct (Z.leb_spec (Task.GroupID req) 0); [done|].
  rewrite groupExists_sqlite. case_bool_decide as Hex; cbn [negb]; [|done].
  destruct (string_eqb _ _) eqn:Hne; [done|].
  destruct (Z.ltb_spec maxTaskTitleRunes
              (utf8.RuneCountInString (strings.TrimSpace (Task.Title req))));
    [done|].
  destruct (Z.ltb_spec maxTaskContentRunes
              (utf8.RuneCountInString (strings.TrimSpace (Task.Content req))));
    [done|].
  destruct (ParseStatus (Task.Status req)) eqn:Hs; [|done].
  intros _. split; [done..|]. split; [|done..|].
  - intros E. by rewrite E in Hne.
  - revert Hs. unfold ParseStatus, string_eqb.
    repeat case_bool_decide; auto. done.
Qed.

(** The list after A, B and C were inserted in this order into a store
    without tasks and B was then updated, C's insert being no earlier than
    A's: B, C, A when the update of B reads a later clock than the insert
    of C, and C, B, A when both read the same. *)
Lemma ListTasks_three_then_update
    (db : DB) (reqA reqB reqC reqB' : Task.t) (tA tB tC tB' : Z)
    (a b c b' : Task.t) (db1 db2 db3 db4 : DB) :
  tasks db = ∅ ->
  Task.ID reqA = 0 -> Task.ID reqB = 0 -> Task.ID reqC = 0 ->
  UpsertTask tA reqA db = (Ok a, db1) ->
  UpsertTask tB reqB db1 = (Ok b, db2) ->
  UpsertTask tC reqC db2 = (Ok c, db3) ->
  Task.ID reqB' = Task.ID b ->
  UpsertTask tB' reqB' db3 = (Ok b', db4) ->
  tA <= tC ->
  (tC < tB' -> ListTasks db4 = Ok [b'; c; a])
  /\ (tC = tB' -> ListTasks db4 = Ok [c; b'; a]).
Proof.
  intros Hempty HidA HidB HidC HA HB HC HidB' HB' HtAC.
  (* the three inserts *)
  pose proof (UpsertTask_Ok_valid _ _ _ _ _ HA) as HvA.
  rewrite (UpsertTask_insert_ok tA reqA db HvA HidA) in HA.
  cbn zeta in HA. injection HA as <- <-.
  set (iA := sqlite.next_rowid (tasks db) (tasks_seq db)) in *.
  pose proof (UpsertTask_Ok_valid _ _ _ _ _ HB) as HvB.
  rewrite (UpsertTask_insert_ok tB reqB _ HvB HidB) in HB.
  cbn zeta in HB. cbn [tasks tasks_seq with_tasks] in HB.
  injection HB as <- <-.
  set (iB := sqlite.next_rowid _ iA) in *.
  pose proof (UpsertTask_Ok_valid _ _ _ _ _ HC) as HvC.
  rewrite (UpsertTask_insert_ok tC reqC _ HvC HidC) in HC.
  cbn zeta in HC. cbn [tasks tasks_seq with_tasks] in HC.
  injection HC as <- <-.
  set (iC := sqlite.next_rowid _ iB) in *.
  set (rowA := taskArgs (trimmed reqA) tA) in *.
  set (rowB := taskArgs (trimmed reqB) tB) in *.
  set (rowC := taskArgs (trimmed reqC) tC) in *.
  assert (iA < iB) as HAB.
  { apply (next_rowid_gt _ iA iA rowA). apply lookup_insert_eq. }
  assert (iA < iC /\ iB < iC) as [HAC HBC].
  { split.
    - apply (next_rowid_gt _ iB iA rowA).
      rewrite lookup_insert_ne by lia. apply lookup_insert_eq.
    - apply (next_rowid_gt _ iB iB rowB). apply lookup_insert_eq. }
  (* the update of B *)
  cbn [Task.ID] in HidB'.
  pose proof (UpsertTask_Ok_valid _ _ _ _ _ HB') as HvB'.
  assert (Task.ID reqB' <> 0) as Hne.
  { rewrite HidB'. pose proof (next_rowid_pos (<[iA:=rowA]> (tasks db)) iA).
    fold iB in H. lia. }
  rewrite (UpsertTask_update_ok tB' reqB' _ rowB HvB' Hne) in HB'.
  2:{ cbn [tasks with_tasks]. rewrite HidB'.
      rewrite lookup_insert_ne by lia. apply lookup_insert_eq. }
  cbn zeta in HB'. cbn [tasks tasks_seq with_tasks] in HB'.
  injection HB' as <- <-. rewrite HidB'.
  set (rowB' := updatedRow (trimmed reqB') tB' rowB) in *.
  (* the table and its sorted rows *)
  rewrite ListTasks_sqlite.
  2:{ intros id r. cbn [tasks with_tasks]. rewrite Hempty.
      destruct (decide (id = iB)) as [->|]; [rewrite lookup_insert_eq|
        rewrite lookup_insert_ne by done;
        destruct (decide (id = iC)) as [->|]; [rewrite lookup_insert_eq|
          rewrite lookup_insert_ne by done;
          destruct (decide (id = iB)) as [->|]; [done|
            rewrite lookup_insert_ne by done;
            destruct (decide (id = iA)) as [->|]; [rewrite lookup_insert_eq|
              rewrite lookup_insert_ne by done; by rewrite lookup_empty]]]].
      all: intros [= <-].
      - apply (check_taskArgs (trimmed reqB') tB'), HvB'.
      - apply (check_taskArgs (trimmed reqC) tC), HvC.
      - apply (check_taskArgs (trimmed reqA) tA), HvA. }
  cbn [tasks with_tasks]. rewrite Hempty.
  assert (<[iB:=rowB']> (<[iC:=rowC]> (<[iB:=rowB]> (<[iA:=rowA]> ∅)))
          = <[iB:=rowB']> (<[iC:=rowC]> (<[iA:=rowA]> (∅ : gmap Z TaskRow))))
    as ->.
  { rewrite (insert_insert_ne _ iC iB) by lia. by rewrite insert_insert_eq. }
  assert (map_to_list
            (<[iB:=rowB']> (<[iC:=rowC]> (<[iA:=rowA]> (∅ : gmap Z TaskRow))))
          ≡ₚ [(iB, rowB'); (iC, rowC); (iA, rowA)]) as Hperm.
  { rewrite map_to_list_insert.
    2:{ rewrite !lookup_insert_ne by lia. apply lookup_empty. }
    rewrite map_to_list_insert.
    2:{ rewrite lookup_insert_ne by lia. apply lookup_empty. }
    rewrite map_to_list_insert by apply lookup_empty.
    by rewrite map_to_list_empty. }
  assert (forall x1 x2,
            x1 ∈ merge_sort sqlite.by_updated_desc
                   (map_to_list
                      (<[iB:=rowB']>
                         (<[iC:=rowC]> (<[iA:=rowA]> (∅ : gmap Z TaskRow))))) ->
            x2 ∈ [(iB, rowB'); (iC, rowC); (iA, rowA)] ->
            sqlite.by_updated_desc x1 x2 -> sqlite.by_updated_desc x2 x1 ->
            x1 = x2) as Hanti.
  { intros x1 x2 H1 H2. rewrite merge_sort_Permutation, Hperm in H1.
    rewrite !elem_of_cons, elem_of_nil in H1, H2.
    unfold sqlite.by_updated_desc.
    destruct H1 as [->|[->|[->|[]]]]; destruct H2 as [->|[->|[->|[]]]];
      cbn; try done; lia. }
  split; intros HtCB.
  - (* the update of B reads a later clock than the insert of C *)
    assert (merge_sort sqlite.by_updated_desc
              (map_to_list
                 (<[iB:=rowB']>
                    (<[iC:=rowC]> (<[iA:=rowA]> (∅ : gmap Z TaskRow)))))
            = [(iB, rowB'); (iC, rowC); (iA, rowA)]) as ->.
    { apply (StronglySorted_unique_strong sqlite.by_updated_desc).
      - exact Hanti.
      - apply StronglySorted_merge_sort; apply _.
      - assert (sqlite.by_updated_desc (iB, rowB') (iC, rowC)
                /\ sqlite.by_updated_desc (iB, rowB') (iA, rowA)
                /\ sqlite.by_updated_desc (iC, rowC) (iA, rowA))
          as (H1 & H2 & H3).
        { unfold sqlite.by_updated_desc. cbn. lia. }
        apply SSorted_cons; [apply SSorted_cons; [apply SSorted_cons;
          [apply SSorted_nil|]|]|].
        + apply List.Forall_nil.
        + apply List.Forall_cons; [done|apply List.Forall_nil].
        + apply List.Forall_cons; [done|].
          apply List.Forall_cons; [done|apply List.Forall_nil].
      - by rewrite merge_sort_Permutation. }
    cbn [fmap list_fmap]. unfold rowTask.
    cbn [fst snd rowA rowB rowB' rowC taskArgs updatedRow tr_group_id tr_title
           tr_content tr_status tr_important tr_urgent tr_created_at
           tr_updated_at trimmed Task.ID Task.GroupID Task.Title Task.Content
           Task.Status Task.Important Task.Urgent].
    by rewrite !boolTo01Int_eqb.
  - (* both read the same clock: the larger id comes first *)
    assert (merge_sort sqlite.by_updated_desc
              (map_to_list
                 (<[iB:=rowB']>
                    (<[iC:=rowC]> (<[iA:=rowA]> (∅ : gmap Z TaskRow)))))
            = [(iC, rowC); (iB, rowB'); (iA, rowA)]) as ->.
    { apply (StronglySorted_unique_strong sqlite.by_updated_desc).
      - intros x1 x2 H1 H2. apply Hanti; [done|].
        rewrite !elem_of_cons, elem_of_nil in H2.
        rewrite !elem_of_cons, elem_of_nil. tauto.
      - apply StronglySorted_merge_sort; apply _.
      - assert (sqlite.by_updated_desc (iC, rowC) (iB, rowB')
                /\ sqlite.by_updated_desc (iC, rowC) (iA, rowA)
                /\ sqlite.by_updated_desc (iB, rowB') (iA, rowA))
          as (H1 & H2 & H3).
        { unfold sqlite.by_updated_desc. cbn. lia. }
        apply SSorted_cons; [apply SSorted_cons; [apply SSorted_cons;
          [apply SSorted_nil|]|]|].
        + apply List.Forall_nil.
        + apply List.Forall_cons; [done|apply List.Forall_nil].
        + apply List.Forall_cons; [done|].
          apply List.Forall_cons; [done|apply List.Forall_nil].
      - rewrite merge_sort_Permutation, Hperm. apply perm_swap. }
    cbn [fmap list_fmap]. unfold rowTask.
    cbn [fst snd rowA rowB rowB' rowC taskArgs updatedRow tr_group_id tr_title
           tr_content tr_status tr_important tr_urgent tr_created_at
           tr_updated_at trimmed Task.ID Task.GroupID Task.Title Task.Content
           Task.Status Task.Important Task.Urgent].
    by rewrite !boolTo01Int_eqb.
Qed.

(** C5: [ListTasks] returns the rows of [tasks], each once, sorted by
    [updatedAt] descending and then by [id] descending; and when A, B and C
    are inserted in this order into a store without tasks and B is then
    updated, C's insert being no earlier than A's, the list is B, C, A if
    the clock reading of B's update is later than that of C's insert, and
    C, B, A if the two readings are the same millisecond. *)
Theorem ListTasks_order (db : DB) :
  ((forall id r, tasks db !! id = Some r -> sqlite.check_task r = true) ->
   exists l,
     ListTasks db = Ok l
     /\ StronglySorted task_order l
     /\ l ≡ₚ rowTask <$> map_to_list (tasks db))
  /\ (forall reqA reqB reqC reqB' tA tB tC tB' a b c b' db1 db2 db3 db4,
         tasks db = ∅ ->
         Task.ID reqA = 0 -> Task.ID reqB = 0 -> Task.ID reqC = 0 ->
         UpsertTask tA reqA db = (Ok a, db1) ->
         UpsertTask tB reqB db1 = (Ok b, db2) ->
         UpsertTask tC reqC db2 = (Ok c, db3) ->
         Task.ID reqB' = Task.ID b ->
         UpsertTask tB' reqB' db3 = (Ok b', db4) ->
         tA <= tC -> tC < tB' ->
         ListTasks db4 = Ok [b'; c; a])
  /\ (forall reqA reqB reqC reqB' tA tB tC tB' a b c b' db1 db2 db3 db4,
         tasks db = ∅ ->
         Task.ID reqA = 0 -> Task.ID reqB = 0 -> Task.ID reqC = 0 ->
         UpsertTask tA reqA db = (Ok a, db1) ->
         UpsertTask tB reqB db1 = (Ok b, db2) ->
         UpsertTask tC reqC db2 = (Ok c, db3) ->
         Task.ID reqB' = Task.ID b ->
         UpsertTask tB' reqB' db3 = (Ok b', db4) ->
         tA <= tC -> tC = tB' ->
         ListTasks db4 = Ok [c; b'; a]).
Proof.
  split_and!.
  - intros Hc. eexists. split; [by apply ListTasks_sqlite|]. split.
    + apply (StronglySorted_fmap _ sqlite.by_updated_desc).
      * intros x y. unfold sqlite.by_updated_desc, task_order. cbn. lia.
      * apply StronglySorted_merge_sort; apply _.
    + by rewrite merge_sort_Permutation.
  - intros reqA reqB reqC reqB' tA tB tC tB' a b c b' db1 db2 db3 db4
      Hempty HidA HidB HidC HA HB HC HidB' HB' HtAC HtCB.
    by apply (ListTasks_three_then_update db reqA reqB reqC reqB' tA tB tC
                tB' a b c b' db1 db2 db3 db4).
  - intros reqA reqB reqC reqB' tA tB tC tB' a b c b' db1 db2 db3 db4
      Hempty HidA HidB HidC HA HB HC HidB' HB' HtAC HtCB.
    by apply (ListTasks_three_then_update db reqA reqB reqC reqB' tA tB tC
                tB' a b c b' db1 db2 db3 db4).
Qed.

(** *** UTF-8: encoding then decoding *)

(** A Unicode code point that UTF-8 encodes: not above [MaxRune] and not a
    surrogate. *)
Definition valid_rune (r : Z) : Prop :=
  0 <= r <= utf8.MaxRune /\ ~ (utf8.surrogateMin <= r <= utf8.surrogateMax).

(** [string(rs)] for [rs []rune]: the UTF-8 text of the code points. *)
Definition utf8_string (rs : list Z) : string :=
  fold_right (fun r s => String.append (utf8.EncodeRune r) s) EmptyString rs.

Lemma lor_add (a lo k : Z) :
  0 <= k -> 0 <= a -> 0 <= lo < 2 ^ k -> a mod 2 ^ k = 0 ->
  Z.lor a lo = a + lo.
Proof.
  intros Hk Ha Hlo Hmod.
  pose proof (Z.add_lor_land a lo) as Hadd.
  assert (Z.land a lo = 0) as Hz; [|lia].
  apply Z.bits_inj'. intros n Hn. rewrite Z.land_spec, Z.bits_0.
  destruct (Z_lt_le_dec n k) as [Hlt|Hge].
  - replace a with (a / 2 ^ k * 2 ^ k).
    + rewrite Z.mul_pow2_bits_low by lia. reflexivity.
    + pose proof (Z.div_mod a (2 ^ k)) as Hd.
      assert (0 < 2 ^ k) by (apply Z.pow_pos_nonneg; lia). lia.
  - assert (Z.testbit lo n = false) as ->; [|apply andb_false_r].
    destruct (Z.eq_dec lo 0) as [->|Hnz]; [apply Z.bits_0|].
    apply Z.bits_above_log2; [lia|].
    assert (Z.log2 lo < k); [|lia]. apply Z.log2_lt_pow2; lia.
Qed.

Ltac bits_to_arith :=
  change utf8.maskx with (Z.ones 6) in *;
  change utf8.mask2 with (Z.ones 5) in *;
  change utf8.mask3 with (Z.ones 4) in *;
  change utf8.mask4 with (Z.ones 3) in *;
  rewrite ?Z.land_ones by lia;
  rewrite ?Z.shiftr_div_pow2 by lia;
  rewrite ?Z.shiftl_mul_pow2 by lia;
  change (2 ^ 3) with 8 in *; change (2 ^ 4) with 16 in *;
  change (2 ^ 5) with 32 in *; change (2 ^ 6) with 64 in *;
  change (2 ^ 12) with 4096 in *; change (2 ^ 18) with 262144 in *.

Lemma lor_byte (hi lo k : Z) :
  0 <= k -> 0 <= hi -> 0 <= lo < 2 ^ k -> hi mod 2 ^ k = 0 ->
  Z.lor hi lo = hi + lo.
Proof. apply lor_add. Qed.

(** The bytes of [EncodeRune], as numbers. *)
Lemma EncodeRune_bytes (r : Z) :
  valid_rune r ->
  utf8.EncodeRune r =
  if r <=? 0x7F then string_of_bytes [r]
  else if r <=? 0x7FF then string_of_bytes [192 + r / 64; 128 + r mod 64]
  else if r <=? 0xFFFF then
    string_of_bytes [224 + r / 4096; 128 + (r / 64) mod 64; 128 + r mod 64]
  else
    string_of_bytes [240 + r / 262144; 128 + (r / 4096) mod 64;
                     128 + (r / 64) mod 64; 128 + r mod 64].
Proof.
  intros [[H0 Hmax] Hsur].
  unfold utf8.MaxRune, utf8.surrogateMin, utf8.surrogateMax in *.
  unfold utf8.EncodeRune, utf8.MaxRune, utf8.surrogateMin, utf8.surrogateMax,
    utf8.RuneError, string_of_bytes.
  cbn [fold_right].
  assert (forall x, 0 <= x -> Z.lor 128 (x mod 64) = 128 + x mod 64) as Hcont.
  { intros x Hx. apply (lor_add 128 (x mod 64) 6); try lia; try done;
      change (2 ^ 6) with 64; Z.div_mod_to_equations; lia. }
  destruct (Z.leb_spec 0 r); [|lia]. cbn [andb].
  destruct (Z.leb_spec r 127); [done|].
  destruct (Z.leb_spec r 2047).
  { bits_to_arith. rewrite Hcont by lia.
    rewrite (lor_add 192 (r / 64) 6); try lia; try done;
      change (2 ^ 6) with 64; Z.div_mod_to_equations; lia. }
  destruct (Z.ltb_spec r 0); [lia|].
  destruct (Z.ltb_spec 1114111 r); [lia|]. cbn [orb].
  destruct (Z.leb_spec 55296 r); destruct (Z.leb_spec r 57343); try lia;
    cbn [andb].
  all: destruct (Z.leb_spec r 65535).
  all: bits_to_arith; rewrite !Hcont by (Z.div_mod_to_equations; lia).
  all: try (rewrite (lor_add 224 (r / 4096) 4); try lia; try done;
            change (2 ^ 4) with 16; Z.div_mod_to_equations; lia).
  all: try (rewrite (lor_add 240 (r / 262144) 3); try lia; try done;
            change (2 ^ 3) with 8; Z.div_mod_to_equations; lia).
Qed.

Lemma index_1 (c0 c1 : ascii) (s : string) :
  index (String c0 (String c1 s)) 1 = byte_of c1.
Proof. reflexivity. Qed.

Lemma index_2 (c0 c1 c2 : ascii) (s : string) :
  index (String c0 (String c1 (String c2 s))) 2 = byte_of c2.
Proof. reflexivity. Qed.

Lemma index_3 (c0 c1 c2 c3 : ascii) (s : string) :
  index (String c0 (String c1 (String c2 (String c3 s)))) 3 = byte_of c3.
Proof. reflexivity. Qed.

Ltac first_is v :=
  match goal with
  | |- context [utf8.first ?b] =>
      replace (utf8.first b) with v
        by (unfold utf8.first; zbool; reflexivity)
  end.

Ltac decode_start :=
  unfold utf8.DecodeRuneInString;
  rewrite ?len_String, ?index_0, ?index_1, ?index_2, ?index_3;
  rewrite ?byte_of_ascii_of by lia;
  match goal with
  | |- context [len ?s] => pose proof (len_nonneg s)
  end.

(** The decoder on a well-formed sequence of one to four bytes. *)
Lemma Decode_1 (b0 : Z) (rest : string) :
  0 <= b0 < 0x80 ->
  utf8.DecodeRuneInString (String (ascii_of b0) rest) = (b0, 1).
Proof.
  intros H0. decode_start. first_is utf8.as_.
  destruct (Z.ltb_spec (1 + len rest) 1); [lia|]. reflexivity.
Qed.

Lemma Decode_2 (b0 b1 : Z) (rest : string) :
  0xC2 <= b0 <= 0xDF -> 0x80 <= b1 <= 0xBF ->
  utf8.DecodeRuneInString (String (ascii_of b0) (String (ascii_of b1) rest))
  = (b0 mod 32 * 64 + b1 mod 64, 2).
Proof.
  intros H0 H1. decode_start. first_is utf8.s1.
  destruct (Z.ltb_spec (1 + (1 + len rest)) 1); [lia|].
  first_consts. unfold utf8.locb, utf8.hicb.
  destruct (Z.ltb_spec (1 + (1 + len rest)) 2); [lia|].
  destruct (Z.ltb_spec b1 128); [lia|].
  destruct (Z.ltb_spec 191 b1); [lia|]. cbn [orb Z.leb Z.compare].
  f_equal. bits_to_arith.
  apply (lor_add _ _ 6); try lia; change (2 ^ 6) with 64;
    Z.div_mod_to_equations; lia.
Qed.

Lemma Decode_3 (b0 b1 b2 : Z) (rest : string) :
  0xE0 <= b0 <= 0xEF -> 0x80 <= b1 <= 0xBF -> 0x80 <= b2 <= 0xBF ->
  (b0 = 0xE0 -> 0xA0 <= b1) -> (b0 = 0xED -> b1 <= 0x9F) ->
  utf8.DecodeRuneInString
    (String (ascii_of b0) (String (ascii_of b1) (String (ascii_of b2) rest)))
  = (b0 mod 16 * 4096 + b1 mod 64 * 64 + b2 mod 64, 3).
Proof.
  intros H0 H1 H2 HE0 HED. decode_start.
  destruct (Z.ltb_spec (1 + (1 + (1 + len rest))) 1); [lia|].
  assert (forall lo hi, lo <= b1 <= hi ->
    (let sz := 3 in
     if 1 + (1 + (1 + len rest)) <? sz then (utf8.RuneError, 1)
     else if (b1 <? lo) || (hi <? b1) then (utf8.RuneError, 1)
     else if sz <=? 2
     then (Z.lor (Z.shiftl (Z.land b0 utf8.mask2) 6) (Z.land b1 utf8.maskx), 2)
     else if (b2 <? utf8.locb) || (utf8.hicb <? b2) then (utf8.RuneError, 1)
     else if sz <=? 3
     then (Z.lor (Z.lor (Z.shiftl (Z.land b0 utf8.mask3) 12)
                        (Z.shiftl (Z.land b1 utf8.maskx) 6))
                 (Z.land b2 utf8.maskx), 3)
     else (utf8.RuneError, 1))
    = (b0 mod 16 * 4096 + b1 mod 64 * 64 + b2 mod 64, 3)) as Hbody.
  { intros lo hi Hb1. cbn zeta. unfold utf8.locb, utf8.hicb.
    destruct (Z.ltb_spec (1 + (1 + (1 + len rest))) 3); [lia|].
    destruct (Z.ltb_spec b1 lo); [lia|].
    destruct (Z.ltb_spec hi b1); [lia|].
    destruct (Z.ltb_spec b2 128); [lia|].
    destruct (Z.ltb_spec 191 b2); [lia|]. cbn [orb Z.leb Z.compare].
    f_equal. bits_to_arith.
    rewrite (lor_add (b0 mod 16 * 4096) (b1 mod 64 * 64) 12);
      try lia; change (2 ^ 12) with 4096; try (Z.div_mod_to_equations; lia).
    apply (lor_add _ _ 6); try lia; change (2 ^ 6) with 64;
      Z.div_mod_to_equations; lia. }
  destruct (Z.eq_dec b0 0xE0) as [E0|N0]; [|destruct (Z.eq_dec b0 0xED) as [ED|ND]].
  - first_is utf8.s2. first_consts.
    rewrite <- (Hbody 0xA0 0xBF) by lia. cbn zeta.
    by destruct (_ <? 3), ((b1 <? 160) || (191 <? b1)),
         ((b2 <? utf8.locb) || (utf8.hicb <? b2)).
  - first_is utf8.s4. first_consts.
    rewrite <- (Hbody 0x80 0x9F) by lia. cbn zeta.
    by destruct (_ <? 3), ((b1 <? 128) || (159 <? b1)),
         ((b2 <? utf8.locb) || (utf8.hicb <? b2)).
  - first_is utf8.s3. first_consts.
    rewrite <- (Hbody 0x80 0xBF) by lia. cbn zeta.
    by destruct (_ <? 3), ((b1 <? 128) || (191 <? b1)),
         ((b2 <? utf8.locb) || (utf8.hicb <? b2)).
Qed.

Lemma Decode_4 (b0 b1 b2 b3 : Z) (rest : string) :
  0xF0 <= b0 <= 0xF4 -> 0x80 <= b1 <= 0xBF -> 0x80 <= b2 <= 0xBF ->
  0x80 <= b3 <= 0xBF ->
  (b0 = 0xF0 -> 0x90 <= b1) -> (b0 = 0xF4 -> b1 <= 0x8F) ->
  utf8.DecodeRuneInString
    (String (ascii_of b0) (String (ascii_of b1) (String (ascii_of b2)
       (String (ascii_of b3) rest))))
  = (b0 mod 8 * 262144 + b1 mod 64 * 4096 + b2 mod 64 * 64 + b3 mod 64, 4).
Proof.
  intros H0 H1 H2 H3 HF0 HF4. decode_start.
  destruct (Z.ltb_spec (1 + (1 + (1 + (1 + len rest)))) 1); [lia|].
  assert (forall lo hi, lo <= b1 <= hi ->
    (let sz := 4 in
     if 1 + (1 + (1 + (1 + len rest))) <? sz then (utf8.RuneError, 1)
     else if (b1 <? lo) || (hi <? b1) then (utf8.RuneError, 1)
     else if sz <=? 2
     then (Z.lor (Z.shiftl (Z.land b0 utf8.mask2) 6) (Z.land b1 utf8.maskx), 2)
     else if (b2 <? utf8.locb) || (utf8.hicb <? b2) then (utf8.RuneError, 1)
     else if sz <=? 3
     then (Z.lor (Z.lor (Z.shiftl (Z.land b0 utf8.mask3) 12)
                        (Z.shiftl (Z.land b1 utf8.maskx) 6))
                 (Z.land b2 utf8.maskx), 3)
     else if (b3 <? utf8.locb) || (utf8.hicb <? b3) then (utf8.RuneError, 1)
     else (Z.lor (Z.lor (Z.lor (Z.shiftl (Z.land b0 utf8.mask4) 18)
                               (Z.shiftl (Z.land b1 utf8.maskx) 12))
                        (Z.shiftl (Z.land b2 utf8.maskx) 6))
                 (Z.land b3 utf8.maskx), 4))
    = (b0 mod 8 * 262144 + b1 mod 64 * 4096 + b2 mod 64 * 64 + b3 mod 64, 4))
    as Hbody.
  { intros lo hi Hb1. cbn zeta. unfold utf8.locb, utf8.hicb.
    destruct (Z.ltb_spec (1 + (1 + (1 + (1 + len rest)))) 4); [lia|].
    destruct (Z.ltb_spec b1 lo); [lia|].
    destruct (Z.ltb_spec hi b1); [lia|].
    destruct (Z.ltb_spec b2 128); [lia|].
    destruct (Z.ltb_spec 191 b2); [lia|].
    destruct (Z.ltb_spec b3 128); [lia|].
    destruct (Z.ltb_spec 191 b3); [lia|]. cbn [orb Z.leb Z.compare].
    f_equal. bits_to_arith.
    rewrite (lor_add (b0 mod 8 * 262144) (b1 mod 64 * 4096) 18);
      try lia; change (2 ^ 18) with 262144; try (Z.div_mod_to_equations; lia).
    rewrite (lor_add (b0 mod 8 * 262144 + b1 mod 64 * 4096) (b2 mod 64 * 64) 12);
      try lia; change (2 ^ 12) with 4096; try (Z.div_mod_to_equations; lia).
    apply (lor_add _ _ 6); try lia; change (2 ^ 6) with 64;
      Z.div_mod_to_equations; lia. }
  destruct (Z.eq_dec b0 0xF0) as [E0|N0]; [|destruct (Z.eq_dec b0 0xF4) as [E4|N4]].
  - first_is utf8.s5. first_consts.
    rewrite <- (Hbody 0x90 0xBF) by lia. cbn zeta.
    by destruct (_ <? 4), ((b1 <? 144) || (191 <? b1)),
         ((b2 <? utf8.locb) || (utf8.hicb <? b2)),
         ((b3 <? utf8.locb) || (utf8.hicb <? b3)).
  - first_is utf8.s7. first_consts.
    rewrite <- (Hbody 0x80 0x8F) by lia. cbn zeta.
    by destruct (_ <? 4), ((b1 <? 128) || (143 <? b1)),
         ((b2 <? utf8.locb) || (utf8.hicb <? b2)),
         ((b3 <? utf8.locb) || (utf8.hicb <? b3)).
  - first_is utf8.s6. first_consts.
    rewrite <- (Hbody 0x80 0xBF) by lia. cbn zeta.
    by destruct (_ <? 4), ((b1 <? 128) || (191 <? b1)),
         ((b2 <? utf8.locb) || (utf8.hicb <? b2)),
         ((b3 <? utf8.locb) || (utf8.hicb <? b3)).
Qed.

Lemma append_String (c : ascii) (s t : string) :
  String.append (String c s) t = String c (String.append s t).
Proof. reflexivity. Qed.

Lemma append_empty (t : string) : String.append EmptyString t = t.
Proof. reflexivity. Qed.

(** The number of bytes [EncodeRune] writes for a valid code point. *)
Definition RuneLen (r : Z) : Z :=
  if r <=? 0x7F then 1 else if r <=? 0x7FF then 2
  else if r <=? 0xFFFF then 3 else 4.

(** Decoding what [EncodeRune] wrote gives the code point back, whatever
    follows. *)
Lemma Decode_Encode (r : Z) (rest : string) :
  valid_rune r ->
  utf8.DecodeRuneInString (String.append (utf8.EncodeRune r) rest)
  = (r, RuneLen r).
Proof.
  intros Hv. rewrite (EncodeRune_bytes r Hv). unfold RuneLen.
  destruct Hv as [[H0 Hmax] Hsur].
  unfold utf8.MaxRune, utf8.surrogateMin, utf8.surrogateMax in *.
  destruct (Z.leb_spec r 127); [|destruct (Z.leb_spec r 2047);
    [|destruct (Z.leb_spec r 65535)]];
    unfold string_of_bytes; cbn [fold_right];
    rewrite ?append_String, ?append_empty.
  - apply Decode_1. lia.
  - rewrite Decode_2 by (Z.div_mod_to_equations; lia).
    f_equal. Z.div_mod_to_equations. lia.
  - rewrite Decode_3 by (Z.div_mod_to_equations; lia).
    f_equal. Z.div_mod_to_equations. lia.
  - rewrite Decode_4 by (Z.div_mod_to_equations; lia).
    f_equal. Z.div_mod_to_equations. lia.
Qed.

Lemma EncodeRune_length (r : Z) :
  valid_rune r -> len (utf8.EncodeRune r) = RuneLen r.
Proof.
  intros Hv. rewrite (EncodeRune_bytes r Hv). unfold RuneLen.
  by destruct (r <=? 127), (r <=? 2047), (r <=? 65535).
Qed.

Lemma RuneLen_pos (r : Z) : 1 <= RuneLen r.
Proof.
  unfold RuneLen. destruct (r <=? 127), (r <=? 2047), (r <=? 65535); lia.
Qed.

(** [range] passes the bytes of a rune it has decoded. *)
Lemma range_from_skip (s1 s : string) (i : Z) :
  utf8.range_from (String.length s1) i (String.append s1 s)
  = utf8.range_from 0 (i + len s1) s.
Proof.
  revert i. induction s1 as [|c s1 IH]; intros i.
  - rewrite append_empty. unfold len. cbn. by rewrite Z.add_0_r.
  - rewrite append_String. cbn [String.length utf8.range_from].
    rewrite IH, len_String. f_equal. lia.
Qed.

Lemma range_from_Encode (r : Z) (s : string) (i : Z) :
  valid_rune r ->
  utf8.range_from 0 i (String.append (utf8.EncodeRune r) s)
  = (i, r, RuneLen r) :: utf8.range_from 0 (i + RuneLen r) s.
Proof.
  intros Hv. pose proof (Decode_Encode r s Hv) as Hd.
  pose proof (EncodeRune_length r Hv) as Hl.
  pose proof (RuneLen_pos r) as Hp.
  destruct (utf8.EncodeRune r) as [|c tl] eqn:He.
  { change (len "") with 0 in Hl. lia. }
  rewrite append_String in *. cbn [utf8.range_from]. rewrite Hd.
  f_equal. rewrite len_String in Hl.
  replace (Z.to_nat (RuneLen r) - 1)%nat with (String.length tl)
    by (unfold len in Hl; lia).
  rewrite range_from_skip. f_equal. lia.
Qed.

(** [RuneCountInString] of the UTF-8 text of code points is their number:
    the limits of the store count code points, not bytes. *)
Lemma RuneCount_utf8_string (rs : list Z) :
  Forall valid_rune rs ->
  utf8.RuneCountInString (utf8_string rs) = Z.of_nat (length rs).
Proof.
  intros Hv. unfold utf8.RuneCountInString, utf8.range. f_equal.
  generalize 0 as i. induction Hv as [|r rs Hr _ IH]; intros i; [done|].
  cbn [utf8_string fold_right]. rewrite range_from_Encode by done.
  cbn [length]. f_equal. apply IH.
Qed.

Lemma utf8_string_nonempty (rs : list Z) :
  Forall valid_rune rs -> rs <> [] -> utf8_string rs <> EmptyString.
Proof.
  intros Hv Hne. destruct Hv as [|r rs Hr _]; [done|].
  cbn [utf8_string fold_right].
  pose proof (EncodeRune_length r Hr) as Hl. pose proof (RuneLen_pos r).
  destruct (utf8.EncodeRune r); [change (len "") with 0 in Hl; lia|].
  by rewrite append_String.
Qed.

(** Fifty times the rune U+9ED8, 150 bytes of UTF-8. *)
Definition cjk50 : string := utf8_string (repeat 0x9ED8 50).

(** C3: the limits are counted in code points.  Of a name, title or content
    that, once trimmed, is the UTF-8 text of the code points [rs], the store
    compares the number of code points with the limit, whatever the number
    of bytes: a group name of up to 50 code points is inserted and one of 51
    or more fails with the too-long error; a task title of up to 200 and a
    content of up to 1000 code points are inserted, and a longer title or
    content fails with its too-long error. *)
Theorem limits_count_code_points (db : DB) :
  (forall now name rs,
      strings.TrimSpace name = utf8_string rs -> Forall valid_rune rs ->
      ¬ sqlite.name_taken (utf8_string rs) None (groups db) ->
      (0 < length rs <= 50)%nat ->
      exists id db',
        UpsertGroup now 0 name db
        = (Ok (Group.mk id (utf8_string rs) now now), db'))
  /\ (forall now id name rs,
         strings.TrimSpace name = utf8_string rs -> Forall valid_rune rs ->
         (50 < length rs)%nat ->
         UpsertGroup now id name db = (Err (ErrGroupNameTooLong 50), db))
  /\ (forall now req title content,
         strings.TrimSpace (Task.Title req) = utf8_string title ->
         strings.TrimSpace (Task.Content req) = utf8_string content ->
         Forall valid_rune title -> Forall valid_rune content ->
         Task.ID req = 0 -> 0 < Task.GroupID req ->
         is_Some (groups db !! Task.GroupID req) ->
         Task.Status req = StatusTodo \/ Task.Status req = StatusDoing
         \/ Task.Status req = StatusDone ->
         ((0 < length title <= 200)%nat -> (length content <= 1000)%nat ->
          exists id db',
            UpsertTask now req db
            = (Ok (Task.mk id (Task.GroupID req) (utf8_string title)
                     (utf8_string content) (Task.Status req)
                     (Task.Important req) (Task.Urgent req) now now), db'))
         /\ ((200 < length title)%nat ->
             UpsertTask now req db = (Err (ErrTaskTitleTooLong 200), db))
         /\ ((0 < length title <= 200)%nat -> (1000 < length content)%nat ->
             UpsertTask now req db = (Err (ErrTaskContentTooLong 1000), db)))
  /\ len cjk50 = 150
  /\ (exists g db',
         UpsertGroup 2000 0 cjk50 fresh_db = (Ok g, db')
         /\ Group.Name g = cjk50).
Proof.
  split_and!.
  - intros now name rs Ht Hv Hfree Hlen.
    assert (validName name) as Hvn.
    { unfold validName. rewrite Ht, RuneCount_utf8_string by done.
      split; [|unfold maxGroupNameRunes; lia].
      apply utf8_string_nonempty; [done|]. intros ->. cbn in Hlen. lia. }
    rewrite <- Ht in Hfree.
    rewrite (UpsertGroup_insert_ok now name db Hvn Hfree). cbn zeta.
    rewrite Ht. eauto.
  - intros now id name rs Ht Hv Hlen. unfold UpsertGroup. rewrite Ht.
    rewrite string_eqb_neq.
    2:{ apply utf8_string_nonempty; [done|]. intros ->. cbn in Hlen. lia. }
    rewrite RuneCount_utf8_string by done. unfold maxGroupNameRunes.
    by destruct (Z.ltb_spec 50 (Z.of_nat (length rs))); [|lia].
  - intros now req title content Ht Hc Hvt Hvc Hid Hg Hex Hst.
    assert (length title <> 0%nat -> utf8_string title <> EmptyString) as Hne.
    { intros Hl. apply utf8_string_nonempty; [done|]. intros ->. by cbn in Hl. }
    destruct (groupExists_sqlite (Task.GroupID req) db) as [].
    pose proof (groupExists_sqlite (Task.GroupID req) db) as Hge.
    rewrite bool_decide_eq_true_2 in Hge by done.
    pose proof (UpsertTask_checks (E := sqlite_db) now req db) as Hchk.
    cbn zeta in Hchk. rewrite Ht, Hc in Hchk.
    rewrite !RuneCount_utf8_string in Hchk by done.
    unfold maxTaskTitleRunes, maxTaskContentRunes in Hchk.
    destruct Hchk as (_ & _ & _ & Hlong & Hclong & _).
    split_and!.
    + intros Hlt Hlc.
      assert (validTask db req) as Hvt'.
      { split; [done..|]. split; rewrite ?Ht, ?Hc, ?RuneCount_utf8_string by done;
          unfold maxTaskTitleRunes, maxTaskContentRunes; try lia; try done.
        apply Hne. lia. }
      rewrite (UpsertTask_insert_ok now req db Hvt' Hid). cbn zeta.
      cbn [trimmed Task.GroupID Task.Title Task.Content Task.Status
             Task.Important Task.Urgent]. rewrite Ht, Hc. eauto.
    + intros Hlt. apply Hlong; [done..| |lia]. apply Hne. lia.
    + intros Hlt Hlc. apply Hclong; [done..| |lia|lia]. apply Hne. lia.
  - by vm_compute.
  - eexists _, _. split; [by vm_compute|]. by vm_compute.
Qed.

Lemma limits_count_code_points_witness :
  UpsertGroup 2000 7 (String.append "  " (String.append cjk50 "A")) fresh_db
  = (Err (ErrGroupNameTooLong 50), fresh_db).
Proof.
  apply (proj1 (proj2 (limits_count_code_points fresh_db)) 2000 7
           (String.append "  " (String.append cjk50 "A"))
           (repeat 0x9ED8 50 ++ [0x41])).
  - by vm_compute.
  - apply Forall_forall. intros r Hr. apply elem_of_app in Hr as [Hr|Hr].
    + apply list_elem_of_In, repeat_spec in Hr as ->.
      split; [by vm_compute|]. intros [? _]. by vm_compute.
    + apply list_elem_of_singleton in Hr as ->. split; [by vm_compute|].
      intros [? _]. by vm_compute.
  - rewrite length_app, repeat_length. cbn. lia.
Defined.

(** Inserting A, B, C and updating B within one millisecond lists C before
    B: the two rows are updated at the same time and C has the larger
    id. *)
Lemma ListTasks_same_millisecond :
  let reqA := Task.mk 0 1 "A" "" "todo" false false 0 0 in
  let reqB := Task.mk 0 1 "B" "" "todo" false false 0 0 in
  let reqC := Task.mk 0 1 "C" "" "todo" false false 0 0 in
  let db1 := (UpsertTask 1000 reqA fresh_db).2 in
  let db2 := (UpsertTask 1000 reqB db1).2 in
  let db3 := (UpsertTask 1000 reqC db2).2 in
  let reqB' := Task.mk 2 1 "B" "" "doing" false false 0 0 in
  let db4 := (UpsertTask 1000 reqB' db3).2 in
  (UpsertTask 1000 reqB db1).1
  = Ok (Task.mk 2 1 "B" "" "todo" false false 1000 1000)
  /\ (UpsertTask 1000 reqB' db3).1
     = Ok (Task.mk 2 1 "B" "" "doing" false false 1000 1000)
  /\ ListTasks db4
     = Ok [Task.mk 3 1 "C" "" "todo" false false 1000 1000;
           Task.mk 2 1 "B" "" "doing" false false 1000 1000;
           Task.mk 1 1 "A" "" "todo" false false 1000 1000].
Proof. cbn zeta. split_and!; by vm_compute. Qed.

Lemma ListTasks_order_witness :
  let reqA := Task.mk 0 1 "A" "" "todo" false false 0 0 in
  let reqB := Task.mk 0 1 "B" "" "todo" false false 0 0 in
  let reqC := Task.mk 0 1 "C" "" "todo" false false 0 0 in
  let reqB' := Task.mk 2 1 "B" "" "doing" false false 0 0 in
  let db3 :=
    (UpsertTask 1002 reqC
       (UpsertTask 1001 reqB (UpsertTask 1000 reqA fresh_db).2).2).2 in
  ListTasks (UpsertTask 1003 reqB' db3).2
  = Ok [Task.mk 2 1 "B" "" "doing" false false 1001 1003;
        Task.mk 3 1 "C" "" "todo" false false 1002 1002;
        Task.mk 1 1 "A" "" "todo" false false 1000 1000]
  /\ ListTasks (UpsertTask 1002 reqB' db3).2
     = Ok [Task.mk 3 1 "C" "" "todo" false false 1002 1002;
           Task.mk 2 1 "B" "" "doing" false false 1001 1002;
           Task.mk 1 1 "A" "" "todo" false false 1000 1000].
Proof.
  cbn zeta. split.
  - eapply (proj1 (proj2 (ListTasks_order fresh_db))
              (Task.mk 0 1 "A" "" "todo" false false 0 0)
              (Task.mk 0 1 "B" "" "todo" false false 0 0)
              (Task.mk 0 1 "C" "" "todo" false false 0 0)
              (Task.mk 2 1 "B" "" "doing" false false 0 0)
              1000 1001 1002 1003
              _ (Task.mk 2 1 "B" "" "todo" false false 1001 1001) _ _
              (UpsertTask 1000 (Task.mk 0 1 "A" "" "todo" false false 0 0)
                 fresh_db).2
              (UpsertTask 1001 (Task.mk 0 1 "B" "" "todo" false false 0 0)
                 (UpsertTask 1000 (Task.mk 0 1 "A" "" "todo" false false 0 0)
                    fresh_db).2).2
              (UpsertTask 1002 (Task.mk 0 1 "C" "" "todo" false false 0 0)
                 (UpsertTask 1001 (Task.mk 0 1 "B" "" "todo" false false 0 0)
                    (UpsertTask 1000
                       (Task.mk 0 1 "A" "" "todo" false false 0 0)
                       fresh_db).2).2).2);
      try (by vm_compute); lia.
  - eapply (proj2 (proj2 (ListTasks_order fresh_db))
              (Task.mk 0 1 "A" "" "todo" false false 0 0)
              (Task.mk 0 1 "B" "" "todo" false false 0 0)
              (Task.mk 0 1 "C" "" "todo" false false 0 0)
              (Task.mk 2 1 "B" "" "doing" false false 0 0)
              1000 1001 1002 1002
              _ (Task.mk 2 1 "B" "" "todo" false false 1001 1001) _ _
              (UpsertTask 1000 (Task.mk 0 1 "A" "" "todo" false false 0 0)
                 fresh_db).2
              (UpsertTask 1001 (Task.mk 0 1 "B" "" "todo" false false 0 0)
                 (UpsertTask 1000 (Task.mk 0 1 "A" "" "todo" false false 0 0)
                    fresh_db).2).2
              (UpsertTask 1002 (Task.mk 0 1 "C" "" "todo" false false 0 0)
                 (UpsertTask 1001 (Task.mk 0 1 "B" "" "todo" false false 0 0)
                    (UpsertTask 1000
                       (Task.mk 0 1 "A" "" "todo" false false 0 0)
                       fresh_db).2).2).2);
      try (by vm_compute); lia.
Defined.

(** ** Listings of a table

    A query with ORDER BY over a table keyed by its primary key: the sorted
    list of the rows is the only list that is sorted, without duplicates,
    and holds exactly the rows of the table, as soon as the order tells
    rows with different keys apart. *)

#[export] Existing Instance sqlite.by_id_dec.
#[export] Existing Instance sqlite.by_updated_desc_dec.

Lemma listing_unique {A} (R : relation (Z * A)) `{!RelDecision R}
    `{!Transitive R} `{!Total R} (m : gmap Z A) (l : list (Z * A)) :
  (forall a b, R a b -> R b a -> a.1 = b.1) ->
  StronglySorted R l -> NoDup l ->
  (forall k v, (k, v) ∈ l <-> m !! k = Some v) ->
  merge_sort R (map_to_list m) = l.
Proof.
  intros Hanti Hs Hnd Hin.
  apply (StronglySorted_unique_strong R).
  - intros [k1 v1] [k2 v2] H1 H2 H12 H21.
    pose proof (Hanti _ _ H12 H21) as Hk. cbn in Hk. subst k2.
    rewrite merge_sort_Permutation in H1.
    apply elem_of_map_to_list in H1. apply Hin in H2. congruence.
  - by apply StronglySorted_merge_sort.
  - done.
  - rewrite merge_sort_Permutation. apply NoDup_Permutation.
    + apply NoDup_map_to_list.
    + done.
    + intros [k v]. by rewrite elem_of_map_to_list, Hin.
Qed.

Lemma listing_spec {A} (R : relation (Z * A)) `{!RelDecision R}
    `{!Transitive R} `{!Total R} (m : gmap Z A) :
  let l := merge_sort R (map_to_list m) in
  StronglySorted R l /\ NoDup l /\ NoDup l.*1
  /\ (forall k v, (k, v) ∈ l <-> m !! k = Some v).
Proof.
  cbn zeta. split_and!.
  - by apply StronglySorted_merge_sort.
  - rewrite merge_sort_Permutation. apply NoDup_map_to_list.
  - rewrite merge_sort_Permutation. apply NoDup_fst_map_to_list.
  - intros k v. by rewrite merge_sort_Permutation, elem_of_map_to_list.
Qed.

Lemma StronglySorted_filter {A} (R : relation A) (P : A -> Prop)
    `{!forall x, Decision (P x)} (l : list A) :
  StronglySorted R l -> StronglySorted R (filter P l).
Proof.
  induction 1 as [|x l Hl IH Hx]; [constructor|].
  rewrite filter_cons. case_decide; [|done].
  constructor; [done|].
  apply Forall_forall. intros y Hy. apply list_elem_of_filter in Hy as [_ Hy].
  rewrite Forall_forall in Hx. by apply Hx.
Qed.

#[export] Instance by_id_total {A} : Total (@sqlite.by_id A).
Proof. intros a b. unfold sqlite.by_id. lia. Qed.

#[export] Instance by_id_trans {A} : Transitive (@sqlite.by_id A).
Proof. intros a b c. unfold sqlite.by_id. lia. Qed.

Lemma by_id_anti {A} (a b : Z * A) :
  sqlite.by_id a b -> sqlite.by_id b a -> a.1 = b.1.
Proof. unfold sqlite.by_id. lia. Qed.

Lemma by_updated_desc_anti (a b : Z * TaskRow) :
  sqlite.by_updated_desc a b -> sqlite.by_updated_desc b a -> a.1 = b.1.
Proof. unfold sqlite.by_updated_desc. lia. Qed.

(** The rows of a listing after a row is deleted, or after the rows that
    fail [P] are. *)
Lemma listing_filter {A} (R : relation (Z * A)) `{!RelDecision R}
    `{!Transitive R} `{!Total R} (P : Z * A -> Prop)
    `{!forall x, Decision (P x)} (m : gmap Z A) :
  (forall a b, R a b -> R b a -> a.1 = b.1) ->
  merge_sort R (map_to_list (filter P m))
  = filter P (merge_sort R (map_to_list m)).
Proof.
  intros Hanti.
  destruct (listing_spec R m) as (Hs & Hnd & _ & Hin).
  apply (listing_unique R); [done|..].
  - by apply StronglySorted_filter.
  - by apply NoDup_filter.
  - intros k v. rewrite list_elem_of_filter, Hin, map_lookup_filter_Some.
    tauto.
Qed.

Lemma delete_as_filter {A} (m : gmap Z A) (id : Z) :
  delete id m = filter (fun kv => kv.1 ≠ id) m.
Proof.
  apply map_eq. intros k. apply option_eq. intros v.
  rewrite lookup_delete_Some, map_lookup_filter_Some. cbn.
  split; intros [? ?]; split; done.
Qed.

(** The rows of a listing by key after a row with a key above all others
    is inserted: the new row comes last. *)
Lemma listing_by_id_insert_last {A} (m : gmap Z A) (id : Z) (row : A) :
  (forall k v, m !! k = Some v -> k < id) ->
  merge_sort sqlite.by_id (map_to_list (<[id := row]> m))
  = merge_sort sqlite.by_id (map_to_list m) ++ [(id, row)].
Proof.
  intros Hlt.
  destruct (listing_spec sqlite.by_id m) as (Hs & Hnd & _ & Hin).
  assert (m !! id = None) as Hfresh.
  { destruct (m !! id) as [v|] eqn:E; [|done]. apply Hlt in E. lia. }
  apply (listing_unique sqlite.by_id); [apply by_id_anti|..].
  - apply StronglySorted_app_2; [|done|repeat constructor].
    intros [k v] x Hk Hx. apply list_elem_of_singleton in Hx as ->.
    apply Hin in Hk. apply Hlt in Hk. unfold sqlite.by_id. cbn. lia.
  - apply NoDup_app. split_and!; [done| |apply NoDup_singleton].
    intros [k v] Hk Hx. apply list_elem_of_singleton in Hx as [= -> ->].
    apply Hin in Hk. congruence.
  - intros k v. rewrite elem_of_app, list_elem_of_singleton, Hin.
    destruct (decide (k = id)) as [->|Hne].
    + rewrite lookup_insert_eq, Hfresh. split.
      * intros [?|[= ->]]; congruence.
      * intros [= ->]. by right.
    + rewrite lookup_insert_ne by done. split; [|tauto].
      intros [?|[= ? ?]]; [done|congruence].
Qed.

(** The rows of a listing by key after a row is replaced: the row keeps
    its place. *)
Lemma listing_by_id_replace {A} (m : gmap Z A) (id : Z) (old row : A) :
  m !! id = Some old ->
  merge_sort sqlite.by_id (map_to_list (<[id := row]> m))
  = (fun kv => if decide (kv.1 = id) then (id, row) else kv)
      <$> merge_sort sqlite.by_id (map_to_list m).
Proof.
  intros Hold.
  destruct (listing_spec sqlite.by_id m) as (Hs & Hnd & Hndk & Hin).
  set (f := fun kv : Z * A => if decide (kv.1 = id) then (id, row) else kv).
  assert (forall kv, (f kv).1 = kv.1) as Hf1.
  { intros [k v]. unfold f. cbn. by case_decide. }
  apply (listing_unique sqlite.by_id); [apply by_id_anti|..].
  - eapply StronglySorted_fmap; [|exact Hs].
    intros x y. unfold sqlite.by_id. by rewrite !Hf1.
  - apply NoDup_fmap_1 with (f := fst). rewrite <- list_fmap_compose.
    erewrite list_fmap_ext; [exact Hndk|]. intros i x _. apply Hf1.
  - intros k v. rewrite list_elem_of_fmap. split.
    + intros ([k' v'] & Heq & Hk'). apply Hin in Hk'. unfold f in Heq.
      cbn in Heq. case_decide as Hd.
      * injection Heq as -> ->. by rewrite lookup_insert_eq.
      * injection Heq as -> ->. by rewrite lookup_insert_ne.
    + destruct (decide (k = id)) as [->|Hne].
      * rewrite lookup_insert_eq. intros [= ->]. exists (id, old).
        split; [|by apply Hin]. unfold f. cbn. by rewrite decide_True.
      * rewrite lookup_insert_ne by done. intros Hk. exists (k, v).
        split; [|by apply Hin]. unfold f. cbn. by rewrite decide_False.
Qed.

Lemma rows_after_insert {A} (m : gmap Z A) (id : Z) (row : A) :
  map_to_list (<[id := row]> m)
  ≡ₚ (id, row) :: filter (fun kv => kv.1 ≠ id) (map_to_list m).
Proof.
  apply NoDup_Permutation.
  - apply NoDup_map_to_list.
  - constructor.
    + rewrite list_elem_of_filter. cbn. tauto.
    + apply NoDup_filter, NoDup_map_to_list.
  - intros [k v].
    rewrite elem_of_cons, list_elem_of_filter, !elem_of_map_to_list.
    rewrite lookup_insert_Some. cbn. split.
    + intros [[-> ->]|[? ?]]; [by left|by right].
    + intros [[= -> ->]|[? ?]]; [by left|by right].
Qed.

Lemma filter_fmap_list {A B} (f : A -> B) (P : B -> Prop)
    `{!forall x, Decision (P x)} (l : list A) :
  filter P (f <$> l) = f <$> filter (fun x => P (f x)) l.
Proof.
  induction l as [|x l IH]; [done|].
  rewrite fmap_cons, !filter_cons. case_decide; [|done].
  by rewrite fmap_cons, IH.
Qed.

Lemma filter_all {A} (P : A -> Prop) `{!forall x, Decision (P x)} (l : list A) :
  Forall P l -> filter P l = l.
Proof.
  induction 1 as [|x l Hx _ IH]; [done|].
  by rewrite filter_cons, decide_True, IH.
Qed.

Lemma by_id_strict {A} (l : list (Z * A)) :
  StronglySorted sqlite.by_id l -> NoDup l.*1 ->
  StronglySorted (fun a b => a.1 < b.1) l.
Proof.
  induction 1 as [|x l Hl IH Hx]; [constructor|].
  rewrite fmap_cons. intros Hnd. apply NoDup_cons in Hnd as [Hnx Hnd].
  constructor; [auto|].
  apply Forall_forall. intros y Hy. rewrite Forall_forall in Hx.
  pose proof (Hx y Hy) as Hle. unfold sqlite.by_id in Hle.
  assert (x.1 <> y.1); [|lia].
  intros E. apply Hnx. rewrite E. by apply list_elem_of_fmap_2.
Qed.

(** ** The listings of the store over the relational model *)

(** The row a group is the scan of. *)
Definition groupRow (g : Group.t) : GroupRow :=
  {| gr_name := Group.Name g; gr_created_at := Group.CreatedAt g;
     gr_updated_at := Group.UpdatedAt g |}.

Lemma ListGroups_sqlite (db : DB) :
  ListGroups db
  = Ok (scanGroup <$> merge_sort sqlite.by_id (map_to_list (groups db))).
Proof. reflexivity. Qed.

Lemma scanGroup_elem (db : DB) (g : Group.t) :
  g ∈ scanGroup <$> merge_sort sqlite.by_id (map_to_list (groups db))
  <-> groups db !! Group.ID g = Some (groupRow g).
Proof.
  destruct (listing_spec sqlite.by_id (groups db)) as (_ & _ & _ & Hin).
  rewrite list_elem_of_fmap. split.
  - intros ([k r] & -> & Hk). apply Hin in Hk. by destruct r.
  - intros Hg. exists (Group.ID g, groupRow g). split; [by destruct g|].
    by apply Hin.
Qed.

(** X1: [ListGroups] returns the rows of [groups], each once, in strictly
    ascending order of [id]. *)
Theorem ListGroups_ascending (db : DB) :
  exists l,
    ListGroups db = Ok l
    /\ StronglySorted (fun a b => Group.ID a < Group.ID b) l
    /\ (forall g, g ∈ l <-> groups db !! Group.ID g = Some (groupRow g)).
Proof.
  eexists. split; [apply ListGroups_sqlite|]. split.
  - destruct (listing_spec sqlite.by_id (groups db)) as (Hs & _ & Hnd & _).
    eapply StronglySorted_fmap; [|apply by_id_strict; eassumption].
    by intros [a ra] [b rb].
  - apply scanGroup_elem.
Qed.

(** X2: a group that [UpsertGroup] inserts comes last in [ListGroups]: its
    id is larger than that of every listed group; the groups listed before
    are listed as they were, and no task or setting changes. *)
Theorem UpsertGroup_insert_appended
    (db : DB) (now : Z) (name : string) (l : list Group.t) :
  validName name ->
  ListGroups db = Ok l ->
  (forall h, h ∈ l -> Group.Name h <> strings.TrimSpace name) ->
  exists id db',
    UpsertGroup now 0 name db
    = (Ok (Group.mk id (strings.TrimSpace name) now now), db')
    /\ ListGroups db'
       = Ok (l ++ [Group.mk id (strings.TrimSpace name) now now])
    /\ Forall (fun h => Group.ID h < id) l
    /\ tasks db' = tasks db /\ settings db' = settings db.
Proof.
  intros Hv Hl Hfree. rewrite ListGroups_sqlite in Hl. injection Hl as <-.
  assert (¬ sqlite.name_taken (strings.TrimSpace name) None (groups db))
    as Hnt.
  { rewrite name_taken_iff. intros (k & r & Hk & _ & Hn).
    apply (Hfree (Group.mk k (gr_name r) (gr_created_at r) (gr_updated_at r)));
      [|done].
    apply scanGroup_elem. by destruct r. }
  rewrite (UpsertGroup_insert_ok now name db Hv Hnt). cbn zeta.
  set (id := sqlite.next_rowid (groups db) (groups_seq db)).
  exists id. eexists. split; [reflexivity|].
  assert (forall k v, groups db !! k = Some v -> k < id) as Hlt
      by (intros k v; apply next_rowid_gt).
  split_and!; [|apply Forall_forall|done..].
  - rewrite ListGroups_sqlite. cbn [groups with_groups].
    rewrite (listing_by_id_insert_last _ _ _ Hlt), fmap_app. reflexivity.
  - intros h Hh. apply scanGroup_elem in Hh. by apply Hlt in Hh.
Qed.

(** X3: renaming a listed group with [UpsertGroup] keeps its place in
    [ListGroups], its id and its creation time, sets its update time, and
    leaves the other groups and every task as they were. *)
Theorem UpsertGroup_rename_in_place
    (db : DB) (now id : Z) (name : string) (l : list Group.t)
    (old : Group.t) :
  validName name -> id <> 0 ->
  ListGroups db = Ok l ->
  old ∈ l -> Group.ID old = id ->
  (forall h, h ∈ l -> Group.ID h <> id ->
             Group.Name h <> strings.TrimSpace name) ->
  let g := Group.mk id (strings.TrimSpace name) (Group.CreatedAt old) now in
  exists db',
    UpsertGroup now id name db = (Ok g, db')
    /\ ListGroups db'
       = Ok ((fun h => if decide (Group.ID h = id) then g else h) <$> l)
    /\ tasks db' = tasks db /\ settings db' = settings db.
Proof.
  intros Hv Hid Hl Hold Hoid Hfree g.
  rewrite ListGroups_sqlite in Hl. injection Hl as <-.
  apply scanGroup_elem in Hold. rewrite Hoid in Hold.
  assert (¬ sqlite.name_taken (strings.TrimSpace name) (Some id) (groups db))
    as Hnt.
  { rewrite name_taken_iff. intros (k & r & Hk & Hne & Hn).
    apply (Hfree (Group.mk k (gr_name r) (gr_created_at r) (gr_updated_at r)));
      [|cbn; congruence|done].
    apply scanGroup_elem. by destruct r. }
  rewrite (UpsertGroup_update_ok now id name db _ Hv Hid Hold Hnt). cbn zeta.
  eexists. split; [reflexivity|]. split_and!; [|done..].
  rewrite ListGroups_sqlite. cbn [groups with_groups].
  rewrite (listing_by_id_replace _ _ _ _ Hold), <- !list_fmap_compose.
  f_equal. apply list_fmap_ext. intros i [k r] _. cbn.
  unfold scanGroup. cbn. by case_decide.
Qed.

Lemma UpsertGroup_insert_appended_witness :
  exists id db',
    UpsertGroup 2000 0 " Work " fresh_db
    = (Ok (Group.mk id (strings.TrimSpace " Work ") 2000 2000), db')
    /\ ListGroups db'
       = Ok ([Group.mk 1 defaultName 1000 1000]
             ++ [Group.mk id (strings.TrimSpace " Work ") 2000 2000])
    /\ Forall (fun h => Group.ID h < id) [Group.mk 1 defaultName 1000 1000]
    /\ tasks db' = tasks fresh_db /\ settings db' = settings fresh_db.
Proof.
  apply (UpsertGroup_insert_appended fresh_db 2000 " Work "
           [Group.mk 1 defaultName 1000 1000]).
  - split; by vm_compute.
  - by vm_compute.
  - intros h Hh. apply list_elem_of_singleton in Hh as ->. by vm_compute.
Defined.

Lemma UpsertGroup_rename_in_place_witness :
  exists db',
    UpsertGroup 2000 1 "Home" fresh_db
    = (Ok (Group.mk 1 (strings.TrimSpace "Home") 1000 2000), db')
    /\ ListGroups db'
       = Ok ((fun h => if decide (Group.ID h = 1)
                       then Group.mk 1 (strings.TrimSpace "Home") 1000 2000
                       else h)
               <$> [Group.mk 1 defaultName 1000 1000])
    /\ tasks db' = tasks fresh_db /\ settings db' = settings fresh_db.
Proof.
  apply (UpsertGroup_rename_in_place fresh_db 2000 1 "Home"
           [Group.mk 1 defaultName 1000 1000]
           (Group.mk 1 defaultName 1000 1000)).
  - split; by vm_compute.
  - lia.
  - by vm_compute.
  - by apply list_elem_of_singleton.
  - reflexivity.
  - intros h Hh. apply list_elem_of_singleton in Hh as ->. by cbn.
Defined.

(** The status of the row is one [ParseStatus] accepts. *)
Definition status_ok (r : TaskRow) : Prop :=
  tr_status r = StatusTodo \/ tr_status r = StatusDoing
  \/ tr_status r = StatusDone.

Lemma ParseStatus_Ok_iff (s : string) (p : Status) :
  ParseStatus s = Ok p
  <-> (s = StatusTodo \/ s = StatusDoing \/ s = StatusDone) /\ p = s.
Proof.
  split.
  - unfold ParseStatus, string_eqb. repeat case_bool_decide; cbn;
      intros [= <-]; auto.
  - intros [H ->]. by apply ParseStatus_ok.
Qed.

Lemma scanTask_Ok_iff (row : Z * TaskRow) (t : Task.t) :
  scanTask row = Ok t <-> status_ok row.2 /\ t = rowTask row.
Proof.
  unfold scanTask, status_ok.
  destruct (ParseStatus (tr_status row.2)) as [p|e] eqn:Hp.
  - apply ParseStatus_Ok_iff in Hp as [Hs ->]. unfold rowTask.
    split; [intros [= <-]; auto|]. by intros [_ ->].
  - split; [done|]. intros [Hs _]. apply ParseStatus_ok in Hs. congruence.
Qed.

Lemma scanTasks_Ok_iff (rows : list (Z * TaskRow)) (l : list Task.t) :
  scanTasks rows = Ok l
  <-> Forall (fun row => status_ok row.2) rows /\ l = rowTask <$> rows.
Proof.
  revert l. induction rows as [|row rows IH]; intros l; cbn [scanTasks].
  - split; [by intros [= <-]|]. by intros [_ ->].
  - destruct (scanTask row) as [t|e] eqn:Ht.
    + apply scanTask_Ok_iff in Ht as [Hs ->].
      destruct (scanTasks rows) as [out|e] eqn:Hout.
      * destruct (IH out) as [[Hall ->] _]; [done|]. rewrite fmap_cons.
        split; [intros [= <-]; by split; [constructor|]|]. by intros [_ ->].
      * split; [done|]. intros [Hall ->]. apply Forall_cons in Hall as [_ Hall].
        destruct (IH (rowTask <$> rows)) as [_ H]. by specialize (H (conj Hall eq_refl)).
    + split; [done|]. intros [Hall _]. apply Forall_cons in Hall as [Hs _].
      destruct (scanTask_Ok_iff row (rowTask row)) as [_ H].
      specialize (H (conj Hs eq_refl)). congruence.
Qed.

(** [ListTasks] succeeds exactly when every stored status is one of the
    three, and then returns the scans of the sorted rows. *)
Lemma ListTasks_Ok_iff (db : DB) (l : list Task.t) :
  ListTasks db = Ok l
  <-> (forall id r, tasks db !! id = Some r -> status_ok r)
      /\ l = rowTask
               <$> merge_sort sqlite.by_updated_desc (map_to_list (tasks db)).
Proof.
  unfold ListTasks. cbn [QueryContext sqlite_db sqlite.query].
  rewrite scanTasks_Ok_iff, Forall_forall.
  destruct (listing_spec sqlite.by_updated_desc (tasks db))
    as (_ & _ & _ & Hin).
  split; intros [Hall ->]; (split; [|done]).
  - intros id r Hr. apply (Hall (id, r)). by apply Hin.
  - intros [id r] Hr. apply Hin in Hr. eauto.
Qed.

Lemma rowTask_elem (db : DB) (t : Task.t) :
  t ∈ rowTask <$> merge_sort sqlite.by_updated_desc (map_to_list (tasks db))
  <-> exists r, tasks db !! Task.ID t = Some r /\ t = rowTask (Task.ID t, r).
Proof.
  destruct (listing_spec sqlite.by_updated_desc (tasks db))
    as (_ & _ & _ & Hin).
  rewrite list_elem_of_fmap. split.
  - intros ([k r] & -> & Hk). apply Hin in Hk. by exists r.
  - intros (r & Hr & Ht). exists (Task.ID t, r). split; [done|]. by apply Hin.
Qed.

(** X4: [DeleteGroup] of a listed group removes the group and, by the
    schema's ON DELETE CASCADE, exactly the tasks of the group: the two
    lists afterwards are the lists before without them, in the same
    order; the settings do not change. *)
Theorem DeleteGroup_cascade
    (db : DB) (id : Z) (lg : list Group.t) (lt : list Task.t) :
  0 < id ->
  ListGroups db = Ok lg -> ListTasks db = Ok lt ->
  (exists g, g ∈ lg /\ Group.ID g = id) ->
  exists db',
    DeleteGroup id db = (Ok tt, db')
    /\ ListGroups db' = Ok (filter (fun g => Group.ID g ≠ id) lg)
    /\ ListTasks db' = Ok (filter (fun t => Task.GroupID t ≠ id) lt)
    /\ settings db' = settings db.
Proof.
  intros Hpos Hlg Hlt (g & Hg & Hgid).
  rewrite ListGroups_sqlite in Hlg. injection Hlg as <-.
  apply ListTasks_Ok_iff in Hlt as [Hst ->].
  apply scanGroup_elem in Hg. rewrite Hgid in Hg.
  unfold DeleteGroup. destruct (Z.leb_spec id 0); [lia|].
  cbn [ExecContext sqlite_db sqlite.exec]. rewrite Hg.
  cbn [sqlite.done RowsAffected Z.eqb].
  eexists. split; [reflexivity|]. split_and!; [| |done].
  - rewrite ListGroups_sqlite. cbn [groups]. f_equal.
    rewrite delete_as_filter.
    rewrite (listing_filter sqlite.by_id) by apply by_id_anti.
    by rewrite filter_fmap_list.
  - apply ListTasks_Ok_iff. cbn [tasks]. split.
    + intros k r Hr. apply map_lookup_filter_Some in Hr as [Hr _]. eauto.
    + rewrite (listing_filter sqlite.by_updated_desc)
        by apply by_updated_desc_anti.
      by rewrite filter_fmap_list.
Qed.

(** X5: [DeleteTask] of a listed task removes exactly this task: the list
    afterwards is the list before without it, in the same order, and no
    group or setting changes. *)
Theorem DeleteTask_removes_one (db : DB) (id : Z) (lt : list Task.t) :
  0 < id ->
  ListTasks db = Ok lt ->
  (exists t, t ∈ lt /\ Task.ID t = id) ->
  exists db',
    DeleteTask id db = (Ok tt, db')
    /\ ListTasks db' = Ok (filter (fun t => Task.ID t ≠ id) lt)
    /\ groups db' = groups db /\ settings db' = settings db.
Proof.
  intros Hpos Hlt (t & Ht & Htid).
  apply ListTasks_Ok_iff in Hlt as [Hst ->].
  apply rowTask_elem in Ht as (r & Hr & _). rewrite Htid in Hr.
  unfold DeleteTask. destruct (Z.leb_spec id 0); [lia|].
  cbn [ExecContext sqlite_db sqlite.exec]. rewrite Hr.
  cbn [sqlite.done RowsAffected Z.eqb].
  eexists. split; [reflexivity|]. split_and!; [|done..].
  apply ListTasks_Ok_iff. cbn [tasks]. split.
  - intros k r' Hr'. apply lookup_delete_Some in Hr' as [_ Hr']. eauto.
  - rewrite delete_as_filter.
    rewrite (listing_filter sqlite.by_updated_desc)
      by apply by_updated_desc_anti.
    by rewrite filter_fmap_list.
Qed.

Lemma task_order_rows (a b : Z * TaskRow) :
  sqlite.by_updated_desc a b -> task_order (rowTask a) (rowTask b).
Proof. done. Qed.

(** The list of the tasks after the row [id] is written. *)
Lemma ListTasks_after_write (db : DB) (id seq : Z) (row : TaskRow)
    (lt : list Task.t) :
  ListTasks db = Ok lt -> status_ok row ->
  exists lt',
    ListTasks (with_tasks db (<[id := row]> (tasks db)) seq) = Ok lt'
    /\ lt' ≡ₚ rowTask (id, row) :: filter (fun u => Task.ID u ≠ id) lt
    /\ StronglySorted task_order lt'.
Proof.
  intros Hlt Hrow. apply ListTasks_Ok_iff in Hlt as [Hst ->].
  eexists. split; [|split].
  - apply ListTasks_Ok_iff. split; [|reflexivity]. cbn [tasks with_tasks].
    intros k r Hr. apply lookup_insert_Some in Hr as [[_ <-]|[_ Hr]]; eauto.
  - cbn [tasks with_tasks].
    rewrite (merge_sort_Permutation _ (map_to_list (<[id:=row]> (tasks db)))).
    rewrite rows_after_insert, fmap_cons.
    constructor. rewrite filter_fmap_list.
    apply fmap_Permutation, filter_Permutation.
    by rewrite merge_sort_Permutation.
  - eapply StronglySorted_fmap; [apply task_order_rows|].
    apply StronglySorted_merge_sort; apply _.
Qed.

(** X6: a task that [UpsertTask] returns is listed by [ListTasks], once,
    with the other tasks as they were, and the list is sorted.  The task is
    stamped with the clock reading as its update time.  An insert gives it
    an id above every listed id and the same creation time; an update
    keeps the id and the creation time of the task it replaces.  No group
    or setting changes. *)
Theorem UpsertTask_listed
    (db db' : DB) (now : Z) (req t : Task.t) (lt : list Task.t) :
  ListTasks db = Ok lt ->
  UpsertTask now req db = (Ok t, db') ->
  (exists lt',
      ListTasks db' = Ok lt'
      /\ lt' ≡ₚ t :: filter (fun u => Task.ID u ≠ Task.ID t) lt
      /\ StronglySorted task_order lt')
  /\ Task.UpdatedAt t = now
  /\ (Task.ID req = 0 ->
      Forall (fun u => Task.ID u < Task.ID t) lt /\ Task.CreatedAt t = now)
  /\ (Task.ID req <> 0 ->
      Task.ID t = Task.ID req
      /\ exists u, u ∈ lt /\ Task.ID u = Task.ID req
                   /\ Task.CreatedAt t = Task.CreatedAt u)
  /\ groups db' = groups db /\ settings db' = settings db.
Proof.
  intros Hlt Hup. pose proof (UpsertTask_Ok_valid _ _ _ _ _ Hup) as Hv.
  pose proof Hv as [_ _ [_ _ _ Hstatus]].
  destruct (decide (Task.ID req = 0)) as [Hz|Hnz].
  - rewrite (UpsertTask_insert_ok now req db Hv Hz) in Hup. cbn zeta in Hup.
    injection Hup as <- <-.
    set (id := sqlite.next_rowid (tasks db) (tasks_seq db)).
    destruct (ListTasks_after_write db id id (taskArgs (trimmed req) now) lt)
      as (lt' & Hl' & Hperm & Hsort); [done|done|].
    split_and!; [|done| |done|done|done].
    + exists lt'. split_and!; [done| |done]. rewrite Hperm.
      unfold rowTask, trimmed. cbn. by rewrite !boolTo01Int_eqb.
    + intros _. split; [|done]. apply Forall_forall. intros u Hu.
      apply ListTasks_Ok_iff in Hlt as [_ ->].
      apply rowTask_elem in Hu as (r & Hr & _). cbn.
      exact (next_rowid_gt _ (tasks_seq db) _ _ Hr).
  - destruct (tasks db !! Task.ID req) as [old|] eqn:Hold.
    + rewrite (UpsertTask_update_ok now req db old Hv Hnz Hold) in Hup.
      cbn zeta in Hup. injection Hup as <- <-.
      destruct (ListTasks_after_write db (Task.ID req) (tasks_seq db)
                  (updatedRow (trimmed req) now old) lt)
        as (lt' & Hl' & Hperm & Hsort); [done|done|].
      split_and!; [|done|done| |done|done].
      * exists lt'. split_and!; [done| |done]. rewrite Hperm.
        unfold rowTask, trimmed. cbn. by rewrite !boolTo01Int_eqb.
      * intros _. split; [done|].
        exists (rowTask (Task.ID req, old)). split_and!; [|done..].
        apply ListTasks_Ok_iff in Hlt as [_ ->]. apply rowTask_elem.
        by exists old.
    + by rewrite (UpsertTask_update_missing now req db Hv Hnz Hold) in Hup.
Qed.

(** The database of a new file with one task in the default group. *)
Definition one_task_db : DB :=
  (UpsertTask 1500 (Task.mk 0 1 "A" "" "todo" false false 0 0) fresh_db).2.

Lemma DeleteGroup_cascade_witness :
  exists db',
    DeleteGroup 1 one_task_db = (Ok tt, db')
    /\ ListGroups db'
       = Ok (filter (fun g => Group.ID g ≠ 1)
               [Group.mk 1 defaultName 1000 1000])
    /\ ListTasks db'
       = Ok (filter (fun t => Task.GroupID t ≠ 1)
               [Task.mk 1 1 "A" "" "todo" false false 1500 1500])
    /\ settings db' = settings one_task_db.
Proof.
  apply (DeleteGroup_cascade one_task_db 1).
  - lia.
  - by vm_compute.
  - by vm_compute.
  - eexists. split; [by apply list_elem_of_singleton|reflexivity].
Defined.

Lemma DeleteTask_removes_one_witness :
  exists db',
    DeleteTask 1 one_task_db = (Ok tt, db')
    /\ ListTasks db'
       = Ok (filter (fun t => Task.ID t ≠ 1)
               [Task.mk 1 1 "A" "" "todo" false false 1500 1500])
    /\ groups db' = groups one_task_db
    /\ settings db' = settings one_task_db.
Proof.
  apply (DeleteTask_removes_one one_task_db 1).
  - lia.
  - by vm_compute.
  - eexists. split; [by apply list_elem_of_singleton|reflexivity].
Defined.

Lemma UpsertTask_listed_witness :
  let req := Task.mk 1 1 " B " "" "done" true false 0 0 in
  let t := Task.mk 1 1 "B" "" "done" true false 1500 1700 in
  let lt := [Task.mk 1 1 "A" "" "todo" false false 1500 1500] in
  let db' := (UpsertTask 1700 req one_task_db).2 in
  (exists lt',
      ListTasks db' = Ok lt'
      /\ lt' ≡ₚ t :: filter (fun u => Task.ID u ≠ Task.ID t) lt
      /\ StronglySorted task_order lt')
  /\ Task.UpdatedAt t = 1700
  /\ (Task.ID req = 0 ->
      Forall (fun u => Task.ID u < Task.ID t) lt /\ Task.CreatedAt t = 1700)
  /\ (Task.ID req <> 0 ->
      Task.ID t = Task.ID req
      /\ exists u, u ∈ lt /\ Task.ID u = Task.ID req
                   /\ Task.CreatedAt t = Task.CreatedAt u)
  /\ groups db' = groups one_task_db /\ settings db' = settings one_task_db.
Proof.
  cbn zeta.
  apply (UpsertTask_listed one_task_db _ 1700
           (Task.mk 1 1 " B " "" "done" true false 0 0)).
  - by vm_compute.
  - by vm_compute.
Defined.

(** ** Failures of the store over the relational model *)

(** The errors of the store's own: those that are not the wrapped error of
    a statement, a query or a parse. *)
Definition storeError (e : error) : Prop :=
  match e with
  | ErrGroupNameEmpty | ErrGroupNameTooLong _ | ErrGroupNameExists
  | ErrGroupNotFound _ | ErrInvalidGroupID | ErrSelectGroup
  | ErrTaskTitleEmpty | ErrTaskTitleTooLong _ | ErrTaskContentTooLong _
  | ErrInvalidStatus _ | ErrTaskNotFound _ | ErrInvalidTaskID => True
  | _ => False
  end.

Ltac store_failed :=
  first [ discriminate
        | match goal with
          | |- (Err _, _) = (Err _, _) -> _ =>
              let H := fresh in
              intros H; injection H as <- <-; by split
          end ].

Lemma UpsertGroup_failure (now id : Z) (name : string) (db db' : DB)
    (e : error) :
  UpsertGroup now id name db = (Err e, db') -> db' = db /\ storeError e.
Proof.
  unfold UpsertGroup.
  destruct (string_eqb _ _); [store_failed|].
  destruct (_ <? _); [store_failed|].
  destruct (id =? 0); cbn [ExecContext sqlite_db sqlite.exec].
  - case_decide; cbn; store_failed.
  - destruct (groups db !! id) as [old|]; [|cbn; store_failed].
    case_decide; cbn; [store_failed|].
    by rewrite lookup_insert_eq.
Qed.

Lemma DeleteGroup_failure (id : Z) (db db' : DB) (e : error) :
  DeleteGroup id db = (Err e, db') -> db' = db /\ storeError e.
Proof.
  unfold DeleteGroup. destruct (id <=? 0); [store_failed|].
  cbn [ExecContext sqlite_db sqlite.exec].
  destruct (groups db !! id); cbn; store_failed.
Qed.

Lemma DeleteTask_failure (id : Z) (db db' : DB) (e : error) :
  DeleteTask id db = (Err e, db') -> db' = db /\ storeError e.
Proof.
  unfold DeleteTask. destruct (id <=? 0); [store_failed|].
  cbn [ExecContext sqlite_db sqlite.exec].
  destruct (tasks db !! id); cbn; store_failed.
Qed.

(** [UpsertTask] either rejects the request, leaving the database as it
    was, or the request has passed every check. *)
Lemma UpsertTask_rejected_or_valid (now : Z) (req : Task.t) (db : DB) :
  (exists e, UpsertTask now req db = (Err e, db) /\ validationError e
             \/ UpsertTask now req db = (Err e, db)
                /\ e = ErrGroupNotFound (Task.GroupID req))
  \/ validTask db req.
Proof.
  unfold UpsertTask.
  cbn [Task.GroupID Task.Title Task.Content Task.Status Task.ID].
  destruct (Z.leb_spec (Task.GroupID req) 0);
    [left; eexists; left; by split|].
  rewrite groupExists_sqlite. case_bool_decide as Hex; cbn [negb];
    [|left; eexists; right; by split].
  destruct (string_eqb _ _) eqn:Hne; [left; eexists; left; by split|].
  destruct (Z.ltb_spec maxTaskTitleRunes
              (utf8.RuneCountInString (strings.TrimSpace (Task.Title req))));
    [left; eexists; left; by split|].
  destruct (Z.ltb_spec maxTaskContentRunes
              (utf8.RuneCountInString (strings.TrimSpace (Task.Content req))));
    [left; eexists; left; by split|].
  destruct (ParseStatus (Task.Status req)) as [p|err] eqn:Hs.
  - right. split; [done..|]. split; [|done..|].
    + intros E. by rewrite E in Hne.
    + by apply ParseStatus_Ok_iff in Hs as [Hs _].
  - apply ParseStatus_inv in Hs as [-> _]. left; eexists; left; by split.
Qed.

Lemma UpsertTask_failure (now : Z) (req : Task.t) (db db' : DB) (e : error) :
  UpsertTask now req db = (Err e, db') -> db' = db /\ storeError e.
Proof.
  destruct (UpsertTask_rejected_or_valid now req db)
    as [(e' & [[-> He]|[-> ->]])|Hv].
  - intros [= <- <-]. split; [done|]. by destruct e'.
  - intros [= <- <-]. by split.
  - destruct (decide (Task.ID req = 0)) as [Hz|Hnz].
    + by rewrite (UpsertTask_insert_ok now req db Hv Hz).
    + destruct (tasks db !! Task.ID req) as [old|] eqn:Hold.
      * by rewrite (UpsertTask_update_ok now req db old Hv Hnz Hold).
      * rewrite (UpsertTask_update_missing now req db Hv Hnz Hold).
        store_failed.
Qed.

(** X7: over the relational model, a call of [UpsertGroup], [UpsertTask],
    [DeleteGroup] or [DeleteTask] that fails leaves the database as it
    was, and fails with one of the store's own errors, never with the
    wrapped error of a statement or a query. *)
Theorem store_failure_changes_nothing (db db' : DB) (e : error) :
  (forall now id name,
      UpsertGroup now id name db = (Err e, db') -> db' = db /\ storeError e)
  /\ (forall now req,
         UpsertTask now req db = (Err e, db') -> db' = db /\ storeError e)
  /\ (forall id, DeleteGroup id db = (Err e, db') -> db' = db /\ storeError e)
  /\ (forall id, DeleteTask id db = (Err e, db') -> db' = db /\ storeError e).
Proof.
  split_and!; intros *.
  - apply UpsertGroup_failure.
  - apply UpsertTask_failure.
  - apply DeleteGroup_failure.
  - apply DeleteTask_failure.
Qed.

(** ** What a successful operation wrote *)

Lemma UpsertGroup_Ok_valid (now id : Z) (name : string) (g : Group.t)
    (db db' : DB) :
  UpsertGroup now id name db = (Ok g, db') -> validName name.
Proof.
  unfold UpsertGroup, validName.
  destruct (string_eqb _ _) eqn:Hne; [done|].
  destruct (Z.ltb_spec maxGroupNameRunes
              (utf8.RuneCountInString (strings.TrimSpace name))); [done|].
  intros _. split; [|done]. intros E. by rewrite E in Hne.
Qed.

Lemma UpsertGroup_Ok_inv (now id : Z) (name : string) (g : Group.t)
    (db db' : DB) :
  UpsertGroup now id name db = (Ok g, db') ->
  validName name
  /\ exists k created seq,
       g = Group.mk k (strings.TrimSpace name) created now
       /\ db' = with_groups db (<[k := groupRow g]> (groups db)) seq
       /\ (id = 0 ->
           k = sqlite.next_rowid (groups db) (groups_seq db) /\ seq = k)
       /\ (id <> 0 ->
           k = id /\ seq = groups_seq db
           /\ exists old, groups db !! id = Some old
                          /\ created = gr_created_at old).
Proof.
  intros Hup. pose proof (UpsertGroup_Ok_valid _ _ _ _ _ _ Hup) as Hv.
  split; [done|].
  destruct (decide (id = 0)) as [->|Hnz].
  - destruct (decide (sqlite.name_taken (strings.TrimSpace name) None
                        (groups db))) as [Ht|Hf].
    + by rewrite (UpsertGroup_insert_dup now name db Hv Ht) in Hup.
    + rewrite (UpsertGroup_insert_ok now name db Hv Hf) in Hup.
      cbn zeta in Hup. injection Hup as <- <-.
      eexists _, _, _. split_and!; [reflexivity|reflexivity|done|done].
  - destruct (groups db !! id) as [old|] eqn:Hold.
    + destruct (decide (sqlite.name_taken (strings.TrimSpace name) (Some id)
                          (groups db))) as [Ht|Hf].
      * by rewrite (UpsertGroup_update_dup now id name db old Hv Hnz Hold Ht)
          in Hup.
      * rewrite (UpsertGroup_update_ok now id name db old Hv Hnz Hold Hf)
          in Hup.
        cbn zeta in Hup. injection Hup as <- <-.
        eexists _, _, _. split_and!; [reflexivity|reflexivity|done|].
        intros _. split_and!; [done..|]. by exists old.
    + by rewrite (UpsertGroup_update_missing now id name db Hv Hnz Hold) in Hup.
Qed.

Lemma UpsertTask_Ok_inv (now : Z) (req t : Task.t) (db db' : DB) :
  UpsertTask now req db = (Ok t, db') ->
  validTask db req
  /\ exists k created seq,
       let r := trimmed req in
       t = Task.mk k (Task.GroupID r) (Task.Title r) (Task.Content r)
             (Task.Status r) (Task.Important r) (Task.Urgent r) created now
       /\ db' = with_tasks db
                  (<[k := {| tr_group_id := Task.GroupID r;
                             tr_title := Task.Title r;
                             tr_content := Task.Content r;
                             tr_status := Task.Status r;
                             tr_important := boolTo01Int (Task.Important r);
                             tr_urgent := boolTo01Int (Task.Urgent r);
                             tr_created_at := created;
                             tr_updated_at := now |}]> (tasks db)) seq
       /\ (Task.ID req = 0 ->
           k = sqlite.next_rowid (tasks db) (tasks_seq db) /\ seq = k
           /\ created = now)
       /\ (Task.ID req <> 0 ->
           k = Task.ID req /\ seq = tasks_seq db
           /\ exists old, tasks db !! k = Some old
                          /\ created = tr_created_at old).
Proof.
  intros Hup. pose proof (UpsertTask_Ok_valid _ _ _ _ _ Hup) as Hv.
  split; [done|].
  destruct (decide (Task.ID req = 0)) as [Hz|Hnz].
  - rewrite (UpsertTask_insert_ok now req db Hv Hz) in Hup. cbn zeta in Hup.
    injection Hup as <- <-.
    eexists _, _, _. cbn zeta.
    split_and!; [reflexivity|reflexivity|done|done].
  - destruct (tasks db !! Task.ID req) as [old|] eqn:Hold.
    + rewrite (UpsertTask_update_ok now req db old Hv Hnz Hold) in Hup.
      cbn zeta in Hup. injection Hup as <- <-.
      eexists _, _, _. cbn zeta.
      split_and!; [reflexivity|reflexivity|done|].
      intros _. split_and!; [done..|]. by exists old.
    + by rewrite (UpsertTask_update_missing now req db Hv Hnz Hold) in Hup.
Qed.

Lemma DeleteGroup_Ok_inv (id : Z) (db db' : DB) :
  DeleteGroup id db = (Ok tt, db') ->
  0 < id /\ is_Some (groups db !! id)
  /\ db' = with_tasks (with_groups db (delete id (groups db)) (groups_seq db))
             (filter (fun kv => tr_group_id kv.2 ≠ id) (tasks db))
             (tasks_seq db).
Proof.
  unfold DeleteGroup. destruct (Z.leb_spec id 0); [done|].
  cbn [ExecContext sqlite_db sqlite.exec].
  destruct (groups db !! id); cbn; [|done].
  intros [= <-]. by split_and!.
Qed.

Lemma DeleteTask_Ok_inv (id : Z) (db db' : DB) :
  DeleteTask id db = (Ok tt, db') ->
  0 < id /\ is_Some (tasks db !! id)
  /\ db' = with_tasks db (delete id (tasks db)) (tasks_seq db).
Proof.
  unfold DeleteTask. destruct (Z.leb_spec id 0); [done|].
  cbn [ExecContext sqlite_db sqlite.exec].
  destruct (tasks db !! id); cbn; [|done].
  intros [= <-]. by split_and!.
Qed.

(** ** What the store keeps of every row

    The text of every stored row has passed the checks of the operation
    that wrote it, and no row id is above the counter of its table. *)

Definition storedName (n : string) : Prop :=
  n <> EmptyString /\ utf8.RuneCountInString n <= maxGroupNameRunes.

Definition storedText (r : TaskRow) : Prop :=
  tr_title r <> EmptyString
  /\ utf8.RuneCountInString (tr_title r) <= maxTaskTitleRunes
  /\ utf8.RuneCountInString (tr_content r) <= maxTaskContentRunes.

Record stored_valid (db : DB) : Prop := {
  sv_names : forall id r, groups db !! id = Some r -> storedName (gr_name r);
  sv_texts : forall id r, tasks db !! id = Some r -> storedText r;
  sv_groups_seq : forall id r, groups db !! id = Some r -> id <= groups_seq db;
  sv_tasks_seq : forall id r, tasks db !! id = Some r -> id <= tasks_seq db;
}.

Lemma empty_db_stored_valid : stored_valid empty_db.
Proof. split; cbn; intros *; by rewrite ?lookup_empty. Qed.

Lemma with_settings_stored_valid (db : DB) (s : gmap string string) :
  stored_valid db -> stored_valid (with_settings db s).
Proof. by intros []. Qed.

Lemma UpsertGroup_stored_valid (now id : Z) (name : string) (db : DB) :
  stored_valid db -> stored_valid (UpsertGroup now id name db).2.
Proof.
  intros Hsv. destruct (UpsertGroup now id name db) as [[g|e] db'] eqn:E;
    cbn [snd].
  - apply UpsertGroup_Ok_inv in E
      as ([Hne Hlen] & k & created & seq & -> & -> & Hins & Hupd).
    destruct Hsv as [Hn Ht Hgs Hts].
    split; cbn [groups tasks groups_seq tasks_seq with_groups]; [|done| |done].
    + intros j r Hj. apply lookup_insert_Some in Hj as [[_ <-]|[_ Hj]];
        [by split|eauto].
    + intros j r Hj. destruct (decide (id = 0)) as [Hz|Hnz].
      * destruct (Hins Hz) as [-> ->].
        apply lookup_insert_Some in Hj as [[-> _]|[_ Hj]]; [lia|].
        pose proof (next_rowid_gt _ (groups_seq db) _ _ Hj). lia.
      * destruct (Hupd Hnz) as (-> & -> & old & Hold & _).
        apply lookup_insert_Some in Hj as [[<- _]|[_ Hj]]; eauto.
  - apply UpsertGroup_failure in E as [-> _]. done.
Qed.

Lemma UpsertTask_stored_valid (now : Z) (req : Task.t) (db : DB) :
  stored_valid db -> stored_valid (UpsertTask now req db).2.
Proof.
  intros Hsv. destruct (UpsertTask now req db) as [[t|e] db'] eqn:E;
    cbn [snd].
  - apply UpsertTask_Ok_inv in E
      as ([_ _ [Hne Htl Hcl _]] & k & created & seq & _ & -> & Hins & Hupd).
    destruct Hsv as [Hn Ht Hgs Hts].
    split; cbn [groups tasks groups_seq tasks_seq with_tasks]; [done| |done|].
    + intros j r Hj. apply lookup_insert_Some in Hj as [[_ <-]|[_ Hj]];
        [by split_and!|eauto].
    + intros j r Hj. destruct (decide (Task.ID req = 0)) as [Hz|Hnz].
      * destruct (Hins Hz) as (-> & -> & _).
        apply lookup_insert_Some in Hj as [[-> _]|[_ Hj]]; [lia|].
        pose proof (next_rowid_gt _ (tasks_seq db) _ _ Hj). lia.
      * destruct (Hupd Hnz) as (-> & -> & old & Hold & _).
        apply lookup_insert_Some in Hj as [[<- _]|[_ Hj]]; eauto.
  - apply UpsertTask_failure in E as [-> _]. done.
Qed.

Lemma DeleteGroup_stored_valid (id : Z) (db : DB) :
  stored_valid db -> stored_valid (DeleteGroup id db).2.
Proof.
  intros Hsv. destruct (DeleteGroup id db) as [[[]|e] db'] eqn:E; cbn [snd].
  - apply DeleteGroup_Ok_inv in E as (_ & _ & ->).
    destruct Hsv as [Hn Ht Hgs Hts].
    split; cbn [groups tasks groups_seq tasks_seq with_tasks with_groups].
    + intros j r Hj. apply lookup_delete_Some in Hj as [_ Hj]. eauto.
    + intros j r Hj. apply map_lookup_filter_Some in Hj as [Hj _]. eauto.
    + intros j r Hj. apply lookup_delete_Some in Hj as [_ Hj]. eauto.
    + intros j r Hj. apply map_lookup_filter_Some in Hj as [Hj _]. eauto.
  - apply DeleteGroup_failure in E as [-> _]. done.
Qed.

Lemma DeleteTask_stored_valid (id : Z) (db : DB) :
  stored_valid db -> stored_valid (DeleteTask id db).2.
Proof.
  intros Hsv. destruct (DeleteTask id db) as [[[]|e] db'] eqn:E; cbn [snd].
  - apply DeleteTask_Ok_inv in E as (_ & _ & ->).
    destruct Hsv as [Hn Ht Hgs Hts].
    split; cbn [groups tasks groups_seq tasks_seq with_tasks]; [done| |done|].
    + intros j r Hj. apply lookup_delete_Some in Hj as [_ Hj]. eauto.
    + intros j r Hj. apply lookup_delete_Some in Hj as [_ Hj]. eauto.
  - apply DeleteTask_failure in E as [-> _]. done.
Qed.

Lemma defaultName_stored : storedName defaultName.
Proof. split; by vm_compute. Qed.

Lemma ensureDefaults_stored_valid (now : Z) (db : DB) :
  stored_valid db -> stored_valid (ensureDefaults now db).2.
Proof.
  intros Hsv. unfold ensureDefaults, ensureDefaultSettings.
  rewrite ensureDefaultSettings_range_sqlite.
  set (db1 := with_settings db _).
  assert (stored_valid db1) as Hsv1 by by apply with_settings_stored_valid.
  clearbody db1. clear Hsv db.
  destruct (decide (groups db1 = ∅)) as [He|Hne].
  - destruct (ensureDefaultGroup_empty now db1 He) as [id ->]. cbn [snd].
    destruct Hsv1 as [Hn Ht Hgs Hts].
    split; cbn [groups tasks groups_seq tasks_seq with_groups]; [|done| |done].
    + intros j r Hj. apply lookup_singleton_Some in Hj as [_ <-].
      apply defaultName_stored.
    + intros j r Hj. apply lookup_singleton_Some in Hj as [<- _]. lia.
  - by rewrite (ensureDefaultGroup_nonempty now db1 Hne).
Qed.

Section StoredValid.
Context {tables : CaseTables}.

Lemma reachable_stored_valid (db : DB) : reachable db -> stored_valid db.
Proof.
  induction 1.
  - apply ensureDefaults_stored_valid, empty_db_stored_valid.
  - by apply ensureDefaults_stored_valid.
  - by apply UpsertGroup_stored_valid.
  - by apply DeleteGroup_stored_valid.
  - by apply UpsertTask_stored_valid.
  - by apply DeleteTask_stored_valid.
  - rewrite SetSettings_sqlite. by apply with_settings_stored_valid.
  - rewrite SetLastWaterReminderAt_sqlite. by apply with_settings_stored_valid.
Qed.

(** X8: in every database the store can hold, [ListGroups] and [ListTasks]
    succeed, every listed group has a name that is not empty, of at most
    50 runes, that no other listed group has, and every listed task has a
    title that is not empty, of at most 200 runes, a content of at most
    1000 runes, one of the three statuses, and the id of a listed group as
    its group. *)
Theorem reachable_lists_valid (db : DB) :
  reachable db ->
  exists lg lt,
    ListGroups db = Ok lg /\ ListTasks db = Ok lt
    /\ (forall g, g ∈ lg ->
          0 < Group.ID g
          /\ Group.Name g <> EmptyString
          /\ utf8.RuneCountInString (Group.Name g) <= 50
          /\ forall h, h ∈ lg -> Group.Name h = Group.Name g -> h = g)
    /\ (forall t, t ∈ lt ->
          0 < Task.ID t
          /\ Task.Title t <> EmptyString
          /\ utf8.RuneCountInString (Task.Title t) <= 200
          /\ utf8.RuneCountInString (Task.Content t) <= 1000
          /\ (Task.Status t = StatusTodo \/ Task.Status t = StatusDoing
              \/ Task.Status t = StatusDone)
          /\ exists g, g ∈ lg /\ Group.ID g = Task.GroupID t).
Proof.
  intros Hr. pose proof (reachable_consistent db Hr) as [Hgp Htp Hu Hc Hf].
  pose proof (reachable_stored_valid db Hr) as [Hn Ht _ _].
  eexists _, _. split; [apply ListGroups_sqlite|].
  split; [apply ListTasks_sqlite, Hc|]. split.
  - intros g Hg. apply scanGroup_elem in Hg.
    destruct (Hn _ _ Hg) as [Hne Hlen]. split_and!; [eauto|done|done|].
    intros h Hh Hname. apply scanGroup_elem in Hh.
    pose proof (Hu _ _ _ _ Hh Hg Hname) as Hid.
    destruct g, h. cbn in *. subst. unfold groupRow in *. cbn in *. congruence.
  - intros t Hin. apply rowTask_elem in Hin as (r & Hr' & ->).
    destruct (Ht _ _ Hr') as (Hne & Htl & Hcl). cbn.
    split_and!; [eauto|done|done|done| |].
    + pose proof (Hc _ _ Hr') as Hck. unfold sqlite.check_task in Hck.
      apply andb_true_iff in Hck as [Hck _].
      apply andb_true_iff in Hck as [Hck _].
      rewrite !orb_true_iff, !string_eqb_eq in Hck.
      unfold StatusTodo, StatusDoing, StatusDone. tauto.
    + destruct (Hf _ _ Hr') as [g Hg].
      exists (Group.mk (tr_group_id r) (gr_name g) (gr_created_at g)
                (gr_updated_at g)).
      split; [|done]. apply scanGroup_elem. by destruct g.
Qed.

End StoredValid.

Lemma reachable_lists_valid_witness :
  exists lg lt,
    ListGroups fresh_db = Ok lg /\ ListTasks fresh_db = Ok lt
    /\ (forall g, g ∈ lg ->
          0 < Group.ID g
          /\ Group.Name g <> EmptyString
          /\ utf8.RuneCountInString (Group.Name g) <= 50
          /\ forall h, h ∈ lg -> Group.Name h = Group.Name g -> h = g)
    /\ (forall t, t ∈ lt ->
          0 < Task.ID t
          /\ Task.Title t <> EmptyString
          /\ utf8.RuneCountInString (Task.Title t) <= 200
          /\ utf8.RuneCountInString (Task.Content t) <= 1000
          /\ (Task.Status t = StatusTodo \/ Task.Status t = StatusDoing
              \/ Task.Status t = StatusDone)
          /\ exists g, g ∈ lg /\ Group.ID g = Task.GroupID t).
Proof.
  apply (reachable_lists_valid (tables := caselessTables) fresh_db).
  apply (reach_Open 1000).
Defined.

(** ** Row ids are not given twice *)

(** The counters of the two AUTOINCREMENT tables have not gone down. *)
Definition seq_le (db db' : DB) : Prop :=
  groups_seq db <= groups_seq db' /\ tasks_seq db <= tasks_seq db'.

Lemma seq_le_refl (db : DB) : seq_le db db.
Proof. unfold seq_le. lia. Qed.

Lemma seq_le_trans (a b c : DB) : seq_le a b -> seq_le b c -> seq_le a c.
Proof. unfold seq_le. lia. Qed.

Lemma next_rowid_above {A} (m : gmap Z A) (seq : Z) :
  seq < sqlite.next_rowid m seq.
Proof. unfold sqlite.next_rowid. lia. Qed.

Lemma UpsertGroup_seq_le (now id : Z) (name : string) (db : DB) :
  seq_le db (UpsertGroup now id name db).2.
Proof.
  destruct (UpsertGroup now id name db) as [[g|e] db'] eqn:E; cbn [snd].
  - apply UpsertGroup_Ok_inv in E
      as (_ & k & created & seq & -> & -> & Hins & Hupd).
    split; cbn [groups_seq tasks_seq with_groups]; [|lia].
    destruct (decide (id = 0)) as [Hz|Hnz].
    + destruct (Hins Hz) as [-> ->].
      pose proof (next_rowid_above (groups db) (groups_seq db)). lia.
    + destruct (Hupd Hnz) as (_ & -> & _). lia.
  - apply UpsertGroup_failure in E as [-> _]. apply seq_le_refl.
Qed.

Lemma UpsertTask_seq_le (now : Z) (req : Task.t) (db : DB) :
  seq_le db (UpsertTask now req db).2.
Proof.
  destruct (UpsertTask now req db) as [[t|e] db'] eqn:E; cbn [snd].
  - apply UpsertTask_Ok_inv in E
      as (_ & k & created & seq & _ & -> & Hins & Hupd).
    split; cbn [groups_seq tasks_seq with_tasks]; [lia|].
    destruct (decide (Task.ID req = 0)) as [Hz|Hnz].
    + destruct (Hins Hz) as (-> & -> & _).
      pose proof (next_rowid_above (tasks db) (tasks_seq db)). lia.
    + destruct (Hupd Hnz) as (_ & -> & _). lia.
  - apply UpsertTask_failure in E as [-> _]. apply seq_le_refl.
Qed.

Lemma DeleteGroup_seq_le (id : Z) (db : DB) : seq_le db (DeleteGroup id db).2.
Proof.
  destruct (DeleteGroup id db) as [[[]|e] db'] eqn:E; cbn [snd].
  - apply DeleteGroup_Ok_inv in E as (_ & _ & ->). split; cbn; lia.
  - apply DeleteGroup_failure in E as [-> _]. apply seq_le_refl.
Qed.

Lemma DeleteTask_seq_le (id : Z) (db : DB) : seq_le db (DeleteTask id db).2.
Proof.
  destruct (DeleteTask id db) as [[[]|e] db'] eqn:E; cbn [snd].
  - apply DeleteTask_Ok_inv in E as (_ & _ & ->). split; cbn; lia.
  - apply DeleteTask_failure in E as [-> _]. apply seq_le_refl.
Qed.

Lemma ensureDefaults_seq_le (now : Z) (db : DB) :
  seq_le db (ensureDefaults now db).2.
Proof.
  unfold ensureDefaults, ensureDefaultSettings.
  rewrite ensureDefaultSettings_range_sqlite.
  unfold ensureDefaultGroup. cbn [QueryContext sqlite_db sqlite.query].
  destruct (0 <? _); [split; cbn; lia|].
  cbn [ExecContext sqlite_db sqlite.exec]. case_decide; [split; cbn; lia|].
  split; cbn; [|lia].
  pose proof (next_rowid_above (groups db) (groups_seq db)). lia.
Qed.

Section Evolves.
Context {tables : CaseTables}.

(** The databases the store can make of [db]. *)
Inductive evolves (db : DB) : DB -> Prop :=
  | evolves_refl : evolves db db
  | evolves_reopen now db' :
      evolves db db' -> evolves db (ensureDefaults now db').2
  | evolves_UpsertGroup now id name db' :
      evolves db db' -> evolves db (UpsertGroup now id name db').2
  | evolves_DeleteGroup id db' :
      evolves db db' -> evolves db (DeleteGroup id db').2
  | evolves_UpsertTask now req db' :
      evolves db db' -> evolves db (UpsertTask now req db').2
  | evolves_DeleteTask id db' :
      evolves db db' -> evolves db (DeleteTask id db').2
  | evolves_SetSettings st db' :
      evolves db db' -> evolves db (SetSettings st db').2
  | evolves_SetLastWaterReminderAt t db' :
      evolves db db' -> evolves db (SetLastWaterReminderAt t db').2.

Lemma evolves_seq_le (db db' : DB) : evolves db db' -> seq_le db db'.
Proof.
  induction 1 as [|now db' _ IH|now id name db' _ IH|id db' _ IH
                 |now req db' _ IH|id db' _ IH|st db' _ IH|t db' _ IH].
  - apply seq_le_refl.
  - eapply seq_le_trans; [exact IH|apply ensureDefaults_seq_le].
  - eapply seq_le_trans; [exact IH|apply UpsertGroup_seq_le].
  - eapply seq_le_trans; [exact IH|apply DeleteGroup_seq_le].
  - eapply seq_le_trans; [exact IH|apply UpsertTask_seq_le].
  - eapply seq_le_trans; [exact IH|apply DeleteTask_seq_le].
  - by rewrite SetSettings_sqlite.
  - by rewrite SetLastWaterReminderAt_sqlite.
Qed.

(** X9: the id of a group or of a task is given once: a group or task
    inserted at any later time, after any operations of the store, the
    deletion of the row among them, has a larger id than every row the
    store has held before. *)
Theorem ids_never_reused (db db' : DB) :
  reachable db -> evolves db db' ->
  (forall id now name g db'',
      is_Some (groups db !! id) ->
      UpsertGroup now 0 name db' = (Ok g, db'') -> id < Group.ID g)
  /\ (forall id now req t db'',
         is_Some (tasks db !! id) -> Task.ID req = 0 ->
         UpsertTask now req db' = (Ok t, db'') -> id < Task.ID t).
Proof.
  intros Hr He. apply reachable_stored_valid in Hr as [_ _ Hgs Hts].
  apply evolves_seq_le in He as [Hg Ht]. split.
  - intros id now name g db'' [r Hid] Hup.
    apply UpsertGroup_Ok_inv in Hup
      as (_ & k & created & seq & -> & _ & Hins & _).
    destruct (Hins eq_refl) as [-> _]. cbn.
    pose proof (next_rowid_above (groups db') (groups_seq db')).
    pose proof (Hgs _ _ Hid). lia.
  - intros id now req t db'' [r Hid] Hz Hup.
    apply UpsertTask_Ok_inv in Hup
      as (_ & k & created & seq & -> & _ & Hins & _).
    destruct (Hins Hz) as (-> & _). cbn.
    pose proof (next_rowid_above (tasks db') (tasks_seq db')).
    pose proof (Hts _ _ Hid). lia.
Qed.

End Evolves.

Lemma ids_never_reused_witness :
  let db' := (DeleteGroup 1 fresh_db).2 in
  (forall id now name g db'',
      is_Some (groups fresh_db !! id) ->
      UpsertGroup now 0 name db' = (Ok g, db'') -> id < Group.ID g)
  /\ (forall id now req t db'',
         is_Some (tasks fresh_db !! id) -> Task.ID req = 0 ->
         UpsertTask now req db' = (Ok t, db'') -> id < Task.ID t).
Proof.
  apply (ids_never_reused (tables := caselessTables) fresh_db).
  - apply (reach_Open 1000).
  - apply evolves_DeleteGroup, evolves_refl.
Defined.

(** ** Settings written and read back *)

Section SettingsRoundTrip.
Context {tables : CaseTables}.

Lemma settingIsTrue_boolTo01 (b : bool) : settingIsTrue (boolTo01 b) = b.
Proof.
  destruct b; [reflexivity|]. cbn [boolTo01].
  destruct (settingIsTrue "0") eqn:E; [|done].
  apply settingIsTrue_spec in E as [E|E]; discriminate.
Qed.

Lemma normalizeViewMode_idem (v : string) :
  normalizeViewMode (normalizeViewMode v) = normalizeViewMode v.
Proof. by destruct (normalizeViewMode_range v) as [-> | ->]. Qed.

(** What [GetSettings] reads is what [SetSettings] would write. *)
Lemma readSettings_normal (m : gmap string string) :
  normalizeViewMode (Settings.ViewMode (readSettings m))
  = Settings.ViewMode (readSettings m).
Proof.
  unfold readSettings. cbn. destruct (m !! "viewMode"); cbn; [|reflexivity].
  apply normalizeViewMode_idem.
Qed.

Lemma GetSettings_after_SetSettings (st : Settings.t) (db : DB) :
  GetSettings (SetSettings st db).2
  = Ok (Settings.mk (Settings.HideDone st) (Settings.AlwaysOnTop st)
          (normalizeViewMode (Settings.ViewMode st))
          (Settings.ConciseMode st) "").
Proof.
  rewrite SetSettings_sqlite, GetSettings_sqlite. cbn [snd]. f_equal.
  unfold readSettings. cbn [settings with_settings].
  repeat (rewrite lookup_insert_eq || rewrite lookup_insert_ne by done).
  cbn [from_option]. by rewrite !settingIsTrue_boolTo01, normalizeViewMode_idem.
Qed.

Lemma SetSettings_frame (st : Settings.t) (db : DB) (k : string) :
  k <> "alwaysOnTop" -> k <> "hideDone" -> k <> "viewMode" ->
  k <> "conciseMode" ->
  settings (SetSettings st db).2 !! k = settings db !! k.
Proof.
  intros. rewrite SetSettings_sqlite. cbn [snd settings with_settings].
  by rewrite !lookup_insert_ne.
Qed.

(** X10: [SetSettings] never fails over the relational model, and
    [GetSettings] afterwards returns the three switches as written, the
    view mode normalized, and the empty theme: the theme is not stored.
    Groups, tasks and the reminder timestamp are as before. *)
Theorem SetSettings_then_GetSettings (st : Settings.t) (db : DB) :
  exists db',
    SetSettings st db = (Ok tt, db')
    /\ GetSettings db'
       = Ok (Settings.mk (Settings.HideDone st) (Settings.AlwaysOnTop st)
               (normalizeViewMode (Settings.ViewMode st))
               (Settings.ConciseMode st) "")
    /\ groups db' = groups db /\ tasks db' = tasks db
    /\ GetLastWaterReminderAt db' = GetLastWaterReminderAt db.
Proof.
  pose proof (GetSettings_after_SetSettings st db) as Hget.
  pose proof (SetSettings_frame st db "lastWaterReminderAt") as Hfr.
  rewrite SetSettings_sqlite in *. cbn [snd] in *.
  eexists. split; [reflexivity|]. split_and!; [done..|].
  unfold GetLastWaterReminderAt. cbn [QueryContext sqlite_db sqlite.query].
  by rewrite Hfr.
Qed.

End SettingsRoundTrip.

(** ** The application *)

Section AppGate.
Context {tables : CaseTables} {D : Type} {E : SqlDB D}.

(** X11: while the store is not open, every method of [App] that needs it
    fails with the error [startup] left, or with the not-initialized
    error when there is none, and changes neither the application nor the
    window. *)
Theorem App_store_not_ready (a : App.t D) (window : bool) :
  App.store a = None ->
  let err := default App.ErrNotInitialized (App.startupErr a) in
  App.GetBoard a = App.Failed err
  /\ (forall now id name,
         App.UpsertGroup now id name a = (App.Failed err, a))
  /\ (forall id, App.DeleteGroup id a = (App.Failed err, a))
  /\ (forall now task, App.UpsertTask now task a = (App.Failed err, a))
  /\ (forall id, App.DeleteTask id a = (App.Failed err, a))
  /\ (forall hide, App.SetHideDone hide a = (App.Failed err, a))
  /\ (forall on,
         App.SetAlwaysOnTop on a window = (App.Failed err, a, window))
  /\ (forall mode, App.SetViewMode mode a = (App.Failed err, a))
  /\ (forall theme, App.SetTheme theme a = (App.Failed err, a))
  /\ (forall on, App.SetConciseMode on a = (App.Failed err, a)).
Proof.
  intros Hs err.
  assert (App.ensureStoreReady a = inl err) as Hr.
  { unfold App.ensureStoreReady, err. rewrite Hs.
    by destruct (App.startupErr a). }
  unfold App.GetBoard, App.UpsertGroup, App.DeleteGroup, App.UpsertTask,
    App.DeleteTask, App.SetHideDone, App.SetAlwaysOnTop, App.SetViewMode,
    App.SetTheme, App.SetConciseMode.
  rewrite Hr. by split_and!.
Qed.

End AppGate.

Lemma App_store_not_ready_witness :
  let a : App.t DB :=
    App.mk true None
      (Some (App.ErrOpenDB (DriverError "disk full")))
      false in
  App.UpsertGroup 1000 0 "Work" a
  = (App.Failed (App.ErrOpenDB (DriverError "disk full")), a).
Proof.
  cbn zeta.
  apply (App_store_not_ready (tables := caselessTables)
           (App.mk true None
              (Some (App.ErrOpenDB (DriverError "disk full")))
              false)
           false eq_refl).
Defined.

Section AppSettings.
Context {tables : CaseTables}.

(** The settings [cur] with one field replaced. *)
Definition withHideDone (cur : Settings.t) (b : bool) : Settings.t :=
  Settings.mk b (Settings.AlwaysOnTop cur) (Settings.ViewMode cur)
    (Settings.ConciseMode cur) (Settings.Theme cur).
Definition withAlwaysOnTop (cur : Settings.t) (b : bool) : Settings.t :=
  Settings.mk (Settings.HideDone cur) b (Settings.ViewMode cur)
    (Settings.ConciseMode cur) (Settings.Theme cur).
Definition withViewMode (cur : Settings.t) (v : string) : Settings.t :=
  Settings.mk (Settings.HideDone cur) (Settings.AlwaysOnTop cur) v
    (Settings.ConciseMode cur) (Settings.Theme cur).
Definition withConciseMode (cur : Settings.t) (b : bool) : Settings.t :=
  Settings.mk (Settings.HideDone cur) (Settings.AlwaysOnTop cur)
    (Settings.ViewMode cur) b (Settings.Theme cur).
Definition withTheme (cur : Settings.t) (t : string) : Settings.t :=
  Settings.mk (Settings.HideDone cur) (Settings.AlwaysOnTop cur)
    (Settings.ViewMode cur) (Settings.ConciseMode cur) t.

Lemma App_ready (a : App.t DB) (db : DB) :
  App.store a = Some db -> App.ensureStoreReady a = inr db.
Proof. intros Hs. unfold App.ensureStoreReady. by rewrite Hs. Qed.

(** What is read after the settings [st], made of what was read before,
    are written. *)
Lemma GetSettings_rewritten (db : DB) (st : Settings.t) :
  Settings.ViewMode st = Settings.ViewMode (readSettings (settings db)) ->
  GetSettings (SetSettings st db).2
  = Ok (Settings.mk (Settings.HideDone st) (Settings.AlwaysOnTop st)
          (Settings.ViewMode st) (Settings.ConciseMode st) "").
Proof.
  intros Hv. rewrite GetSettings_after_SetSettings.
  by rewrite Hv, readSettings_normal.
Qed.

(** X12: the three switch setters of [App] return the settings read before
    the call with the one switch replaced, and these are the settings
    [GetSettings] reads afterwards; [SetAlwaysOnTop] also sets the flag of
    the window to the switch.  No group or task changes. *)
Theorem App_switch_setters (a : App.t DB) (db : DB) (b window : bool) :
  App.store a = Some db ->
  let cur := readSettings (settings db) in
  (exists db',
      App.SetHideDone b a
      = (App.Done (withHideDone cur b), App.with_store a db')
      /\ GetSettings db' = Ok (withHideDone cur b)
      /\ groups db' = groups db /\ tasks db' = tasks db)
  /\ (exists db',
         App.SetAlwaysOnTop b a window
         = (App.Done (withAlwaysOnTop cur b), App.with_store a db', b)
         /\ GetSettings db' = Ok (withAlwaysOnTop cur b)
         /\ groups db' = groups db /\ tasks db' = tasks db)
  /\ (exists db',
         App.SetConciseMode b a
         = (App.Done (withConciseMode cur b), App.with_store a db')
         /\ GetSettings db' = Ok (withConciseMode cur b)
         /\ groups db' = groups db /\ tasks db' = tasks db).
Proof.
  intros Hs cur. apply App_ready in Hs.
  unfold App.SetHideDone, App.SetAlwaysOnTop, App.SetConciseMode.
  rewrite Hs, GetSettings_sqlite. fold cur.
  split_and!.
  - pose proof (GetSettings_rewritten db (withHideDone cur b) eq_refl) as Hg.
    rewrite SetSettings_sqlite in *. eexists. by split_and!.
  - pose proof (GetSettings_rewritten db (withAlwaysOnTop cur b) eq_refl)
      as Hg.
    rewrite SetSettings_sqlite in *. eexists. by split_and!.
  - pose proof (GetSettings_rewritten db (withConciseMode cur b) eq_refl)
      as Hg.
    rewrite SetSettings_sqlite in *. eexists. by split_and!.
Qed.

(** X13: [App.SetViewMode] returns the settings with the mode as it was
    given, while the store holds the normalized mode: [GetSettings]
    afterwards reads ["list"] or ["cards"], whatever the mode was. *)
Theorem App_SetViewMode_returns_given (a : App.t DB) (db : DB)
    (mode : string) :
  App.store a = Some db ->
  let cur := readSettings (settings db) in
  exists db',
    App.SetViewMode mode a
    = (App.Done (withViewMode cur mode), App.with_store a db')
    /\ GetSettings db' = Ok (withViewMode cur (normalizeViewMode mode))
    /\ (normalizeViewMode mode = "list" \/ normalizeViewMode mode = "cards").
Proof.
  intros Hs cur. apply App_ready in Hs. unfold App.SetViewMode.
  rewrite Hs, GetSettings_sqlite. fold cur.
  pose proof (GetSettings_after_SetSettings (withViewMode cur mode) db) as Hg.
  rewrite SetSettings_sqlite in *. eexists.
  split_and!; [done|done|apply normalizeViewMode_range].
Qed.

(** X14: [App.SetTheme] returns the settings with the theme it was given,
    but the store has no theme: [GetSettings] afterwards reads what it
    read before the call, with the empty theme. *)
Theorem App_SetTheme_not_stored (a : App.t DB) (db : DB) (theme : string) :
  App.store a = Some db ->
  let cur := readSettings (settings db) in
  exists db',
    App.SetTheme theme a
    = (App.Done (withTheme cur theme), App.with_store a db')
    /\ GetSettings db = Ok cur
    /\ GetSettings db' = Ok cur
    /\ Settings.Theme cur = "".
Proof.
  intros Hs cur. apply App_ready in Hs. unfold App.SetTheme.
  rewrite Hs, GetSettings_sqlite. fold cur.
  pose proof (GetSettings_rewritten db (withTheme cur theme) eq_refl) as Hg.
  rewrite SetSettings_sqlite in *. eexists. by split_and!.
Qed.

(** X15: on every database the store can hold [App.GetBoard] succeeds with
    the two lists and the settings of the store; every task of the board
    has one of the board's [Statuses] and the id of one of the board's
    groups, and the view mode is ["list"] or ["cards"]. *)
Theorem App_GetBoard_coherent (a : App.t DB) (db : DB) :
  App.store a = Some db -> reachable db ->
  exists board,
    App.GetBoard a = App.Done board
    /\ ListGroups db = Ok (Board.Groups board)
    /\ ListTasks db = Ok (Board.Tasks board)
    /\ GetSettings db = Ok (Board.Settings board)
    /\ Board.Statuses board = [StatusTodo; StatusDoing; StatusDone]
    /\ (forall t, t ∈ Board.Tasks board ->
          Task.Status t ∈ Board.Statuses board
          /\ exists g, g ∈ Board.Groups board /\ Group.ID g = Task.GroupID t)
    /\ (Settings.ViewMode (Board.Settings board) = "list"
        \/ Settings.ViewMode (Board.Settings board) = "cards").
Proof.
  intros Hs Hr. apply App_ready in Hs.
  pose proof (reachable_consistent db Hr) as [_ _ _ Hc Hf].
  unfold App.GetBoard.
  rewrite Hs, ListGroups_sqlite, (ListTasks_sqlite db Hc), GetSettings_sqlite.
  eexists. split; [reflexivity|]. cbn.
  split_and!; [done..| |].
  - intros t Ht. apply rowTask_elem in Ht as (r & Hr' & ->). cbn. split.
    + pose proof (Hc _ _ Hr') as Hck. unfold sqlite.check_task in Hck.
      apply andb_true_iff in Hck as [Hck _].
      apply andb_true_iff in Hck as [Hck _].
      rewrite !orb_true_iff, !string_eqb_eq in Hck.
      rewrite !elem_of_cons. unfold StatusTodo, StatusDoing, StatusDone.
      tauto.
    + destruct (Hf _ _ Hr') as [g Hg].
      exists (Group.mk (tr_group_id r) (gr_name g) (gr_created_at g)
                (gr_updated_at g)).
      split; [|done]. apply scanGroup_elem. by destruct g.
  - destruct (settings db !! "viewMode"); cbn; [|by right].
    apply normalizeViewMode_range.
Qed.

End AppSettings.

(** The application over the database of a new file. *)
Definition ready_app : App.t DB := App.mk true (Some fresh_db) None false.

Lemma App_switch_setters_witness :
  let cur := readSettings (tables := caselessTables) (settings fresh_db) in
  (exists db',
      App.SetHideDone (tables := caselessTables) true ready_app
      = (App.Done (withHideDone cur true), App.with_store ready_app db')
      /\ GetSettings (tables := caselessTables) db'
         = Ok (withHideDone cur true)
      /\ groups db' = groups fresh_db /\ tasks db' = tasks fresh_db)
  /\ (exists db',
         App.SetAlwaysOnTop (tables := caselessTables) true ready_app false
         = (App.Done (withAlwaysOnTop cur true),
            App.with_store ready_app db', true)
         /\ GetSettings (tables := caselessTables) db'
            = Ok (withAlwaysOnTop cur true)
         /\ groups db' = groups fresh_db /\ tasks db' = tasks fresh_db)
  /\ (exists db',
         App.SetConciseMode (tables := caselessTables) true ready_app
         = (App.Done (withConciseMode cur true), App.with_store ready_app db')
         /\ GetSettings (tables := caselessTables) db'
            = Ok (withConciseMode cur true)
         /\ groups db' = groups fresh_db /\ tasks db' = tasks fresh_db).
Proof.
  exact (App_switch_setters (tables := caselessTables) ready_app fresh_db
           true false eq_refl).
Defined.

Lemma App_SetViewMode_returns_given_witness :
  let cur := readSettings (tables := caselessTables) (settings fresh_db) in
  exists db',
    App.SetViewMode (tables := caselessTables) "LIST" ready_app
    = (App.Done (withViewMode cur "LIST"), App.with_store ready_app db')
    /\ GetSettings (tables := caselessTables) db'
       = Ok (withViewMode cur (normalizeViewMode (tables := caselessTables)
                                 "LIST"))
    /\ (normalizeViewMode (tables := caselessTables) "LIST" = "list"
        \/ normalizeViewMode (tables := caselessTables) "LIST" = "cards").
Proof.
  exact (App_SetViewMode_returns_given (tables := caselessTables) ready_app
           fresh_db "LIST" eq_refl).
Defined.

Lemma App_SetTheme_not_stored_witness :
  let cur := readSettings (tables := caselessTables) (settings fresh_db) in
  exists db',
    App.SetTheme (tables := caselessTables) "dark" ready_app
    = (App.Done (withTheme cur "dark"), App.with_store ready_app db')
    /\ GetSettings (tables := caselessTables) fresh_db = Ok cur
    /\ GetSettings (tables := caselessTables) db' = Ok cur
    /\ Settings.Theme cur = "".
Proof.
  exact (App_SetTheme_not_stored (tables := caselessTables) ready_app
           fresh_db "dark" eq_refl).
Defined.

Lemma App_GetBoard_coherent_witness :
  exists board,
    App.GetBoard (tables := caselessTables) ready_app = App.Done board
    /\ ListGroups fresh_db = Ok (Board.Groups board)
    /\ ListTasks fresh_db = Ok (Board.Tasks board)
    /\ GetSettings (tables := caselessTables) fresh_db
       = Ok (Board.Settings board)
    /\ Board.Statuses board = [StatusTodo; StatusDoing; StatusDone]
    /\ (forall t, t ∈ Board.Tasks board ->
          Task.Status t ∈ Board.Statuses board
          /\ exists g, g ∈ Board.Groups board /\ Group.ID g = Task.GroupID t)
    /\ (Settings.ViewMode (Board.Settings board) = "list"
        \/ Settings.ViewMode (Board.Settings board) = "cards").
Proof.
  exact (App_GetBoard_coherent (tables := caselessTables) ready_app fresh_db
           eq_refl (reach_Open 1000)).
Defined.

(** ** The water reminder *)

Lemma Since_UnixMilli_recent (nowNano msec : Z) :
  (App.Since_UnixMilli nowNano msec <? App.Hour)
  = (nowNano - msec * 1000000 <? App.Hour).
Proof.
  unfold App.Since_UnixMilli, App.Hour, App.minDuration, App.maxDuration.
  cbn zeta.
  destruct (Z.ltb_spec (nowNano - msec * 1000000) (- 2 ^ 63));
    [|destruct (Z.ltb_spec (2 ^ 63 - 1) (nowNano - msec * 1000000))];
    lia.
Qed.

(** X16: once [ShowWaterReminder] has opened the dialog without error at
    the clock reading [shownMilli], a call within the hour that follows
    opens no dialog and changes nothing, and a call an hour later or more
    opens the dialog again. *)
Theorem ShowWaterReminder_hourly
    (a a1 : App.t DB) (db : DB) (nowNano shownMilli : Z) :
  App.store a = Some db ->
  0 < shownMilli < 2 ^ 63 ->
  App.ShowWaterReminder nowNano shownMilli None a = (None, true, a1) ->
  forall laterNano laterMilli dialog,
    (laterNano - shownMilli * 1000000 < App.Hour ->
     App.ShowWaterReminder laterNano laterMilli dialog a1
     = (None, false, a1))
    /\ (App.Hour <= laterNano - shownMilli * 1000000 ->
        exists r a2,
          App.ShowWaterReminder laterNano laterMilli dialog a1
          = (r, true, a2)).
Proof.
  intros Hs Hrange Hfirst later laterMilli dialog.
  pose proof (reminder_round_trip shownMilli db ltac:(lia)) as Hget.
  revert Hfirst. unfold App.ShowWaterReminder at 1.
  destruct (App.ctx a) eqn:Hctx; cbn [negb]; [|done].
  destruct (App.waterReminderShowing a) eqn:Hflag; [done|].
  rewrite Hs.
  set (db1 := (SetLastWaterReminderAt shownMilli db).2) in *. clearbody db1.
  destruct (match GetLastWaterReminderAt db with
            | Ok lastAt => _ | Err _ => false end); [done|].
  intros [= <-].
  unfold App.ShowWaterReminder.
  cbn [App.ctx App.with_store App.waterReminderShowing App.store negb].
  rewrite Hctx, Hflag, Hget. cbn [negb].
  rewrite Since_UnixMilli_recent.
  destruct (Z.ltb_spec 0 shownMilli); [|lia]. cbn [andb].
  split; intros Hd.
  - by destruct (Z.ltb_spec (later - shownMilli * 1000000) App.Hour); [|lia].
  - destruct (Z.ltb_spec (later - shownMilli * 1000000) App.Hour); [lia|].
    destruct dialog; eauto.
Qed.

Lemma ShowWaterReminder_hourly_witness :
  App.ShowWaterReminder 1700000003000000000 1700000003000 None
    (App.with_store ready_app
       (SetLastWaterReminderAt 1700000000000 fresh_db).2)
  = (None, false,
     App.with_store ready_app
       (SetLastWaterReminderAt 1700000000000 fresh_db).2).
Proof.
  apply (proj1 (ShowWaterReminder_hourly ready_app _ fresh_db
                  1700000000000000000 1700000000000 eq_refl
                  ltac:(lia) eq_refl
                  1700000003000000000 1700000003000 None)).
  by vm_compute.
Defined.

(** ** The update check *)

Lemma substring_length_le (n m : nat) (s : string) :
  (String.length (String.substring n m s) <= m)%nat.
Proof.
  revert n m. induction s as [|c s IH]; intros n m.
  - destruct n, m; cbn; lia.
  - destruct n as [|n]; cbn.
    + destruct m as [|m]; cbn; [lia|]. specialize (IH O m). lia.
    + apply IH.
Qed.

Lemma substring_length (k m : nat) (s : string) :
  String.length s = (k + m)%nat ->
  String.length (String.substring k m s) = m.
Proof.
  revert s. induction k as [|k IH]; intros s Hs.
  - revert s Hs. induction m as [|m IHm]; intros s Hs.
    + by destruct s.
    + destruct s as [|c s]; [cbn in Hs; lia|].
      cbn. f_equal. apply IHm. cbn in Hs. lia.
  - destruct s as [|c s]; [cbn in Hs; lia|].
    cbn. apply IH. cbn in Hs. lia.
Qed.

Lemma append_length (a b : string) :
  String.length (a +:+ b) = (String.length a + String.length b)%nat.
Proof.
  induction a as [|c a IH]; [reflexivity|].
  rewrite append_String. cbn [String.length]. by rewrite IH.
Qed.

Lemma substring_append (a b : string) :
  String.substring (String.length a) (String.length b) (a +:+ b) = b.
Proof.
  induction a as [|c a IH]; [apply substring_all|].
  rewrite append_String. cbn [String.length String.substring]. apply IH.
Qed.

(** The last [n] bytes of a name are not a string of another length. *)
Lemma last_bytes_neq (name suffix : string) (n : Z) :
  0 <= n -> len suffix <> n ->
  n < len name -> slice_from name (len name - n) <> suffix.
Proof.
  intros Hn Hs Hlen E. apply Hs. rewrite <- E.
  unfold slice_from, slice, len in *.
  rewrite substring_length; lia.
Qed.

Lemma isInstallerAsset_false (name : string) :
  version.isInstallerAsset name = false.
Proof.
  unfold version.isInstallerAsset.
  destruct (Z.ltb_spec 13 (len name)) as [Hlen|]; [|done]. cbn [andb].
  apply bool_decide_eq_false. by apply last_bytes_neq.
Qed.

(** X17: [isInstallerAsset] is false of every name, also of one that ends
    in [-installer.exe]: it compares the last 13 bytes of the name with a
    suffix of 14 bytes, while the last 14 bytes of such a name are the
    suffix. *)
Theorem isInstallerAsset_never (name : string) :
  version.isInstallerAsset name = false
  /\ version.isInstallerAsset (name +:+ "-installer.exe") = false
  /\ len "-installer.exe" = 14
  /\ slice_from (name +:+ "-installer.exe")
       (len (name +:+ "-installer.exe") - 14) = "-installer.exe".
Proof.
  split_and!; [| |reflexivity|].
  - unfold version.isInstallerAsset.
    destruct (Z.ltb_spec 13 (len name)) as [Hlen|]; [|done]. cbn [andb].
    apply bool_decide_eq_false. by apply last_bytes_neq.
  - unfold version.isInstallerAsset.
    destruct (Z.ltb_spec 13 (len (name +:+ "-installer.exe"))); [|done].
    cbn [andb]. apply bool_decide_eq_false. by apply last_bytes_neq.
  - unfold slice_from, slice, len. rewrite append_length.
    replace (Z.to_nat
               (Z.of_nat (String.length name + String.length "-installer.exe")
                - 14)) with (String.length name) by (cbn; lia).
    replace (Z.to_nat
               (Z.of_nat (String.length name + String.length "-installer.exe")
                - (Z.of_nat
                     (String.length name + String.length "-installer.exe")
                   - 14))) with (String.length "-installer.exe")
      by (cbn; lia).
    apply substring_append.
Qed.

(** The first of the strings that is not empty, or the empty string. *)
Fixpoint firstNonEmpty (l : list string) : string :=
  match l with
  | [] => EmptyString
  | s :: l' => if string_eqb s "" then firstNonEmpty l' else s
  end.

Lemma len_0 (s : string) : (len s =? 0) = string_eqb s "".
Proof.
  destruct s; [reflexivity|]. unfold len. cbn [String.length].
  by destruct (Z.eqb_spec (Z.of_nat (S (String.length s))) 0); [lia|].
Qed.

Lemma downloadURL_range_windows (assets : list version.Asset.t)
    (downloadURL : string) :
  version.downloadURL_range "windows" assets downloadURL
  = if string_eqb downloadURL ""
    then firstNonEmpty (version.Asset.BrowserDownloadURL <$> assets)
    else downloadURL.
Proof.
  unfold version.downloadURL_range. revert downloadURL.
  induction assets as [|asset assets IH]; intros downloadURL;
    cbn [fold_left fmap list_fmap firstNonEmpty].
  - destruct (string_eqb downloadURL "") eqn:E; [|done].
    by apply string_eqb_eq in E.
  - rewrite IH. replace (string_eqb "windows" "windows") with true by done.
    rewrite isInstallerAsset_false, orb_false_r, len_0.
    destruct (string_eqb downloadURL "") eqn:E; [done|]. by rewrite E.
Qed.

Lemma downloadURL_range_other (goos : string) (assets : list version.Asset.t)
    (downloadURL : string) :
  goos <> "windows" ->
  version.downloadURL_range goos assets downloadURL = downloadURL.
Proof.
  intros Hne. unfold version.downloadURL_range.
  rewrite (string_eqb_neq _ _ Hne).
  revert downloadURL. induction assets as [|asset assets IH]; [done|].
  intros downloadURL. cbn [fold_left]. apply IH.
Qed.

(** The triple [x] of major, minor and patch numbers is newer than [y]:
    greater in the first of the three numbers, in this order, in which the
    two differ. *)
Definition newer (x y : Z * Z * Z) : Prop :=
  let '(major1, minor1, patch1) := x in
  let '(major2, minor2, patch2) := y in
  major2 < major1
  \/ (major1 = major2
      /\ (minor2 < minor1 \/ (minor1 = minor2 /\ patch2 < patch1))).

Section UpdateCheck.
Variable Sscanf : string -> Z * Z * Z.

Lemma compareVersion_spec (v1 v2 : string) :
  let '(a1, b1, c1) := Sscanf v1 in
  let '(a2, b2, c2) := Sscanf v2 in
  (version.compareVersion Sscanf v1 v2 = 1
   /\ (a2 < a1 \/ (a1 = a2 /\ (b2 < b1 \/ (b1 = b2 /\ c2 < c1)))))
  \/ (version.compareVersion Sscanf v1 v2 = -1
      /\ (a1 < a2 \/ (a1 = a2 /\ (b1 < b2 \/ (b1 = b2 /\ c1 < c2)))))
  \/ (version.compareVersion Sscanf v1 v2 = 0
      /\ a1 = a2 /\ b1 = b2 /\ c1 = c2).
Proof.
  unfold version.compareVersion.
  destruct (Sscanf v1) as [[a1 b1] c1], (Sscanf v2) as [[a2 b2] c2].
  destruct (Z.eqb_spec a1 a2), (Z.eqb_spec b1 b2), (Z.eqb_spec c1 c2);
    cbn [negb];
    try destruct (Z.ltb_spec a2 a1); try destruct (Z.ltb_spec b2 b1);
    try destruct (Z.ltb_spec c2 c1); lia.
Qed.

Lemma compareVersion_refl (v : string) :
  version.compareVersion Sscanf v v = 0.
Proof.
  pose proof (compareVersion_spec v v) as H.
  destruct (Sscanf v) as [[a b] c]. lia.
Qed.

(** X18: [compareVersion] orders the version strings by the three numbers
    scanned from them, major first: the result is 1 exactly when the first
    triple is the newer one, -1 exactly when the second is, and 0 exactly
    when the three numbers agree, so for a string and itself; it is always
    one of the three; swapping the arguments negates it; and "newer than"
    is transitive. *)
Theorem compareVersion_order (v1 v2 v3 : string) :
  (version.compareVersion Sscanf v1 v2 = 1
   \/ version.compareVersion Sscanf v1 v2 = -1
   \/ version.compareVersion Sscanf v1 v2 = 0)
  /\ (version.compareVersion Sscanf v1 v2 = 1
      <-> newer (Sscanf v1) (Sscanf v2))
  /\ (version.compareVersion Sscanf v1 v2 = -1
      <-> newer (Sscanf v2) (Sscanf v1))
  /\ version.compareVersion Sscanf v2 v1
     = - version.compareVersion Sscanf v1 v2
  /\ (version.compareVersion Sscanf v1 v2 = 0 <-> Sscanf v1 = Sscanf v2)
  /\ version.compareVersion Sscanf v1 v1 = 0
  /\ (version.compareVersion Sscanf v1 v2 = 1 ->
      version.compareVersion Sscanf v2 v3 = 1 ->
      version.compareVersion Sscanf v1 v3 = 1).
Proof.
  pose proof (compareVersion_spec v1 v2) as H12.
  pose proof (compareVersion_spec v2 v1) as H21.
  pose proof (compareVersion_spec v2 v3) as H23.
  pose proof (compareVersion_spec v1 v3) as H13.
  pose proof (compareVersion_spec v1 v1) as H11.
  unfold newer.
  destruct (Sscanf v1) as [[a1 b1] c1], (Sscanf v2) as [[a2 b2] c2],
    (Sscanf v3) as [[a3 b3] c3].
  split_and!.
  - tauto.
  - lia.
  - lia.
  - lia.
  - split; [intros E; f_equal; [f_equal|]; lia|]. intros [= -> -> ->]. lia.
  - lia.
  - lia.
Qed.

(** The tag of the release without the [v] it may start with. *)
Definition tagVersion (tag : string) : string :=
  if (0 <? len tag) && (index tag 0 =? 0x76) then slice_from tag 1 else tag.

(** X19: [CheckUpdate] reports an update exactly when it attaches a
    release, which it does exactly when the exchange succeeds with status
    200 and the tag of the release, without its leading [v], compares
    greater than the version of the build.  The release then carries this
    version, is not required, and as its download link the first link
    among the assets that is not empty when the system is Windows, and
    no link on another system, whatever the names of the assets.  On
    every error there is no update; the current version is always that of
    the build. *)
Theorem CheckUpdate_result (goos : string) (resp : version.Response) :
  let '(result, err) := version.CheckUpdate Sscanf goos resp in
  version.UpdateCheckResult.CurrentVersion result = version.Version
  /\ (version.UpdateCheckResult.HasUpdate result = true
      <-> is_Some (version.UpdateCheckResult.LatestRelease result))
  /\ (is_Some err -> version.UpdateCheckResult.HasUpdate result = false)
  /\ (version.UpdateCheckResult.HasUpdate result = true
      <-> exists release,
            resp = version.Answer 200 (Ok release)
            /\ version.compareVersion Sscanf
                 (tagVersion (version.GithubRelease.TagName release))
                 version.Version = 1)
  /\ (forall release info,
         resp = version.Answer 200 (Ok release) ->
         version.UpdateCheckResult.LatestRelease result = Some info ->
         version.ReleaseInfo.Version info
         = tagVersion (version.GithubRelease.TagName release)
         /\ version.ReleaseInfo.Required info = false
         /\ version.ReleaseInfo.DownloadURL info
            = if string_eqb goos "windows"
              then firstNonEmpty
                     (version.Asset.BrowserDownloadURL
                        <$> version.GithubRelease.Assets release)
              else "").
Proof.
  unfold version.CheckUpdate.
  destruct resp as [e|e|code [release|e]]; cbn.
  1,2: split_and!; [done|split; [done|by intros [? ?]]|done
                   |split; [done|by intros (? & ? & _)]|done].
  - destruct (Z.eqb_spec code version.StatusOK) as [->|Hcode]; cbn [negb].
    + fold (tagVersion (version.GithubRelease.TagName release)).
      pose proof (compareVersion_spec
                    (tagVersion (version.GithubRelease.TagName release))
                    version.Version) as Hval.
      destruct (Sscanf (tagVersion (version.GithubRelease.TagName release)))
        as [[a1 b1] c1], (Sscanf version.Version) as [[a2 b2] c2].
      destruct (Z.ltb_spec 0 (version.compareVersion Sscanf
                    (tagVersion (version.GithubRelease.TagName release))
                    version.Version)) as [Hgt|Hle]; cbn.
      * split_and!; [done|split; [eauto|done]|by intros [? ?]| |].
        -- split; [|done]. intros _. exists release. split; [done|lia].
        -- intros r info [= <-] [= <-]. cbn. split_and!; [done..|].
           destruct (string_eqb goos "windows") eqn:Hw.
           ++ apply string_eqb_eq in Hw as ->.
              by rewrite downloadURL_range_windows.
           ++ apply downloadURL_range_other. intros ->. by cbn in Hw.
      * split_and!; [done|split; [done|by intros [? ?]]|done| |done].
        split; [done|]. intros (r & [= <-] & Hc). lia.
    + split_and!; [done|split; [done|by intros [? ?]]|done| |].
      * split; [done|]. intros (r & [= ->] & _). done.
      * intros r info [= -> _]. done.
  - destruct (Z.eqb_spec code version.StatusOK) as [->|Hcode]; cbn [negb].
    + split_and!; [done|split; [done|by intros [? ?]]|done
                  |split; [done|by intros (? & ? & _)]|done].
    + split_and!; [done|split; [done|by intros [? ?]]|done
                  |split; [done|by intros (? & ? & _)]|done].
Qed.

(** X20: a release whose tag is the version of the build, with or without
    a leading [v], is no update, whatever the scan of the version strings
    gives. *)
Theorem CheckUpdate_same_version (goos : string)
    (release : version.GithubRelease.t) :
  version.GithubRelease.TagName release = version.Version
  \/ version.GithubRelease.TagName release = "v" +:+ version.Version ->
  version.CheckUpdate Sscanf goos (version.Answer 200 (Ok release))
  = (version.UpdateCheckResult.mk false version.Version None, None).
Proof.
  intros Htag. unfold version.CheckUpdate. cbn [Z.eqb negb version.StatusOK].
  replace (if (0 <? len (version.GithubRelease.TagName release))
              && (index (version.GithubRelease.TagName release) 0 =? 118)
           then slice_from (version.GithubRelease.TagName release) 1
           else version.GithubRelease.TagName release)
    with version.Version by (destruct Htag as [-> | ->]; reflexivity).
  by rewrite compareVersion_refl.
Qed.

End UpdateCheck.

Lemma CheckUpdate_same_version_witness :
  version.CheckUpdate (fun _ => (1, 1, 0)) "windows"
    (version.Answer 200
       (Ok (version.GithubRelease.mk "v1.1.0" "Spark-Todo 1.1.0" "" "" ""
              [version.Asset.mk "Spark-Todo-installer.exe"
                 "https://example.org/Spark-Todo-installer.exe"])))
  = (version.UpdateCheckResult.mk false version.Version None, None).
Proof.
  apply (CheckUpdate_same_version (fun _ => (1, 1, 0)) "windows").
  by right.
Defined.

(** ** The migration of the schema *)

(** The file has the tables and indexes of this version: the three tables,
    [tasks] with the two columns added last, and the two indexes. *)
Record migrated (s : Schema) : Prop := {
  has_groups : is_Some (schema_tables s !! "groups");
  has_tasks :
    exists cols,
      schema_tables s !! "tasks" = Some cols
      /\ "important" ∈ cols /\ "urgent" ∈ cols;
  has_settings : is_Some (schema_tables s !! "settings");
  has_idx_group_status :
    is_Some (schema_indexes s !! "idx_tasks_group_status");
  has_idx_important_urgent :
    is_Some (schema_indexes s !! "idx_tasks_important_urgent");
  no_table_idx_group_status :
    schema_tables s !! "idx_tasks_group_status" = None;
  no_table_idx_important_urgent :
    schema_tables s !! "idx_tasks_important_urgent" = None;
}.

Lemma existsb_elem (name : string) (names : list string) :
  existsb (string_eqb name) names = true <-> name ∈ names.
Proof.
  rewrite existsb_exists. split.
  - intros (x & Hin & Heq). apply string_eqb_eq in Heq as ->.
    by apply list_elem_of_In.
  - intros Hin. exists name. split; [by apply list_elem_of_In|].
    by apply string_eqb_eq.
Qed.

Lemma has_column_elem (cols : list string) (c : string) :
  c ∈ cols -> sqlite_schema.has_column cols c = true.
Proof.
  intros Hin. unfold sqlite_schema.has_column. apply existsb_exists.
  exists c. split; [by apply list_elem_of_In|]. by apply string_eqb_eq.
Qed.

Ltac schema_names :=
  change (sqlite_schema.fold "groups") with "groups" in *;
  change (sqlite_schema.fold "tasks") with "tasks" in *;
  change (sqlite_schema.fold "settings") with "settings" in *;
  change (sqlite_schema.fold "idx_tasks_group_status")
    with "idx_tasks_group_status" in *;
  change (sqlite_schema.fold "idx_tasks_important_urgent")
    with "idx_tasks_important_urgent" in *.

(** A schema that is migrated is left as it is. *)
Lemma migrate_migrated (s : Schema) : migrated s -> migrate s = (Ok tt, s).
Proof.
  intros [[g Hg] (cols & Ht & Hi & Hu) [st Hst] [i1 Hi1] [i2 Hi2] Hn1 Hn2].
  pose proof (proj2 (existsb_elem _ _) Hi) as Hei.
  pose proof (proj2 (existsb_elem _ _) Hu) as Heu.
  unfold migrate, migrate_range, stmts, ensureTasksColumns.
  cbn [ExecDDL TableInfo sqlite_schema_db sqlite_schema.exec
       sqlite_schema.table_info].
  schema_names.
  unfold default, id. cbn [from_option].
  repeat (first [rewrite Hg | rewrite Ht | rewrite Hst | rewrite Hn1
                | rewrite Hn2 | rewrite Hi1 | rewrite Hi2 | rewrite Hei
                | rewrite Heu];
          cbn [from_option negb]; lazy beta iota zeta).
  reflexivity.
Qed.

(** What a statement that succeeds leaves. *)
Lemma exec_create_table (t : string) (cols : list string) (s s' : Schema) :
  sqlite_schema.exec (CreateTableIfNotExists t cols) s = (Ok tt, s') ->
  schema_indexes s' = schema_indexes s
  /\ (forall k, k <> sqlite_schema.fold t ->
                schema_tables s' !! k = schema_tables s !! k)
  /\ schema_tables s' !! sqlite_schema.fold t
     = Some (default cols (schema_tables s !! sqlite_schema.fold t)).
Proof.
  cbn [sqlite_schema.exec].
  destruct (schema_tables s !! sqlite_schema.fold t) as [has|] eqn:Ht.
  - intros [= <-]. by split_and!.
  - destruct (schema_indexes s !! sqlite_schema.fold t); [done|].
    intros [= <-]. cbn. split_and!; [done| |apply lookup_insert_eq].
    intros k Hk. by rewrite lookup_insert_ne.
Qed.

Lemma exec_create_index (n t : string) (cols : list string) (s s' : Schema) :
  sqlite_schema.exec (CreateIndexIfNotExists n t cols) s = (Ok tt, s') ->
  schema_tables s' = schema_tables s
  /\ schema_tables s !! sqlite_schema.fold n = None
  /\ is_Some (schema_indexes s' !! sqlite_schema.fold n)
  /\ (forall k v, schema_indexes s !! k = Some v ->
                  schema_indexes s' !! k = Some v).
Proof.
  cbn [sqlite_schema.exec].
  destruct (schema_tables s !! sqlite_schema.fold t) as [has|]; [|done].
  destruct (schema_tables s !! sqlite_schema.fold n) eqn:Hn; [done|].
  destruct (schema_indexes s !! sqlite_schema.fold n) as [i|] eqn:Hi.
  - intros [= <-]. by split_and!.
  - destruct (forallb _ _); [|done]. intros [= <-]. cbn.
    split_and!; [done|done|by rewrite lookup_insert_eq|].
    intros k v Hk. rewrite lookup_insert_ne; [done|]. congruence.
Qed.

Lemma exec_add_column (t c : string) (s s' : Schema) :
  sqlite_schema.exec (AlterTableAddColumn t c) s = (Ok tt, s') ->
  exists has,
    schema_tables s !! sqlite_schema.fold t = Some has
    /\ sqlite_schema.has_column has c = false
    /\ schema_tables s'
       = <[sqlite_schema.fold t := has ++ [c]]> (schema_tables s)
    /\ schema_indexes s' = schema_indexes s.
Proof.
  cbn [sqlite_schema.exec].
  destruct (schema_tables s !! sqlite_schema.fold t) as [has|]; [|done].
  destruct (sqlite_schema.has_column has c) eqn:Hc; [done|].
  intros [= <-]. by exists has.
Qed.

(** The statements of a run of [migrate] that succeeds: the four of
    [stmts], the columns [ensureTasksColumns] adds, and the second
    index. *)
Lemma migrate_Ok_inv (s s' : Schema) :
  migrate s = (Ok tt, s') ->
  exists s1 s2 s3 s4 s5 s6,
    sqlite_schema.exec
      (CreateTableIfNotExists "groups"
         ["id"; "name"; "created_at"; "updated_at"]) s = (Ok tt, s1)
    /\ sqlite_schema.exec
         (CreateTableIfNotExists "tasks"
            ["id"; "group_id"; "title"; "content"; "status"; "important";
             "urgent"; "created_at"; "updated_at"]) s1 = (Ok tt, s2)
    /\ sqlite_schema.exec
         (CreateIndexIfNotExists "idx_tasks_group_status" "tasks"
            ["group_id"; "status"]) s2 = (Ok tt, s3)
    /\ sqlite_schema.exec
         (CreateTableIfNotExists "settings" ["key"; "value"]) s3 = (Ok tt, s4)
    /\ (let names := default [] (schema_tables s4 !! "tasks") in
        if existsb (string_eqb "important") names then s5 = s4
        else sqlite_schema.exec (AlterTableAddColumn "tasks" "important") s4
             = (Ok tt, s5))
    /\ (let names := default [] (schema_tables s4 !! "tasks") in
        if existsb (string_eqb "urgent") names then s6 = s5
        else sqlite_schema.exec (AlterTableAddColumn "tasks" "urgent") s5
             = (Ok tt, s6))
    /\ sqlite_schema.exec
         (CreateIndexIfNotExists "idx_tasks_important_urgent" "tasks"
            ["important"; "urgent"]) s6 = (Ok tt, s').
Proof.
  unfold migrate, migrate_range, stmts, ensureTasksColumns.
  cbn [ExecDDL TableInfo sqlite_schema_db sqlite_schema.table_info].
  change (sqlite_schema.fold "tasks") with "tasks".
  destruct (sqlite_schema.exec (CreateTableIfNotExists "groups" _) s)
    as [[[]|e] s1] eqn:E1; lazy beta iota zeta; [|done].
  destruct (sqlite_schema.exec (CreateTableIfNotExists "tasks" _) s1)
    as [[[]|e] s2] eqn:E2; lazy beta iota zeta; [|done].
  destruct (sqlite_schema.exec (CreateIndexIfNotExists _ _ _) s2)
    as [[[]|e] s3] eqn:E3; lazy beta iota zeta; [|done].
  destruct (sqlite_schema.exec (CreateTableIfNotExists "settings" _) s3)
    as [[[]|e] s4] eqn:E4; lazy beta iota zeta; [|done].
  destruct (existsb (string_eqb "important") _) eqn:Hi; cbn [negb]; lazy beta iota zeta.
  - destruct (existsb (string_eqb "urgent") _) eqn:Hu; cbn [negb]; lazy beta iota zeta.
    + destruct (sqlite_schema.exec _ s4) as [[[]|e] s7] eqn:E7; lazy beta iota zeta; [|done].
      intros [= <-]. exists s1, s2, s3, s4, s4, s4. cbn zeta. rewrite Hi, Hu. by split_and!.
    + destruct (sqlite_schema.exec (AlterTableAddColumn _ _) s4)
        as [[[]|e] s6] eqn:E6; lazy beta iota zeta; [|done].
      destruct (sqlite_schema.exec _ s6) as [[[]|e] s7] eqn:E7; lazy beta iota zeta; [|done].
      intros [= <-]. exists s1, s2, s3, s4, s4, s6. cbn zeta. rewrite Hi, Hu. by split_and!.
  - destruct (sqlite_schema.exec (AlterTableAddColumn _ _) s4)
      as [[[]|e] s5] eqn:E5; lazy beta iota zeta; [|done].
    destruct (existsb (string_eqb "urgent") _) eqn:Hu; cbn [negb]; lazy beta iota zeta.
    + destruct (sqlite_schema.exec _ s5) as [[[]|e] s7] eqn:E7; lazy beta iota zeta; [|done].
      intros [= <-]. exists s1, s2, s3, s4, s5, s5. cbn zeta. rewrite Hi, Hu. by split_and!.
    + destruct (sqlite_schema.exec (AlterTableAddColumn _ _) s5)
        as [[[]|e] s6] eqn:E6; lazy beta iota zeta; [|done].
      destruct (sqlite_schema.exec _ s6) as [[[]|e] s7] eqn:E7; lazy beta iota zeta; [|done].
      intros [= <-]. exists s1, s2, s3, s4, s5, s6. cbn zeta. rewrite Hi, Hu. by split_and!.
Qed.

(** The schema [s'] has everything [s] has: every index, and every table
    with its columns first, in order; only [tasks] may have more columns,
    and the only tables it may have more are the three of [migrate]. *)
Record grows (s s' : Schema) : Prop := {
  grows_indexes :
    forall k v, schema_indexes s !! k = Some v ->
                schema_indexes s' !! k = Some v;
  grows_tables :
    forall k cols,
      schema_tables s !! k = Some cols ->
      exists added,
        schema_tables s' !! k = Some (cols ++ added)
        /\ (k <> "tasks" -> added = []);
  grows_new :
    forall k, schema_tables s !! k = None ->
              k <> "groups" -> k <> "tasks" -> k <> "settings" ->
              schema_tables s' !! k = None;
}.

Lemma grows_refl (s : Schema) : grows s s.
Proof.
  split; [done| |done]. intros k cols Hk. exists []. by rewrite app_nil_r.
Qed.

Lemma grows_trans (a b c : Schema) : grows a b -> grows b c -> grows a c.
Proof.
  intros [Hi1 Ht1 Hn1] [Hi2 Ht2 Hn2]. split.
  - eauto.
  - intros k cols Hk. destruct (Ht1 k cols Hk) as (add1 & Hb & Hne1).
    destruct (Ht2 k _ Hb) as (add2 & Hc & Hne2).
    exists (add1 ++ add2). rewrite app_assoc. split; [done|].
    intros Hne. by rewrite Hne1, Hne2.
  - eauto.
Qed.

Lemma create_table_grows (t : string) (cols : list string) (s s' : Schema) :
  sqlite_schema.fold t = t ->
  t = "groups" \/ t = "tasks" \/ t = "settings" ->
  sqlite_schema.exec (CreateTableIfNotExists t cols) s = (Ok tt, s') ->
  grows s s'.
Proof.
  intros Hfold Ht E. apply exec_create_table in E as (Hi & Hframe & Hnew).
  rewrite Hfold in *. split.
  - by rewrite Hi.
  - intros k c Hk. exists []. rewrite app_nil_r. split; [|done].
    destruct (decide (k = t)) as [->|Hne].
    + by rewrite Hnew, Hk.
    + by rewrite Hframe.
  - intros k Hk H1 H2 H3. rewrite Hframe; [done|].
    destruct Ht as [-> | [-> | ->]]; done.
Qed.

Lemma create_index_grows (n t : string) (cols : list string) (s s' : Schema) :
  sqlite_schema.exec (CreateIndexIfNotExists n t cols) s = (Ok tt, s') ->
  grows s s'.
Proof.
  intros E. apply exec_create_index in E as (Ht & _ & _ & Hi).
  split; [done|..]; rewrite Ht; [|done].
  intros k c Hk. exists []. by rewrite app_nil_r.
Qed.

Lemma add_column_grows (c : string) (s s' : Schema) :
  sqlite_schema.exec (AlterTableAddColumn "tasks" c) s = (Ok tt, s') ->
  grows s s'.
Proof.
  intros E. apply exec_add_column in E as (has & Hhas & _ & Ht & Hi).
  change (sqlite_schema.fold "tasks") with "tasks" in *.
  split; rewrite ?Hi, ?Ht; [done|..].
  - intros k cols Hk. destruct (decide (k = "tasks")) as [->|Hne].
    + exists [c]. rewrite lookup_insert_eq. split; [congruence|done].
    + exists []. rewrite lookup_insert_ne, app_nil_r by done. by split.
  - intros k Hk _ Hne _. by rewrite lookup_insert_ne.
Qed.

(** The step of [ensureTasksColumns] for the column [c], from the names
    [table_info] gave. *)
Lemma ensure_column (c : string) (names : list string) (s s' : Schema) :
  (if existsb (string_eqb c) names then s' = s
   else sqlite_schema.exec (AlterTableAddColumn "tasks" c) s = (Ok tt, s')) ->
  grows s s'
  /\ (c ∈ names
      \/ exists has, schema_tables s' !! "tasks" = Some (has ++ [c])).
Proof.
  destruct (existsb (string_eqb c) names) eqn:E.
  - intros ->. split; [apply grows_refl|]. left. by apply existsb_elem.
  - intros Hex. split; [by eapply add_column_grows|]. right.
    apply exec_add_column in Hex as (has & _ & _ & -> & _).
    exists has. apply lookup_insert_eq.
Qed.

Lemma migrate_Ok_migrated (s s' : Schema) :
  migrate s = (Ok tt, s') -> migrated s' /\ grows s s'.
Proof.
  intros Hm. apply migrate_Ok_inv in Hm
    as (s1 & s2 & s3 & s4 & s5 & s6 & E1 & E2 & E3 & E4 & E5 & E6 & E7).
  cbn zeta in E5, E6.
  pose proof (create_table_grows "groups" _ _ _ eq_refl ltac:(auto) E1) as G1.
  pose proof (create_table_grows "tasks" _ _ _ eq_refl ltac:(auto) E2) as G2.
  pose proof (create_index_grows _ _ _ _ _ E3) as G3.
  pose proof (create_table_grows "settings" _ _ _ eq_refl ltac:(auto) E4) as G4.
  apply ensure_column in E5 as [G5 C5]. apply ensure_column in E6 as [G6 C6].
  pose proof (create_index_grows _ _ _ _ _ E7) as G7.
  apply exec_create_table in E1 as (_ & _ & T1).
  apply exec_create_table in E2 as (_ & _ & T2).
  apply exec_create_table in E4 as (_ & _ & T4).
  apply exec_create_index in E3 as (_ & N3 & I3 & _).
  apply exec_create_index in E7 as (_ & N7 & I7 & _).
  change (sqlite_schema.fold "groups") with "groups" in *.
  change (sqlite_schema.fold "tasks") with "tasks" in *.
  change (sqlite_schema.fold "settings") with "settings" in *.
  change (sqlite_schema.fold "idx_tasks_group_status")
    with "idx_tasks_group_status" in *.
  change (sqlite_schema.fold "idx_tasks_important_urgent")
    with "idx_tasks_important_urgent" in *.
  pose proof (grows_trans _ _ _ G5 (grows_trans _ _ _ G6 G7)) as G47.
  pose proof (grows_trans _ _ _ G4 G47) as G37.
  pose proof (grows_trans _ _ _ G3 G37) as G27.
  pose proof (grows_trans _ _ _ G2 G27) as G17.
  split; [|by eapply grows_trans].
  split.
  - destruct (grows_tables _ _ G17 _ _ T1) as (? & -> & _). eauto.
  - (* the columns of tasks *)
    destruct (schema_tables s4 !! "tasks") as [names|] eqn:T4';
      [|destruct (grows_tables _ _ (grows_trans _ _ _ G3 G4) _ _ T2)
          as (? & ? & _); congruence].
    cbn [default from_option] in C5, C6. unfold id in C5, C6.
    assert (exists c5, schema_tables s5 !! "tasks" = Some c5
                       /\ "important" ∈ c5) as (c5 & T5 & H5).
    { destruct (grows_tables _ _ G5 _ _ T4') as (add & T5 & _).
      exists (names ++ add). split; [done|].
      destruct C5 as [Hin|(has & Hhas)].
      - apply elem_of_app. by left.
      - rewrite T5 in Hhas. injection Hhas as ->.
        apply elem_of_app. right. by apply list_elem_of_singleton. }
    assert (exists c6, schema_tables s6 !! "tasks" = Some c6
                       /\ "important" ∈ c6 /\ "urgent" ∈ c6)
      as (c6 & T6 & H6i & H6u).
    { destruct (grows_tables _ _ G6 _ _ T5) as (add & T6 & _).
      exists (c5 ++ add). split; [done|].
      split; [apply elem_of_app; by left|].
      destruct C6 as [Hin|(has & Hhas)].
      - destruct (grows_tables _ _ G5 _ _ T4') as (add5 & T5' & _).
        rewrite T5 in T5'. injection T5' as ->.
        apply elem_of_app. left. apply elem_of_app. by left.
      - rewrite T6 in Hhas. injection Hhas as ->.
        apply elem_of_app. right. by apply list_elem_of_singleton. }
    destruct (grows_tables _ _ G7 _ _ T6) as (add & T7 & _).
    exists (c6 ++ add). split; [done|].
    split; apply elem_of_app; by left.
  - destruct (grows_tables _ _ G47 _ _ T4) as (? & -> & _). eauto.
  - destruct I3 as [i Hi]. rewrite (grows_indexes _ _ G37 _ _ Hi). eauto.
  - done.
  - by apply (grows_new _ _ G27).
  - destruct (grows_new _ _ G7 _ N7) as []; done.
Qed.

(** The columns of [tasks] in the statement of [migrate]. *)
Definition tasks_columns : list string :=
  ["id"; "group_id"; "title"; "content"; "status"; "important"; "urgent";
   "created_at"; "updated_at"].

(** The column [c] when no column of [names] has exactly this name. *)
Definition missing (c : string) (names : list string) : list string :=
  if existsb (string_eqb c) names then [] else [c].

Lemma migrate_tasks_columns (s s' : Schema) :
  migrate s = (Ok tt, s') ->
  let names := default tasks_columns (schema_tables s !! "tasks") in
  schema_tables s' !! "tasks"
  = Some (names ++ missing "important" names ++ missing "urgent" names).
Proof.
  intros Hm. apply migrate_Ok_inv in Hm
    as (s1 & s2 & s3 & s4 & s5 & s6 & E1 & E2 & E3 & E4 & E5 & E6 & E7).
  apply exec_create_table in E1 as (_ & F1 & _).
  apply exec_create_table in E2 as (_ & _ & T2).
  apply exec_create_index in E3 as (F3 & _).
  apply exec_create_table in E4 as (_ & F4 & _).
  apply exec_create_index in E7 as (F7 & _).
  change (sqlite_schema.fold "groups") with "groups" in *.
  change (sqlite_schema.fold "tasks") with "tasks" in *.
  change (sqlite_schema.fold "settings") with "settings" in *.
  rewrite (F1 "tasks") in T2 by done. fold tasks_columns in T2.
  rewrite <- F3, <- (F4 "tasks") in T2 by done.
  cbn zeta.
  set (names := default tasks_columns (schema_tables s !! "tasks")) in *.
  clearbody names.
  rewrite T2 in E5, E6. cbn [default from_option] in E5, E6.
  unfold id in E5, E6.
  rewrite F7. unfold missing.
  assert (schema_tables s5 !! "tasks"
          = Some (names ++ (if existsb (string_eqb "important") names
                            then [] else ["important"]))) as T5.
  { revert E5. destruct (existsb (string_eqb "important") names); intros E5.
    - subst s5. by rewrite app_nil_r.
    - apply exec_add_column in E5 as (has & Hhas & _ & -> & _).
      change (sqlite_schema.fold "tasks") with "tasks" in *.
      rewrite lookup_insert_eq. congruence. }
  revert E6. destruct (existsb (string_eqb "urgent") names); intros E6.
  - subst s6. by rewrite app_nil_r.
  - apply exec_add_column in E6 as (has & Hhas & _ & -> & _).
    change (sqlite_schema.fold "tasks") with "tasks" in *.
    rewrite lookup_insert_eq. rewrite T5 in Hhas. injection Hhas as <-.
    by rewrite <- app_assoc.
Qed.

(** X21: a run of [migrate] that succeeds leaves a schema with the three
    tables, the columns [important] and [urgent] in [tasks], and the two
    indexes; and [migrate] is idempotent: a second run succeeds and
    changes nothing. *)
Theorem migrate_idempotent (s s' : Schema) :
  migrate s = (Ok tt, s') ->
  migrate s' = (Ok tt, s')
  /\ is_Some (schema_tables s' !! "groups")
  /\ is_Some (schema_tables s' !! "settings")
  /\ (exists cols,
         schema_tables s' !! "tasks" = Some cols
         /\ "important" ∈ cols /\ "urgent" ∈ cols)
  /\ is_Some (schema_indexes s' !! "idx_tasks_group_status")
  /\ is_Some (schema_indexes s' !! "idx_tasks_important_urgent").
Proof.
  intros Hm. apply migrate_Ok_migrated in Hm as [Hmig _].
  split; [by apply migrate_migrated|]. by destruct Hmig.
Qed.

(** X22: [migrate] drops nothing: after a run that succeeds every index
    is as it was, and every table has the columns it had, in their order;
    only [tasks] has more columns, those of [important] and [urgent] that
    no column was named exactly, added last in this order. *)
Theorem migrate_keeps (s s' : Schema) :
  migrate s = (Ok tt, s') ->
  (forall k v, schema_indexes s !! k = Some v ->
               schema_indexes s' !! k = Some v)
  /\ (forall k cols,
         schema_tables s !! k = Some cols -> k <> "tasks" ->
         schema_tables s' !! k = Some cols)
  /\ (forall cols,
         schema_tables s !! "tasks" = Some cols ->
         schema_tables s' !! "tasks"
         = Some (cols ++ missing "important" cols ++ missing "urgent" cols)).
Proof.
  intros Hm. pose proof (migrate_tasks_columns s s' Hm) as Ht.
  apply migrate_Ok_migrated in Hm as [_ [Hi Hk _]]. split_and!.
  - done.
  - intros k cols Hc Hne. destruct (Hk k cols Hc) as (added & -> & Hadd).
    by rewrite (Hadd Hne), app_nil_r.
  - intros cols Hc. by rewrite Hc in Ht.
Qed.

Lemma create_table_ok (t : string) (cols : list string) (s : Schema) :
  (schema_tables s !! sqlite_schema.fold t = None ->
   schema_indexes s !! sqlite_schema.fold t = None) ->
  exists s', sqlite_schema.exec (CreateTableIfNotExists t cols) s = (Ok tt, s').
Proof.
  intros H. cbn [sqlite_schema.exec].
  destruct (schema_tables s !! sqlite_schema.fold t); [eauto|].
  rewrite H by done. eauto.
Qed.

Lemma create_index_ok (n t : string) (cols has : list string) (s : Schema) :
  schema_tables s !! sqlite_schema.fold t = Some has ->
  schema_tables s !! sqlite_schema.fold n = None ->
  (schema_indexes s !! sqlite_schema.fold n = None ->
   forallb (sqlite_schema.has_column has) cols = true) ->
  exists s',
    sqlite_schema.exec (CreateIndexIfNotExists n t cols) s = (Ok tt, s').
Proof.
  intros Ht Hn Hc. cbn [sqlite_schema.exec]. rewrite Ht, Hn.
  destruct (schema_indexes s !! sqlite_schema.fold n); [eauto|].
  rewrite Hc by done. eauto.
Qed.

Lemma has_column_app (a b : list string) (c : string) :
  sqlite_schema.has_column (a ++ b) c
  = sqlite_schema.has_column a c || sqlite_schema.has_column b c.
Proof. apply existsb_app. Qed.

(** The step of [ensureTasksColumns] for the column [c] succeeds when no
    column has the name [c] in another case of its letters. *)
Lemma ensure_column_ok (c : string) (names has : list string) (s : Schema) :
  schema_tables s !! "tasks" = Some has ->
  (sqlite_schema.has_column has c = true -> c ∈ names) ->
  exists s',
    (if existsb (string_eqb c) names then s' = s
     else sqlite_schema.exec (AlterTableAddColumn "tasks" c) s = (Ok tt, s')).
Proof.
  intros Ht Hc. destruct (existsb (string_eqb c) names) eqn:E; [eauto|].
  cbn [sqlite_schema.exec].
  change (sqlite_schema.fold "tasks") with "tasks". rewrite Ht.
  destruct (sqlite_schema.has_column has c) eqn:Hh; [|eauto].
  apply existsb_elem in Hc; [congruence|done].
Qed.

(** The steps of [migrate], put together. *)
Lemma migrate_steps (s s1 s2 s3 s4 s5 s6 s' : Schema) :
  sqlite_schema.exec
    (CreateTableIfNotExists "groups"
       ["id"; "name"; "created_at"; "updated_at"]) s = (Ok tt, s1) ->
  sqlite_schema.exec (CreateTableIfNotExists "tasks" tasks_columns) s1
  = (Ok tt, s2) ->
  sqlite_schema.exec
    (CreateIndexIfNotExists "idx_tasks_group_status" "tasks"
       ["group_id"; "status"]) s2 = (Ok tt, s3) ->
  sqlite_schema.exec
    (CreateTableIfNotExists "settings" ["key"; "value"]) s3 = (Ok tt, s4) ->
  (let names := default [] (schema_tables s4 !! "tasks") in
   if existsb (string_eqb "important") names then s5 = s4
   else sqlite_schema.exec (AlterTableAddColumn "tasks" "important") s4
        = (Ok tt, s5)) ->
  (let names := default [] (schema_tables s4 !! "tasks") in
   if existsb (string_eqb "urgent") names then s6 = s5
   else sqlite_schema.exec (AlterTableAddColumn "tasks" "urgent") s5
        = (Ok tt, s6)) ->
  sqlite_schema.exec
    (CreateIndexIfNotExists "idx_tasks_important_urgent" "tasks"
       ["important"; "urgent"]) s6 = (Ok tt, s') ->
  migrate s = (Ok tt, s').
Proof.
  intros E1 E2 E3 E4 E5 E6 E7.
  unfold migrate, migrate_range, stmts, ensureTasksColumns.
  cbn [ExecDDL TableInfo sqlite_schema_db sqlite_schema.table_info].
  change (sqlite_schema.fold "tasks") with "tasks".
  fold tasks_columns.
  rewrite E1; lazy beta iota zeta. rewrite E2; lazy beta iota zeta.
  rewrite E3; lazy beta iota zeta. rewrite E4; lazy beta iota zeta.
  cbn zeta in E5, E6. revert E5 E6.
  destruct (existsb (string_eqb "important") _);
    destruct (existsb (string_eqb "urgent") _); cbn [negb];
    lazy beta iota zeta.
  - intros -> ->. by rewrite E7.
  - intros -> E6. by rewrite E6, E7.
  - intros E5 ->. by rewrite E5, E7.
  - intros E5 E6. rewrite E5; lazy beta iota zeta. by rewrite E6, E7.
Qed.

Lemma exec_create_index_frame (n t : string) (cols : list string)
    (s s' : Schema) (k : string) :
  sqlite_schema.exec (CreateIndexIfNotExists n t cols) s = (Ok tt, s') ->
  k <> sqlite_schema.fold n ->
  schema_indexes s' !! k = schema_indexes s !! k.
Proof.
  cbn [sqlite_schema.exec].
  destruct (schema_tables s !! sqlite_schema.fold t) as [has|]; [|done].
  destruct (schema_tables s !! sqlite_schema.fold n); [done|].
  destruct (schema_indexes s !! sqlite_schema.fold n).
  - by intros [= <-].
  - destruct (forallb _ _); [|done]. intros [= <-] Hk. cbn.
    by rewrite lookup_insert_ne.
Qed.

Lemma ensure_column_state (c : string) (names has : list string)
    (s s' : Schema) :
  schema_tables s !! "tasks" = Some has ->
  (if existsb (string_eqb c) names then s' = s
   else sqlite_schema.exec (AlterTableAddColumn "tasks" c) s = (Ok tt, s')) ->
  schema_tables s' !! "tasks" = Some (has ++ missing c names)
  /\ (forall k, k <> "tasks" -> schema_tables s' !! k = schema_tables s !! k)
  /\ schema_indexes s' = schema_indexes s.
Proof.
  intros Ht. unfold missing.
  destruct (existsb (string_eqb c) names).
  - intros ->. by rewrite app_nil_r.
  - intros E. apply exec_add_column in E as (has' & Hhas & _ & -> & ->).
    change (sqlite_schema.fold "tasks") with "tasks" in *.
    rewrite lookup_insert_eq. split_and!; [congruence| |done].
    intros k Hk. by rewrite lookup_insert_ne.
Qed.

Lemma missing_elem (c : string) (names : list string) :
  c ∈ names ++ missing c names.
Proof.
  unfold missing. destruct (existsb (string_eqb c) names) eqn:E.
  - apply elem_of_app. left. by apply existsb_elem.
  - apply elem_of_app. right. by apply list_elem_of_singleton.
Qed.

(** X23: [migrate] succeeds on a new file, and on every file in which no
    index has the name of one of the three tables unless the table is
    there, no table has the name of one of the two indexes, and [tasks],
    if it is there, has the columns of the first index unless this index
    is there, and no column named [important] or [urgent] in another
    case of the letters. *)
Theorem migrate_succeeds (s : Schema) :
  (forall k, k = "groups" \/ k = "tasks" \/ k = "settings" ->
             schema_tables s !! k = None -> schema_indexes s !! k = None) ->
  schema_tables s !! "idx_tasks_group_status" = None ->
  schema_tables s !! "idx_tasks_important_urgent" = None ->
  (forall cols,
      schema_tables s !! "tasks" = Some cols ->
      (schema_indexes s !! "idx_tasks_group_status" = None ->
       sqlite_schema.has_column cols "group_id" = true
       /\ sqlite_schema.has_column cols "status" = true)
      /\ (sqlite_schema.has_column cols "important" = true ->
          "important" ∈ cols)
      /\ (sqlite_schema.has_column cols "urgent" = true ->
          "urgent" ∈ cols)) ->
  exists s', migrate s = (Ok tt, s').
Proof.
  intros Hidx Hn1 Hn2 Hcols.
  (* groups *)
  destruct (create_table_ok "groups"
              ["id"; "name"; "created_at"; "updated_at"] s) as [s1 E1];
    [apply Hidx; auto|].
  pose proof (exec_create_table _ _ _ _ E1) as (I1 & F1 & _).
  change (sqlite_schema.fold "groups") with "groups" in *.
  (* tasks *)
  destruct (create_table_ok "tasks" tasks_columns s1) as [s2 E2].
  { change (sqlite_schema.fold "tasks") with "tasks".
    rewrite I1, F1 by done. apply Hidx; auto. }
  pose proof (exec_create_table _ _ _ _ E2) as (I2 & F2 & T2).
  change (sqlite_schema.fold "tasks") with "tasks" in *.
  rewrite (F1 "tasks") in T2 by done.
  set (names := default tasks_columns (schema_tables s !! "tasks")) in *.
  assert ((schema_indexes s !! "idx_tasks_group_status" = None ->
           sqlite_schema.has_column names "group_id" = true
           /\ sqlite_schema.has_column names "status" = true)
          /\ (sqlite_schema.has_column names "important" = true ->
              "important" ∈ names)
          /\ (sqlite_schema.has_column names "urgent" = true ->
              "urgent" ∈ names)) as (Hgs & Himp & Hurg).
  { unfold names. destruct (schema_tables s !! "tasks") as [cols|] eqn:Ht.
    - by apply Hcols.
    - cbn [default from_option]. split_and!; intros _.
      + by vm_compute.
      + unfold tasks_columns. rewrite !elem_of_cons. auto 10.
      + unfold tasks_columns. rewrite !elem_of_cons. auto 10. }
  clearbody names.
  (* the first index *)
  destruct (create_index_ok "idx_tasks_group_status" "tasks"
              ["group_id"; "status"] names s2) as [s3 E3].
  { done. }
  { change (sqlite_schema.fold "idx_tasks_group_status")
      with "idx_tasks_group_status".
    by rewrite F2, F1. }
  { change (sqlite_schema.fold "idx_tasks_group_status")
      with "idx_tasks_group_status".
    rewrite I2, I1. intros Hi. destruct (Hgs Hi) as [Hg Hs].
    cbn [forallb]. by rewrite Hg, Hs. }
  pose proof (exec_create_index _ _ _ _ _ E3) as (F3 & _ & _ & _).
  pose proof (exec_create_index_frame _ _ _ _ _ "settings" E3 ltac:(done))
    as I3.
  (* settings *)
  destruct (create_table_ok "settings" ["key"; "value"] s3) as [s4 E4].
  { change (sqlite_schema.fold "settings") with "settings".
    rewrite I3, I2, I1, F3, F2, F1 by done. apply Hidx; auto. }
  pose proof (exec_create_table _ _ _ _ E4) as (I4 & F4 & _).
  change (sqlite_schema.fold "settings") with "settings" in *.
  assert (schema_tables s4 !! "tasks" = Some names) as T4
      by (rewrite F4 by done; by rewrite F3).
  (* the two columns *)
  destruct (ensure_column_ok "important" names names s4 T4 Himp) as [s5 E5].
  pose proof (ensure_column_state _ _ _ _ _ T4 E5) as (T5 & F5 & I5).
  destruct (ensure_column_ok "urgent" names
              (names ++ missing "important" names) s5 T5) as [s6 E6].
  { rewrite has_column_app. intros Hc. apply Hurg.
    apply orb_true_iff in Hc as [Hc|Hc]; [done|].
    unfold missing in Hc. by destruct (existsb _ names). }
  pose proof (ensure_column_state _ _ _ _ _ T5 E6) as (T6 & F6 & I6).
  (* the second index *)
  destruct (create_index_ok "idx_tasks_important_urgent" "tasks"
              ["important"; "urgent"]
              ((names ++ missing "important" names)
               ++ missing "urgent" names) s6) as [s' E7].
  { done. }
  { change (sqlite_schema.fold "idx_tasks_important_urgent")
      with "idx_tasks_important_urgent".
    rewrite F6, F5, F4 by done. by rewrite F3, F2, F1. }
  { intros _. cbn [forallb].
    assert ("important" ∈ (names ++ missing "important" names)
                          ++ missing "urgent" names) as Hi
        by (apply elem_of_app; left; apply missing_elem).
    assert ("urgent" ∈ (names ++ missing "important" names)
                       ++ missing "urgent" names) as Hu.
    { pose proof (missing_elem "urgent" names) as H.
      apply elem_of_app in H as [H|H].
      - apply elem_of_app. left. apply elem_of_app. by left.
      - apply elem_of_app. by right. }
    by rewrite (has_column_elem _ _ Hi), (has_column_elem _ _ Hu). }
  exists s'. eapply migrate_steps; try eassumption.
  - cbn zeta. by rewrite T4.
  - cbn zeta. by rewrite T4.
Qed.

(** The schema of a file of the first version: [tasks] without the two
    columns, and the first index. *)
Definition old_schema : Schema :=
  {| schema_tables :=
       {[ "groups" := ["id"; "name"; "created_at"; "updated_at"];
          "tasks" := ["id"; "group_id"; "title"; "content"; "status";
                      "created_at"; "updated_at"];
          "settings" := ["key"; "value"] ]};
     schema_indexes :=
       {[ "idx_tasks_group_status" := ("tasks", ["group_id"; "status"]) ]} |}.

Lemma migrate_idempotent_witness :
  let s' := (migrate old_schema).2 in
  migrate s' = (Ok tt, s')
  /\ is_Some (schema_tables s' !! "groups")
  /\ is_Some (schema_tables s' !! "settings")
  /\ (exists cols,
         schema_tables s' !! "tasks" = Some cols
         /\ "important" ∈ cols /\ "urgent" ∈ cols)
  /\ is_Some (schema_indexes s' !! "idx_tasks_group_status")
  /\ is_Some (schema_indexes s' !! "idx_tasks_important_urgent").
Proof.
  apply (migrate_idempotent old_schema). by vm_compute.
Defined.

Lemma migrate_keeps_witness :
  let s' := (migrate old_schema).2 in
  (forall k v, schema_indexes old_schema !! k = Some v ->
               schema_indexes s' !! k = Some v)
  /\ (forall k cols,
         schema_tables old_schema !! k = Some cols -> k <> "tasks" ->
         schema_tables s' !! k = Some cols)
  /\ (forall cols,
         schema_tables old_schema !! "tasks" = Some cols ->
         schema_tables s' !! "tasks"
         = Some (cols ++ missing "important" cols ++ missing "urgent" cols)).
Proof.
  apply (migrate_keeps old_schema). by vm_compute.
Defined.

Lemma migrate_succeeds_witness :
  exists s', migrate empty_schema = (Ok tt, s').
Proof.
  apply (migrate_succeeds empty_schema).
  - intros k _ _. apply lookup_empty.
  - apply lookup_empty.
  - apply lookup_empty.
  - intros cols Hc. cbn in Hc. by rewrite lookup_empty in Hc.
Defined.

(** ** The start of the application *)

Section Startup.
Context {tables : CaseTables} {D : Type} {E : SqlDB D}.

(** X24: after [startup] on a new [App] the context is set and either the
    store is open or the startup error is recorded, never both and never
    neither, so that no method fails with the not-initialized error from
    then on; when the store is open it is the one [Open] returned for the
    default path, and the window is made always-on-top as the stored
    setting says, if the settings can be read; when it is not, the window
    is left as it was. *)
Theorem startup_store_or_error
    (dbPath : result string) (Open : string -> result D) (window : bool) :
  let '(a, w) := App.startup dbPath Open App.NewApp window in
  App.ctx a = true
  /\ (App.store a = None <-> is_Some (App.startupErr a))
  /\ App.ensureStoreReady a <> inl App.ErrNotInitialized
  /\ (forall s,
         App.store a = Some s ->
         exists path,
           dbPath = Ok path /\ Open path = Ok s
           /\ w = match GetSettings s with
                  | Ok st => Settings.AlwaysOnTop st
                  | Err _ => window
                  end)
  /\ (App.store a = None -> w = window).
Proof.
  unfold App.startup, App.NewApp, App.ensureStoreReady.
  cbn [App.ctx App.store App.startupErr App.waterReminderShowing].
  destruct dbPath as [path|err].
  - destruct (Open path) as [s|err] eqn:HO.
    + destruct (GetSettings s) as [st|err] eqn:HG;
        cbn [App.ctx App.store App.startupErr].
      * split_and!; [done|split; [done|by intros [? ?]]|done| |done].
        intros s' [= <-]. exists path. by rewrite HG.
      * split_and!; [done|split; [done|by intros [? ?]]|done| |done].
        intros s' [= <-]. exists path. by rewrite HG.
    + cbn [App.ctx App.store App.startupErr].
      split_and!; [done|split; eauto|done|done|done].
  - cbn [App.ctx App.store App.startupErr].
    split_and!; [done|split; eauto|done|done|done].
Qed.

End Startup.

(** ** The quadrants of the board *)

#[export] Existing Instance frontend.QuadrantKey_eq_dec.

Lemma push_fold (qk : Task.t -> frontend.QuadrantKey) (l : list Task.t)
    (init : frontend.QuadrantKey -> list Task.t) (k : frontend.QuadrantKey) :
  fold_left (fun map t => frontend.push map (qk t) t) l init k
  = init k ++ List.filter (fun t => bool_decide (qk t = k)) l.
Proof.
  revert init. induction l as [|t l IH]; intros init; cbn [fold_left].
  - by rewrite app_nil_r.
  - rewrite IH. unfold frontend.push. cbn [List.filter].
    rewrite (bool_decide_ext (k = qk t) (qk t = k)) by done.
    destruct (bool_decide (qk t = k)); [|done]. by rewrite <- app_assoc.
Qed.

Lemma filter_In_elem {A} (f : A -> bool) (l : list A) (x : A) :
  x ∈ List.filter f l <-> x ∈ l /\ f x = true.
Proof. rewrite !list_elem_of_In. apply filter_In. Qed.

(** X25: the board shows every task in one quadrant, the one whose entry
    of [quadrants] has the flags of the task: the list of a quadrant is
    the list of the tasks shown with this key, in their order.  With
    [hideDone] set no quadrant holds a task that is done, and a quadrant
    is visible exactly when a task shown has its flags. *)
Theorem quadrants_partition (board : option Board.t) :
  (forall k,
      frontend.quadrantTasksMap board k
      = List.filter (fun t => bool_decide (frontend.quadrantKey t = k))
          (frontend.tasks board))
  /\ (forall t q,
         q ∈ frontend.quadrants ->
         frontend.quadrantKey t = frontend.key q
         <-> Task.Important t = frontend.important q
             /\ Task.Urgent t = frontend.urgent q)
  /\ (Settings.HideDone (frontend.settings board) = true ->
      forall k t, t ∈ frontend.quadrantTasksMap board k ->
                  Task.Status t <> "done")
  /\ (forall q,
         q ∈ frontend.visibleQuadrants board
         <-> q ∈ frontend.quadrants
             /\ exists t, t ∈ frontend.tasks board
                          /\ Task.Important t = frontend.important q
                          /\ Task.Urgent t = frontend.urgent q).
Proof.
  assert (forall k,
             frontend.quadrantTasksMap board k
             = List.filter (fun t => bool_decide (frontend.quadrantKey t = k))
                 (frontend.tasks board)) as Hmap.
  { intros k. unfold frontend.quadrantTasksMap. by rewrite push_fold. }
  assert (forall t q,
             q ∈ frontend.quadrants ->
             frontend.quadrantKey t = frontend.key q
             <-> Task.Important t = frontend.important q
                 /\ Task.Urgent t = frontend.urgent q) as Hkey.
  { intros t q Hq. unfold frontend.quadrants in Hq.
    rewrite !elem_of_cons, elem_of_nil in Hq.
    unfold frontend.quadrantKey.
    destruct Hq as [-> | [-> | [-> | [-> | []]]]];
      destruct (Task.Important t), (Task.Urgent t); cbn; split;
      (done || by intros []). }
  split_and!; [done|done| |].
  - intros Hhide k t Ht. rewrite Hmap in Ht.
    apply filter_In_elem in Ht as [Ht _]. revert Ht.
    unfold frontend.tasks. rewrite Hhide. intros Ht.
    apply filter_In_elem in Ht as [_ Ht]. intros E.
    by rewrite E in Ht.
  - intros q. unfold frontend.visibleQuadrants.
    rewrite filter_In_elem. split.
    + intros [Hq Hlen]. split; [done|].
      rewrite Hmap in Hlen.
      destruct (List.filter _ (frontend.tasks board)) as [|t l] eqn:Hf;
        [done|].
      assert (t ∈ List.filter
                    (fun t => bool_decide (frontend.quadrantKey t
                                           = frontend.key q))
                    (frontend.tasks board)) as Ht
          by (rewrite Hf; apply elem_of_cons; by left).
      apply filter_In_elem in Ht as [Ht Hk].
      apply bool_decide_eq_true in Hk. exists t. split; [done|].
      by apply Hkey.
    + intros [Hq (t & Ht & Hflags)]. split; [done|].
      rewrite Hmap.
      assert (t ∈ List.filter
                    (fun t => bool_decide (frontend.quadrantKey t
                                           = frontend.key q))
                    (frontend.tasks board)) as Hin.
      { apply filter_In_elem. split; [done|].
        apply bool_decide_eq_true. by apply Hkey. }
      destruct (List.filter _ (frontend.tasks board)); [|done].
      by apply elem_of_nil in Hin.
Qed.

(** ** The areas of the grid *)

(** The template of a grid of two rows of two cells. *)
Definition cells (a b c d : frontend.QuadrantKey) : string :=
  "'" +:+ frontend.key_text a +:+ " " +:+ frontend.key_text b +:+ "' '"
  +:+ frontend.key_text c +:+ " " +:+ frontend.key_text d +:+ "'".

Definition all_keys : list frontend.QuadrantKey :=
  [frontend.IU; frontend.IN; frontend.NU; frontend.NN].

(** The cells of a template, found among all. *)
Definition find_cells (s : string)
    : option (frontend.QuadrantKey * frontend.QuadrantKey
              * frontend.QuadrantKey * frontend.QuadrantKey) :=
  List.find
    (fun '(a, b, c, d) => string_eqb (cells a b c d) s)
    (flat_map
       (fun a =>
          flat_map
            (fun b =>
               flat_map (fun c => List.map (fun d => (a, b, c, d)) all_keys)
                 all_keys)
            all_keys)
       all_keys).

Lemma find_cells_sound (s : string) (a b c d : frontend.QuadrantKey) :
  find_cells s = Some (a, b, c, d) -> s = cells a b c d.
Proof.
  unfold find_cells. intros H. apply find_some in H as [_ H].
  by apply string_eqb_eq in H.
Qed.

Lemma keys_length (keys : list frontend.QuadrantKey) :
  NoDup keys -> (length keys <= 4)%nat.
Proof.
  intros Hnd. change 4%nat with (length all_keys).
  apply submseteq_length, NoDup_submseteq; [done|].
  intros k _. unfold all_keys. rewrite !elem_of_cons. destruct k; auto.
Qed.

Ltac distinct_keys :=
  match goal with
  | H : NoDup _ |- _ =>
      rewrite ?NoDup_cons, ?not_elem_of_cons in H; destruct_and?
  end.

Ltac find_the_cells :=
  match goal with
  | |- exists a b c d, ?s = cells a b c d /\ _ =>
      let r := eval vm_compute in (find_cells s) in
      match r with
      | Some (?a, ?b, ?c, ?d) =>
          exists a, b, c, d; split; [apply find_cells_sound; by vm_compute|]
      end
  end.

(** The areas [computeMatrixTemplateAreas] gives a set of keys are a grid
    of two rows of two cells that names exactly the keys of the set. *)
Lemma areas_cover (w h : Z) (keys : list frontend.QuadrantKey) :
  NoDup keys -> keys <> [] ->
  exists a b c d,
    frontend.computeMatrixTemplateAreas w h (Some keys) = cells a b c d
    /\ forall k, k ∈ [a; b; c; d] <-> k ∈ keys.
Proof.
  intros Hnd Hne. pose proof (keys_length keys Hnd) as Hlen.
  unfold frontend.computeMatrixTemplateAreas.
  destruct (w <=? h);
    destruct keys as [|k1 [|k2 [|k3 [|k4 [|k5 keys]]]]];
    try done; try (cbn in Hlen; lia);
    distinct_keys;
    repeat match goal with
           | k : frontend.QuadrantKey |- _ => destruct k
           end;
    try congruence;
    find_the_cells;
    intros k; destruct k; rewrite !elem_of_cons, !elem_of_nil;
    intuition congruence.
Qed.

(** X26 ([computeMatrixTemplateAreas], src/frontend/src/App.vue): a
    JavaScript [Set] holds no key twice; for such a set the areas are the
    empty string when the set is empty, and otherwise a grid of two rows of
    two cells whose cells name exactly the keys of the set, whatever the
    size of the window: no quadrant of the set is left without a cell and
    no cell names a quadrant outside it. *)
Theorem computeMatrixTemplateAreas_cover (innerWidth innerHeight : Z)
    (keys : list frontend.QuadrantKey) :
  NoDup keys ->
  match keys with
  | [] =>
      frontend.computeMatrixTemplateAreas innerWidth innerHeight (Some keys)
      = ""
  | _ :: _ =>
      exists a b c d,
        frontend.computeMatrixTemplateAreas innerWidth innerHeight
          (Some keys)
        = cells a b c d
        /\ forall k, k ∈ [a; b; c; d] <-> k ∈ keys
  end.
Proof.
  intros Hnd. destruct keys as [|k keys]; [done|].
  by apply areas_cover.
Qed.

Lemma computeMatrixTemplateAreas_cover_witness :
  NoDup [frontend.NN; frontend.IU]
  /\ exists a b c d,
       frontend.computeMatrixTemplateAreas 1280 720
         (Some [frontend.NN; frontend.IU])
       = cells a b c d
       /\ forall k, k ∈ [a; b; c; d] <-> k ∈ [frontend.NN; frontend.IU].
Proof.
  assert (Hnd : NoDup [frontend.NN; frontend.IU]).
  { apply NoDup_cons. split.
    - rewrite list_elem_of_singleton. discriminate.
    - apply NoDup_singleton. }
  split; [exact Hnd|].
  exact (computeMatrixTemplateAreas_cover 1280 720
           [frontend.NN; frontend.IU] Hnd).
Defined.

Lemma Set_has_elem (keys : list frontend.QuadrantKey)
    (k : frontend.QuadrantKey) :
  frontend.Set_has keys k = true <-> k ∈ keys.
Proof.
  unfold frontend.Set_has. rewrite existsb_exists. split.
  - intros (k' & Hin & Hk). apply bool_decide_eq_true in Hk as ->.
    by apply list_elem_of_In.
  - intros Hin. exists k. split; [by apply list_elem_of_In|].
    by apply bool_decide_eq_true.
Qed.

Lemma Set_add_spec (keys : list frontend.QuadrantKey)
    (k : frontend.QuadrantKey) :
  NoDup keys ->
  NoDup (frontend.Set_add keys k)
  /\ forall x, x ∈ frontend.Set_add keys k <-> x ∈ keys \/ x = k.
Proof.
  intros Hnd. unfold frontend.Set_add.
  destruct (frontend.Set_has keys k) eqn:E.
  - apply Set_has_elem in E. split; [done|].
    intros x. split; [auto|]. by intros [?| ->].
  - assert (Hk : k ∉ keys).
    { intros Hin. apply Set_has_elem in Hin. congruence. }
    split.
    + apply NoDup_app. split_and!; [done| |apply NoDup_singleton].
      intros x Hx. rewrite list_elem_of_singleton. by intros ->.
    + intros x. by rewrite elem_of_app, list_elem_of_singleton.
Qed.

Lemma Set_add_fold (array keys : list frontend.QuadrantKey) :
  NoDup keys ->
  NoDup (fold_left frontend.Set_add array keys)
  /\ forall x,
       x ∈ fold_left frontend.Set_add array keys <-> x ∈ keys \/ x ∈ array.
Proof.
  revert keys. induction array as [|k array IH]; intros keys Hnd.
  - cbn. split; [done|]. intros x. rewrite elem_of_nil. tauto.
  - cbn [fold_left].
    destruct (Set_add_spec keys k Hnd) as [Hnd' Hel].
    destruct (IH _ Hnd') as [Hnd'' Hel'].
    split; [done|]. intros x. rewrite Hel', Hel, elem_of_cons. tauto.
Qed.

Lemma new_Set_spec (array : list frontend.QuadrantKey) :
  NoDup (frontend.new_Set array)
  /\ forall x, x ∈ frontend.new_Set array <-> x ∈ array.
Proof.
  destruct (Set_add_fold array [] (NoDup_nil_2)) as [Hnd Hel].
  split; [done|]. intros x. unfold frontend.new_Set.
  rewrite Hel, elem_of_nil. tauto.
Qed.

(** X27 ([matrixAreas], src/frontend/src/App.vue): with no quadrant to
    show the areas of the grid are the empty string; otherwise they are a
    grid of two rows of two cells, and a key names a cell exactly when it
    is the key of a quadrant that is shown. *)
Theorem matrixAreas_names_visible (innerWidth innerHeight : Z)
    (board : option Board.t) :
  match frontend.visibleQuadrants board with
  | [] => frontend.matrixAreas innerWidth innerHeight board = ""
  | _ :: _ =>
      exists a b c d,
        frontend.matrixAreas innerWidth innerHeight board = cells a b c d
        /\ forall k,
             k ∈ [a; b; c; d]
             <-> exists q,
                   q ∈ frontend.visibleQuadrants board
                   /\ frontend.key q = k
  end.
Proof.
  unfold frontend.matrixAreas.
  destruct (new_Set_spec (map frontend.key (frontend.visibleQuadrants board)))
    as [Hnd Hel].
  destruct (frontend.visibleQuadrants board) as [|q qs] eqn:E; [done|].
  destruct (areas_cover innerWidth innerHeight _ Hnd)
    as (a & b & c & d & Hareas & Hcells).
  { intros Hnil. specialize (Hel (frontend.key q)).
    rewrite Hnil in Hel. rewrite elem_of_nil in Hel.
    apply Hel. cbn [map]. apply elem_of_cons. by left. }
  exists a, b, c, d. split; [done|].
  intros k. rewrite Hcells, Hel.
  change (map frontend.key (q :: qs)) with (frontend.key <$> (q :: qs)).
  rewrite list_elem_of_fmap. split.
  - intros (q' & -> & Hq'). by exists q'.
  - intros (q' & Hq' & <-). by exists q'.
Qed.
